(** * Junction core: consent-gated event dispatch

    A shallow embedding of the event collection engine of
    [packages/core/src]: the consent manager ([consent.ts]), the
    validator ([validation.ts]) and the collector ([collector.ts]).

    The three TypeScript factories close over mutable variables; here
    those variables are the fields of one record, [CollectorState], and
    every function of the source is a computation in a state monad whose
    results are either a returned value or a thrown JavaScript exception.
    Calls into destination plugins and event handlers are recorded in an
    observation trace, in the order in which the source makes them.

    Two neighbours of the consent manager are embedded as well: the
    OneTrust adapter of [packages/cmp-onetrust], which feeds the
    collector's [consent], and the Google consent mode mapping of
    [packages/destination-ga4]. *)

From stdpp Require Import base option list gmap strings.
From Stdlib Require Import ZArith Lia.

Local Open Scope Z_scope.

(** ** JavaScript values and outcomes *)

(** Values of type [unknown]: payloads, destination configs, thrown
    errors, trait and property values. *)
#[warnings="-register-all"]
Inductive JsVal : Type :=
  | JUndefined
  | JNull
  | JBool (b : bool)
  | JNum (z : Z)
  | JStr (s : string)
  | JObj (fields : list (string * JsVal)).

(** The result of calling a JavaScript function. *)
Inductive Outcome (A : Type) : Type :=
  | Returns (a : A)
  | Throws (e : JsVal).
Arguments Returns {A} a.
Arguments Throws {A} e.

(** The result of calling [send]: a synchronous throw, or a promise that
    later resolves ([None]) or rejects ([Some e]). *)
Inductive SendResult : Type :=
  | SendThrows (e : JsVal)
  | SendPromise (rejection : option JsVal).

(** ** types.ts *)

Abbreviation Props := (gmap string JsVal).
Abbreviation ConsentCategory := string.
(** [Partial<Record<ConsentCategory, boolean>>]: the own keys of the
    object; a key may be present and hold [undefined] ([None]). *)
Abbreviation ConsentState := (gmap string (option bool)).

(** Identifiers produced by [uuid()] are represented by their index in
    the supply of fresh identifiers. *)
Record UserIdentity := {
  anonymousId : nat;
  userId : option string;
  traits : option Props;
}.

Inductive SourceType := SrcClient | SrcServer | SrcGateway.

Record EventSource := {
  src_type : SourceType;
  src_name : string;
  src_version : string;
}.

(** [timestamp] is the clock reading the ISO string is printed from;
    [id] is the index of the identifier drawn from the UUID supply. *)
Record JctEvent := {
  entity : string;
  action : string;
  properties : Props;
  context : Props;
  user : UserIdentity;
  timestamp : Z;
  id : nat;
  version : string;
  source : EventSource;
}.

Record ConsentConfig := {
  defaultState : ConsentState;
  queueTimeout : Z;
  respectDNT : bool;
  respectGPC : bool;
}.

Record Destination := {
  name : string;
  d_version : string;
  d_consent : list ConsentCategory;
  transform : JctEvent -> Outcome (option JsVal);
  send : JsVal -> JsVal -> SendResult;
  onConsent : option (ConsentState -> Outcome unit);
  teardown : option (Outcome unit);
}.

Record DestinationEntry := {
  destination : Destination;
  config : JsVal;
  e_consent : option (list ConsentCategory);
  enabled : option bool;
}.

Inductive ContractMode := strict | lenient.

(** What [schema.safeParse] does on a property bag: it succeeds with
    output data (and [same] tells whether the output is the input object
    itself), fails with a ZodError, or the schema object is broken and
    the call throws. *)
Inductive SafeParse : Type :=
  | ParseSuccess (data : Props) (same : bool)
  | ParseFailure (error : JsVal)
  | ParseThrows (e : JsVal).

Record EventContract := {
  c_entity : string;
  c_action : string;
  c_version : string;
  schema : Props -> SafeParse;
  mode : ContractMode;
}.

Record BufferConfig := {
  maxSize : Z;
  maxWait : Z;
}.

Record CollectorConfig := {
  globals : option Props;
  cfg_consent : ConsentConfig;
  cfg_destinations : list DestinationEntry;
  contracts : option (list EventContract);
  debug : bool;
  buffer : option BufferConfig;
}.

Inductive CollectorEvent :=
  | EvEvent | EvValid | EvInvalid | EvConsent
  | EvDestinationSend | EvDestinationError | EvDestinationInit
  | EvQueueFlush | EvError.

Record CreateCollectorOptions := {
  opt_config : CollectorConfig;
  opt_source : EventSource;
  resolveContext : option (Z -> Outcome Props);
}.

(** ** consent.ts: data *)

Record QueuedEvent := {
  event : JctEvent;
  queuedAt : Z;
}.

(** A running [setInterval]: its period and the next time it is due. *)
Record Interval := {
  period : Z;
  due : Z;
}.

(** What the browser exposes of [globalThis.navigator]:
    [doNotTrack] is [navigator.doNotTrack === "1"] and
    [globalPrivacyControl] is [navigator.globalPrivacyControl === true]. *)
Record Navigator := {
  doNotTrack : bool;
  globalPrivacyControl : bool;
}.

(** ** validation.ts: data *)

Record ValidationResult := {
  valid : bool;
  v_event : JctEvent;
  errors : option JsVal;
  coerced : option bool;
}.

(** ** Observations *)

(** Payloads handed to [emit]. *)
Inductive EmitPayload : Type :=
  | PEvent (e : JctEvent)
  | PInvalid (e : JctEvent) (errs : option JsVal)
  | PConsent (state : ConsentState)
  | PDestination (dest : string) (error : option JsVal) (ev : option JctEvent)
  | PQueueFlush (count : nat).

(** What the collector does to the outside, in order: the calls into
    destination plugins, the emissions, and the warnings and errors it
    writes to the console. The [console.log] lines of debug mode are
    diagnostics only and are not recorded. *)
Inductive Obs : Type :=
  | OTransform (dest : string) (e : JctEvent)
  | OSend (dest : string) (payload : JsVal) (cfg : JsVal)
  | OOnConsent (dest : string) (state : ConsentState)
  | OTeardown (dest : string)
  | OEmit (type : CollectorEvent) (payload : EmitPayload) (ts : Z)
  | OConsoleWarn (msg : string) (detail : JsVal)
  | OConsoleError (msg : string) (detail : JsVal).

(** Callbacks the event loop still has to run: the [.catch] handler of a
    [send] promise that rejects. *)
Inductive Task : Type :=
  | TSendRejected (dest : string) (e : JsVal) (ev : JctEvent).

(** ** The mutable state of one collector *)

Record CollectorState := {
  now : Z;                                          (* Date.now() *)
  idSupply : nat;                                   (* next uuid() *)
  cur_user : UserIdentity;                          (* let user *)
  destinations : list (string * DestinationEntry);  (* Map, insertion order *)
  c_state : ConsentState;                           (* consent.ts: let state *)
  queue : list QueuedEvent;                         (* consent.ts: let queue *)
  cleanupTimer : option Interval;                   (* consent.ts: _cleanupTimer *)
  registry : gmap string EventContract;             (* validation.ts: contracts *)
  buf : list JctEvent;                              (* let buffer *)
  flushTimer : option Z;                            (* deadline of the armed timeout *)
  microtasks : list Task;
  trace : list Obs;
}.

(** Field updates. *)
Definition set_now (f : Z -> Z) (s : CollectorState) : CollectorState :=
  {| now := f (now s); idSupply := idSupply s; cur_user := cur_user s;
     destinations := destinations s; c_state := c_state s; queue := queue s;
     cleanupTimer := cleanupTimer s; registry := registry s; buf := buf s;
     flushTimer := flushTimer s; microtasks := microtasks s; trace := trace s |}.
Definition set_idSupply (f : nat -> nat) (s : CollectorState) : CollectorState :=
  {| now := now s; idSupply := f (idSupply s); cur_user := cur_user s;
     destinations := destinations s; c_state := c_state s; queue := queue s;
     cleanupTimer := cleanupTimer s; registry := registry s; buf := buf s;
     flushTimer := flushTimer s; microtasks := microtasks s; trace := trace s |}.
Definition set_user (f : UserIdentity -> UserIdentity) (s : CollectorState) : CollectorState :=
  {| now := now s; idSupply := idSupply s; cur_user := f (cur_user s);
     destinations := destinations s; c_state := c_state s; queue := queue s;
     cleanupTimer := cleanupTimer s; registry := registry s; buf := buf s;
     flushTimer := flushTimer s; microtasks := microtasks s; trace := trace s |}.
Definition set_destinations
    (f : list (string * DestinationEntry) -> list (string * DestinationEntry))
    (s : CollectorState) : CollectorState :=
  {| now := now s; idSupply := idSupply s; cur_user := cur_user s;
     destinations := f (destinations s); c_state := c_state s; queue := queue s;
     cleanupTimer := cleanupTimer s; registry := registry s; buf := buf s;
     flushTimer := flushTimer s; microtasks := microtasks s; trace := trace s |}.
Definition set_c_state (f : ConsentState -> ConsentState) (s : CollectorState) : CollectorState :=
  {| now := now s; idSupply := idSupply s; cur_user := cur_user s;
     destinations := destinations s; c_state := f (c_state s); queue := queue s;
     cleanupTimer := cleanupTimer s; registry := registry s; buf := buf s;
     flushTimer := flushTimer s; microtasks := microtasks s; trace := trace s |}.
Definition set_queue (f : list QueuedEvent -> list QueuedEvent) (s : CollectorState) : CollectorState :=
  {| now := now s; idSupply := idSupply s; cur_user := cur_user s;
     destinations := destinations s; c_state := c_state s; queue := f (queue s);
     cleanupTimer := cleanupTimer s; registry := registry s; buf := buf s;
     flushTimer := flushTimer s; microtasks := microtasks s; trace := trace s |}.
Definition set_cleanupTimer (f : option Interval -> option Interval) (s : CollectorState) : CollectorState :=
  {| now := now s; idSupply := idSupply s; cur_user := cur_user s;
     destinations := destinations s; c_state := c_state s; queue := queue s;
     cleanupTimer := f (cleanupTimer s); registry := registry s; buf := buf s;
     flushTimer := flushTimer s; microtasks := microtasks s; trace := trace s |}.
Definition set_registry
    (f : gmap string EventContract -> gmap string EventContract)
    (s : CollectorState) : CollectorState :=
  {| now := now s; idSupply := idSupply s; cur_user := cur_user s;
     destinations := destinations s; c_state := c_state s; queue := queue s;
     cleanupTimer := cleanupTimer s; registry := f (registry s); buf := buf s;
     flushTimer := flushTimer s; microtasks := microtasks s; trace := trace s |}.
Definition set_buf (f : list JctEvent -> list JctEvent) (s : CollectorState) : CollectorState :=
  {| now := now s; idSupply := idSupply s; cur_user := cur_user s;
     destinations := destinations s; c_state := c_state s; queue := queue s;
     cleanupTimer := cleanupTimer s; registry := registry s; buf := f (buf s);
     flushTimer := flushTimer s; microtasks := microtasks s; trace := trace s |}.
Definition set_flushTimer (f : option Z -> option Z) (s : CollectorState) : CollectorState :=
  {| now := now s; idSupply := idSupply s; cur_user := cur_user s;
     destinations := destinations s; c_state := c_state s; queue := queue s;
     cleanupTimer := cleanupTimer s; registry := registry s; buf := buf s;
     flushTimer := f (flushTimer s); microtasks := microtasks s; trace := trace s |}.
Definition set_microtasks (f : list Task -> list Task) (s : CollectorState) : CollectorState :=
  {| now := now s; idSupply := idSupply s; cur_user := cur_user s;
     destinations := destinations s; c_state := c_state s; queue := queue s;
     cleanupTimer := cleanupTimer s; registry := registry s; buf := buf s;
     flushTimer := flushTimer s; microtasks := f (microtasks s); trace := trace s |}.
Definition set_trace (f : list Obs -> list Obs) (s : CollectorState) : CollectorState :=
  {| now := now s; idSupply := idSupply s; cur_user := cur_user s;
     destinations := destinations s; c_state := c_state s; queue := queue s;
     cleanupTimer := cleanupTimer s; registry := registry s; buf := buf s;
     flushTimer := flushTimer s; microtasks := microtasks s; trace := f (trace s) |}.

(** ** The monad of collector code

    A computation reads and writes the collector state and either returns
    or throws. What it wrote before throwing stays written, as in
    JavaScript. *)
Definition M (A : Type) : Type := CollectorState -> Outcome A * CollectorState.

Definition ret {A} (a : A) : M A := fun s => (Returns a, s).

Definition bind {A B} (m : M A) (k : A -> M B) : M B :=
  fun s =>
    match m s with
    | (Returns a, s') => k a s'
    | (Throws e, s') => (Throws e, s')
    end.

Definition throw {A} (e : JsVal) : M A := fun s => (Throws e, s).

(** [try { body } catch (e) { handler(e) }] *)
Definition try_catch {A} (body : M A) (handler : JsVal -> M A) : M A :=
  fun s =>
    match body s with
    | (Returns a, s') => (Returns a, s')
    | (Throws e, s') => handler e s'
    end.

Definition gets {A} (f : CollectorState -> A) : M A := fun s => (Returns (f s), s).
Definition modify (f : CollectorState -> CollectorState) : M unit :=
  fun s => (Returns tt, f s).

(** Lift the outcome of a call into foreign code. *)
Definition call {A} (o : Outcome A) : M A :=
  match o with
  | Returns a => ret a
  | Throws e => throw e
  end.

Declare Scope js_scope.
Delimit Scope js_scope with js.
Notation "'let*' x ':=' m 'in' k" := (bind m (fun x => k))
  (at level 10, x name, m at level 100, k at level 200) : js_scope.
Notation "m >> k" := (bind m (fun _ => k))
  (at level 90, right associativity) : js_scope.
Local Open Scope js_scope.

(** [for (const x of xs) body(x)] *)
Fixpoint for_of {A} (xs : list A) (body : A -> M unit) : M unit :=
  match xs with
  | [] => ret tt
  | x :: rest => body x >> for_of rest body
  end.

Definition observe (o : Obs) : M unit :=
  modify (set_trace (fun t => t ++ [o])).

(** State reached and outcome produced by running a computation. *)
Definition exec {A} (m : M A) (s : CollectorState) : CollectorState := snd (m s).
Definition outcome {A} (m : M A) (s : CollectorState) : Outcome A := fst (m s).

(** ** consent.ts *)

(** The initial [state]: the configured default, with the DNT and GPC
    overrides when a navigator is present. *)
Definition initialConsentState (config : ConsentConfig) (nav : option Navigator)
    : ConsentState :=
  let state := defaultState config in
  match nav with
  | None => state
  | Some n =>
      let state :=
        if respectDNT config && doNotTrack n
        then {[ "analytics" := Some false; "marketing" := Some false ]} ∪ state
        else state in
      if respectGPC config && globalPrivacyControl n
      then {[ "analytics" := Some false; "marketing" := Some false;
              "personalization" := Some false ]} ∪ state
      else state
  end.

(** [setInterval(sweep, Math.min(config.queueTimeout, 30_000))], armed
    only when [config.queueTimeout > 0]. *)
Definition initialCleanupTimer (config : ConsentConfig) (t0 : Z) : option Interval :=
  if 0 <? queueTimeout config
  then Some {| period := Z.min (queueTimeout config) 30000;
               due := t0 + Z.min (queueTimeout config) 30000 |}
  else None.

(** The interval callback:
    [queue = queue.filter((item) => now - item.queuedAt < config.queueTimeout)]. *)
Definition sweep (config : ConsentConfig) : M unit :=
  let* t := gets now in
  modify (set_queue (filter (fun item => t - queuedAt item < queueTimeout config))).

Definition Listener : Type := ConsentState -> ConsentState -> M unit.

Definition notify (listeners : list Listener) (previous : ConsentState) : M unit :=
  for_of listeners (fun listener =>
    try_catch
      (let* st := gets c_state in listener st previous)
      (fun e => observe (OConsoleError "[Junction] Consent listener error:" e))).

Definition getState : M ConsentState := gets c_state.

(** [state = { ...state, ...update }]: the update's keys win. *)
Definition setState (listeners : list Listener) (update : ConsentState) : M unit :=
  let* previous := gets c_state in
  modify (set_c_state (fun st => update ∪ st)) >>
  notify listeners previous.

Definition reset (config : ConsentConfig) (listeners : list Listener) : M unit :=
  let* previous := gets c_state in
  modify (set_c_state (fun _ => defaultState config)) >>
  modify (set_queue (fun _ => [])) >>
  notify listeners previous.

(** The consent state is a plain object, so reading a key that is not its
    own falls back to [Object.prototype]. These are the names found
    there; what they hold is neither a boolean nor [undefined]. *)
Definition objectPrototypeKeys : list string :=
  ["constructor"; "hasOwnProperty"; "isPrototypeOf"; "propertyIsEnumerable";
   "toLocaleString"; "toString"; "valueOf"; "__defineGetter__";
   "__defineSetter__"; "__lookupGetter__"; "__lookupSetter__"; "__proto__"].

(** [state[category] === true]: only an own key can hold [true]. *)
Definition reads_true (state : ConsentState) (category : ConsentCategory) : bool :=
  bool_decide (state !! category = Some (Some true)).

(** [state[cat] === undefined]: an own key holding [undefined], or no own
    key and nothing inherited under that name. *)
Definition reads_undefined (state : ConsentState) (cat : ConsentCategory) : bool :=
  match state !! cat with
  | Some v => bool_decide (v = None)
  | None => negb (bool_decide (cat ∈ objectPrototypeKeys))
  end.

Definition isAllowed (state : ConsentState) (required : list ConsentCategory) : bool :=
  if (length required =? 0)%nat
     || forallb (fun c => bool_decide (c = "necessary")) required
  then true
  else existsb (fun category => reads_true state category) required.

Definition isPending (state : ConsentState) (categories : list ConsentCategory) : bool :=
  existsb (fun cat => reads_undefined state cat) categories.

Definition enqueue (config : ConsentConfig) (ev : JctEvent) : M unit :=
  if queueTimeout config =? 0 then ret tt
  else
    let* t := gets now in
    modify (set_queue (fun q => q ++ [{| event := ev; queuedAt := t |}])).

Definition drain : M (list QueuedEvent) :=
  let* drained := gets queue in
  modify (set_queue (fun _ => [])) >>
  ret drained.

Definition queueSize : M nat := gets (fun s => length (queue s)).

(** ** validation.ts *)

Definition key (ent act : string) : string := ent ++ ":" ++ act.

Definition findContract (reg : gmap string EventContract) (ent act : string)
    : option EventContract :=
  match reg !! key ent act with
  | Some c => Some c
  | None => reg !! key ent "*"
  end.

Definition register (contract : EventContract) : M unit :=
  modify (set_registry (<[ key (c_entity contract) (c_action contract) := contract ]>)).

Definition unregister (ent act : string) : M unit :=
  modify (set_registry (delete (key ent act))).

Definition with_properties (ev : JctEvent) (data : Props) : JctEvent :=
  {| entity := entity ev; action := action ev; properties := data;
     context := context ev; user := user ev; timestamp := timestamp ev;
     id := id ev; version := version ev; source := source ev |}.

Definition validate (ev : JctEvent) : M ValidationResult :=
  let* reg := gets registry in
  match findContract reg (entity ev) (action ev) with
  | None =>
      ret {| valid := true; v_event := ev; errors := None; coerced := None |}
  | Some contract =>
      match schema contract (properties ev) with
      | ParseSuccess data same =>
          ret {| valid := true; v_event := with_properties ev data;
                 errors := None; coerced := Some (negb same) |}
      | ParseFailure err =>
          match mode contract with
          | strict =>
              ret {| valid := false; v_event := ev; errors := Some err;
                     coerced := None |}
          | lenient =>
              observe (OConsoleWarn "[Junction] Event validation warning" err) >>
              ret {| valid := true; v_event := ev; errors := Some err;
                     coerced := None |}
          end
      | ParseThrows e =>
          observe (OConsoleError "[Junction] Contract error" e) >>
          ret {| valid := true; v_event := ev; errors := None; coerced := None |}
      end
  end.

Definition hasContract (ent act : string) : M bool :=
  let* reg := gets registry in
  ret (bool_decide (is_Some (findContract reg ent act))).

(** ** collector.ts *)

Definition uuid : M nat :=
  let* n := gets idSupply in
  modify (set_idSupply S) >>
  ret n.

Definition timestamp_now : M Z := gets now.

Definition bufferConfig (options : CreateCollectorOptions) : BufferConfig :=
  {| maxSize := match buffer (opt_config options) with
                | Some b => maxSize b | None => 10 end;
     maxWait := match buffer (opt_config options) with
                | Some b => maxWait b | None => 2000 end |}.

(** [destinations.set(name, entry)]: a [Map] keeps insertion order, and
    setting an existing key replaces its value in place. *)
Fixpoint map_set (k : string) (v : DestinationEntry)
    (m : list (string * DestinationEntry)) : list (string * DestinationEntry) :=
  match m with
  | [] => [(k, v)]
  | (k', v') :: rest =>
      if bool_decide (k' = k) then (k, v) :: rest else (k', v') :: map_set k v rest
  end.

Fixpoint map_get (k : string) (m : list (string * DestinationEntry))
    : option DestinationEntry :=
  match m with
  | [] => None
  | (k', v') :: rest => if bool_decide (k' = k) then Some v' else map_get k rest
  end.

Fixpoint map_delete (k : string) (m : list (string * DestinationEntry))
    : list (string * DestinationEntry) :=
  match m with
  | [] => []
  | (k', v') :: rest =>
      if bool_decide (k' = k) then rest else (k', v') :: map_delete k rest
  end.

(** [emit] hands [{ type, payload, timestamp }] to every handler
    subscribed to [type], each inside its own try/catch, so a handler that
    throws stops nothing. The handlers are the caller's code; the trace
    records the emission itself, whether or not anyone is subscribed. *)
Definition emit (type : CollectorEvent) (payload : EmitPayload) : M unit :=
  let* ts := timestamp_now in
  observe (OEmit type payload ts).

Definition buildContext (options : CreateCollectorOptions) : M Props :=
  let* resolved :=
    match resolveContext options with
    | Some resolve => let* t := gets now in call (resolve t)
    | None => ret ∅
    end in
  ret (resolved ∪ default ∅ (globals (opt_config options))).

Definition buildEvent (options : CreateCollectorOptions)
    (ent act : string) (props : option Props) : M JctEvent :=
  let* ctx := buildContext options in
  let* u := gets cur_user in
  let* ts := timestamp_now in
  let* i := uuid in
  ret {| entity := ent; action := act; properties := default ∅ props;
         context := ctx; user := u; timestamp := ts; id := i;
         version := "1.0.0"; source := opt_source options |}.

(** [entry.consent ?? entry.destination.consent] *)
Definition requiredConsent (entry : DestinationEntry) : list ConsentCategory :=
  match e_consent entry with
  | Some cs => cs
  | None => d_consent (destination entry)
  end.

(** The body of the loop of [dispatchToDestinations] for one map entry. *)
Definition dispatchToDestination (options : CreateCollectorOptions)
    (ev : JctEvent) (ne : string * DestinationEntry) : M unit :=
  let '(nm, entry) := ne in
  let* st := gets c_state in
  if negb (isAllowed st (requiredConsent entry)) then
    if isPending st (requiredConsent entry)
    then enqueue (cfg_consent (opt_config options)) ev
    else ret tt
  else
    try_catch
      (observe (OTransform nm ev) >>
       let* payload := call (transform (destination entry) ev) in
       match payload with
       | None => ret tt
       | Some p =>
           observe (OSend nm p (config entry)) >>
           match send (destination entry) p (config entry) with
           | SendThrows e => throw e
           | SendPromise None => ret tt
           | SendPromise (Some e) =>
               modify (set_microtasks (fun ts => ts ++ [TSendRejected nm e ev]))
           end >>
           emit EvDestinationSend (PDestination nm None (Some ev))
       end)
      (fun e => emit EvDestinationError (PDestination nm (Some e) (Some ev))).

Definition dispatchToDestinations (options : CreateCollectorOptions)
    (ev : JctEvent) : M unit :=
  let* dests := gets destinations in
  for_of dests (dispatchToDestination options ev).

(** The [.catch] callback of a rejected [send] promise. *)
Definition runTask (options : CreateCollectorOptions) (t : Task) : M unit :=
  match t with
  | TSendRejected nm e ev =>
      emit EvDestinationError (PDestination nm (Some e) (Some ev)) >>
      if debug (opt_config options)
      then observe (OConsoleError ("[Junction] Send failed for " ++ nm ++ ":") e)
      else ret tt
  end.

(** The event loop runs the pending promise callbacks. *)
Definition runMicrotasks (options : CreateCollectorOptions) : M unit :=
  let* ts := gets microtasks in
  modify (set_microtasks (fun _ => [])) >>
  for_of ts (runTask options).

Definition with_user (ev : JctEvent) (u : UserIdentity) : JctEvent :=
  {| entity := entity ev; action := action ev; properties := properties ev;
     context := context ev; user := u; timestamp := timestamp ev;
     id := id ev; version := version ev; source := source ev |}.

(** The listener registered with [consent.onChange]. *)
Definition onConsentChange (options : CreateCollectorOptions) : Listener :=
  fun state _previous =>
    emit EvConsent (PConsent state) >>
    let* dests := gets destinations in
    for_of dests (fun ne =>
      match onConsent (destination (snd ne)) with
      | Some callback =>
          observe (OOnConsent (fst ne) state) >> call (callback state)
      | None => ret tt
      end) >>
    let* queued := drain in
    for_of queued (fun q =>
      let* u := gets cur_user in
      dispatchToDestinations options (with_user (event q) u)) >>
    emit EvQueueFlush (PQueueFlush (length queued)).

(** The largest delay a timer takes: [2^31 - 1] ms. *)
Definition TIMEOUT_MAX : Z := 2147483647.

(** The time a [setTimeout] timer waits for a requested delay. The delay
    is a 32-bit quantity: Node.js runs a timer whose delay is below 1 or
    above [TIMEOUT_MAX] after 1 ms. (Browsers wait the same time for
    every delay from 1 to [TIMEOUT_MAX].) *)
Definition timerDelay (ms : Z) : Z :=
  if (1 <=? ms) && (ms <=? TIMEOUT_MAX) then ms else 1.

Definition scheduleFlush (options : CreateCollectorOptions) : M unit :=
  let* timer := gets flushTimer in
  match timer with
  | Some _ => ret tt
  | None =>
      let* t := gets now in
      modify (set_flushTimer (fun _ =>
        Some (t + timerDelay (maxWait (bufferConfig options)))))
  end.

Definition flushBuffer (options : CreateCollectorOptions) : M unit :=
  modify (set_flushTimer (fun _ => None)) >>
  let* events := gets buf in
  match events with
  | [] => ret tt
  | _ =>
      modify (set_buf (fun _ => [])) >>
      for_of events (dispatchToDestinations options)
  end.

(** [result.errors?.flatten()]: the value the error's own [flatten]
    method returns, recorded as that method applied to the error;
    [undefined] when the result carries no error. *)
Definition flatten (errors : option JsVal) : JsVal :=
  match errors with
  | Some e => JObj [("flatten", e)]
  | None => JUndefined
  end.

Definition track (options : CreateCollectorOptions)
    (ent act : string) (props : option Props) : M unit :=
  let* ev := buildEvent options ent act props in
  let* result := validate ev in
  if negb (valid result) then
    emit EvInvalid (PInvalid ev (errors result)) >>
    if debug (opt_config options)
    then observe (OConsoleWarn "[Junction] Event validation failed:"
                    (flatten (errors result)))
    else ret tt
  else
    emit EvEvent (PEvent ev) >>
    emit EvValid (PEvent ev) >>
    modify (set_buf (fun b => b ++ [v_event result])) >>
    let* b := gets buf in
    if Z.of_nat (length b) >=? maxSize (bufferConfig options)
    then flushBuffer options
    else scheduleFlush options.

Definition identify (options : CreateCollectorOptions)
    (uid : string) (new_traits : option Props) : M unit :=
  modify (set_user (fun u =>
    {| anonymousId := anonymousId u; userId := Some uid;
       traits := Some (default ∅ new_traits ∪ default ∅ (traits u)) |})) >>
  track options "user" "identified"
    (Some (default ∅ new_traits ∪ {[ "userId" := JStr uid ]})).

Definition consent (options : CreateCollectorOptions) (state : ConsentState) : M unit :=
  setState [onConsentChange options] state.

Definition getConsent : M ConsentState := getState.

Definition removeDestination (nm : string) : M unit :=
  let* dests := gets destinations in
  match map_get nm dests with
  | Some entry =>
      match teardown (destination entry) with
      | Some result => observe (OTeardown nm) >> call result
      | None => ret tt
      end >>
      modify (set_destinations (map_delete nm))
  | None => ret tt
  end.

(** [createCollector]: the state right after the factory returns, at
    clock reading [t0]. The first identifier of the supply is the
    anonymous id. The asynchronous [initDestinations] only emits
    [destination:init] and [destination:error] and is not followed here;
    [flush()] is [flushBuffer] once that initialisation has settled. *)
Definition createCollector (options : CreateCollectorOptions)
    (nav : option Navigator) (t0 : Z) : CollectorState :=
  let cfg := opt_config options in
  {| now := t0;
     idSupply := 1;
     cur_user := {| anonymousId := 0; userId := None; traits := None |};
     destinations :=
       foldl (fun m entry =>
                if bool_decide (enabled entry = Some false) then m
                else map_set (name (destination entry)) entry m)
             [] (cfg_destinations cfg);
     c_state := initialConsentState (cfg_consent cfg) nav;
     queue := [];
     cleanupTimer := initialCleanupTimer (cfg_consent cfg) t0;
     registry :=
       foldl (fun reg c => <[ key (c_entity c) (c_action c) := c ]> reg)
             ∅ (default [] (contracts cfg));
     buf := [];
     flushTimer := None;
     microtasks := [];
     trace := [] |}.

(** ** The event loop: time and timers

    Time only moves forward. A timer callback may run once its deadline
    has been reached, never earlier. *)

Definition elapse (dt : Z) : M unit := modify (set_now (fun t => t + Z.max 0 dt)).

Definition flushTimerDue (s : CollectorState) : bool :=
  match flushTimer s with
  | Some deadline => deadline <=? now s
  | None => false
  end.

(** The [setTimeout] callback of [scheduleFlush] runs. *)
Definition fireFlushTimer (options : CreateCollectorOptions)
    (s : CollectorState) : option (Outcome unit * CollectorState) :=
  if flushTimerDue s then Some (flushBuffer options s) else None.

(** The [setInterval] callback of the consent manager runs and the
    interval is re-armed. *)
Definition fireCleanupTimer (options : CreateCollectorOptions)
    (s : CollectorState) : option (Outcome unit * CollectorState) :=
  match cleanupTimer s with
  | Some iv =>
      if due iv <=? now s
      then Some ((sweep (cfg_consent (opt_config options)) >>
                  modify (set_cleanupTimer (fun _ =>
                    Some {| period := period iv; due := due iv + period iv |}))) s)
      else None
  | None => None
  end.

(** ** What one dispatch pass adds to the state

    The three lists below are what the loop body for one destination
    appends to the trace, to the pending promise callbacks and to the
    consent queue; they are used to state what the code does, and are
    proved equal to the effect of the code. *)

Definition delivery_obs (ev : JctEvent) (ts : Z) (ne : string * DestinationEntry)
    : list Obs :=
  OTransform ne.1 ev ::
  match transform (destination ne.2) ev with
  | Throws e => [OEmit EvDestinationError (PDestination ne.1 (Some e) (Some ev)) ts]
  | Returns None => []
  | Returns (Some p) =>
      OSend ne.1 p (config ne.2) ::
      match send (destination ne.2) p (config ne.2) with
      | SendThrows e =>
          [OEmit EvDestinationError (PDestination ne.1 (Some e) (Some ev)) ts]
      | SendPromise _ =>
          [OEmit EvDestinationSend (PDestination ne.1 None (Some ev)) ts]
      end
  end.

Definition delivery_tasks (ev : JctEvent) (ne : string * DestinationEntry)
    : list Task :=
  match transform (destination ne.2) ev with
  | Returns (Some p) =>
      match send (destination ne.2) p (config ne.2) with
      | SendPromise (Some e) => [TSendRejected ne.1 e ev]
      | _ => []
      end
  | _ => []
  end.

Definition allowed_now (st : ConsentState) (ne : string * DestinationEntry) : bool :=
  isAllowed st (requiredConsent ne.2).

(** The destination is blocked and at least one of its categories is
    still undecided: the branch that calls [enqueue]. *)
Definition blocked_pending (st : ConsentState) (ne : string * DestinationEntry) : bool :=
  negb (isAllowed st (requiredConsent ne.2)) && isPending st (requiredConsent ne.2).

Definition pass_obs (st : ConsentState) (ev : JctEvent) (ts : Z)
    (dests : list (string * DestinationEntry)) : list Obs :=
  flat_map (fun ne => if allowed_now st ne then delivery_obs ev ts ne else []) dests.

Definition pass_tasks (st : ConsentState) (ev : JctEvent)
    (dests : list (string * DestinationEntry)) : list Task :=
  flat_map (fun ne => if allowed_now st ne then delivery_tasks ev ne else []) dests.

Definition pass_queue (config : ConsentConfig) (st : ConsentState) (ev : JctEvent)
    (ts : Z) (dests : list (string * DestinationEntry)) : list QueuedEvent :=
  flat_map (fun ne =>
    if blocked_pending st ne && negb (queueTimeout config =? 0)
    then [{| event := ev; queuedAt := ts |}] else []) dests.

(** Observations that are calls into the destination named [nm]. *)
Definition is_transform_of (nm : string) (o : Obs) : bool :=
  match o with
  | OTransform d _ => bool_decide (d = nm)
  | _ => false
  end.

Definition is_send_of (nm : string) (o : Obs) : bool :=
  match o with
  | OSend d _ _ => bool_decide (d = nm)
  | _ => false
  end.

Definition is_delivery (o : Obs) : bool :=
  match o with
  | OTransform _ _ | OSend _ _ _ => true
  | _ => false
  end.

(** Appending to the trace, to the pending callbacks and to the queue. *)
Definition add_effects (o : list Obs) (t : list Task) (q : list QueuedEvent)
    (s : CollectorState) : CollectorState :=
  set_queue (fun x => x ++ q) (set_microtasks (fun x => x ++ t)
    (set_trace (fun x => x ++ o) s)).


(** What running one pending promise callback adds to the trace. *)
Definition task_obs (options : CreateCollectorOptions) (ts : Z) (t : Task) : list Obs :=
  match t with
  | TSendRejected nm e ev =>
      OEmit EvDestinationError (PDestination nm (Some e) (Some ev)) ts
      :: if debug (opt_config options)
         then [OConsoleError ("[Junction] Send failed for " ++ nm ++ ":") e]
         else []
  end.

(** What dispatching a batch of events adds, event by event. *)
Definition batch_obs (st : ConsentState) (ts : Z)
    (dests : list (string * DestinationEntry)) (events : list JctEvent) : list Obs :=
  flat_map (fun ev => pass_obs st ev ts dests) events.

Definition batch_tasks (st : ConsentState)
    (dests : list (string * DestinationEntry)) (events : list JctEvent) : list Task :=
  flat_map (fun ev => pass_tasks st ev dests) events.

Definition batch_queue (config : ConsentConfig) (st : ConsentState) (ts : Z)
    (dests : list (string * DestinationEntry)) (events : list JctEvent)
    : list QueuedEvent :=
  flat_map (fun ev => pass_queue config st ev ts dests) events.

(** The context [buildContext] computes at clock reading [t]. *)
Definition context_at (options : CreateCollectorOptions) (t : Z) : Outcome Props :=
  match resolveContext options with
  | Some resolve =>
      match resolve t with
      | Returns resolved =>
          Returns (resolved ∪ default ∅ (globals (opt_config options)))
      | Throws e => Throws e
      end
  | None => Returns (∅ ∪ default ∅ (globals (opt_config options)))
  end.

(** The event [buildEvent] builds in state [s] once the context is known. *)
Definition built_event (options : CreateCollectorOptions) (s : CollectorState)
    (ent act : string) (props : option Props) (ctx : Props) : JctEvent :=
  {| entity := ent; action := act; properties := default ∅ props;
     context := ctx; user := cur_user s; timestamp := now s; id := idSupply s;
     version := "1.0.0"; source := opt_source options |}.

(** ** Fixtures

    The destinations and options the test suite builds with
    [mockDestination] and [makeOptions]. *)
Module Fixtures.

Definition testSource : EventSource :=
  {| src_type := SrcClient; src_name := "test"; src_version := "0.0.0" |}.

(** [mockDestination({ name, consent })] *)
Definition mockDestination (nm : string) (cats : list ConsentCategory) : Destination :=
  {| name := nm;
     d_version := "0.1.0";
     d_consent := cats;
     transform := fun ev => Returns (Some (JObj [("transformed", JBool true)]));
     send := fun _ _ => SendPromise None;
     onConsent := Some (fun _ => Returns tt);
     teardown := Some (Returns tt) |}.

(** A destination whose [transform] throws. *)
Definition failTransform (nm : string) (cats : list ConsentCategory) : Destination :=
  {| name := nm;
     d_version := "0.1.0";
     d_consent := cats;
     transform := fun ev => Throws (JStr "Transform failed");
     send := fun _ _ => SendPromise None;
     onConsent := Some (fun _ => Returns tt);
     teardown := Some (Returns tt) |}.

(** A destination whose [send] promise rejects. *)
Definition failSend (nm : string) (cats : list ConsentCategory) : Destination :=
  {| name := nm;
     d_version := "0.1.0";
     d_consent := cats;
     transform := fun ev => Returns (Some (JObj [("transformed", JBool true)]));
     send := fun _ _ => SendPromise (Some (JStr "Network error"));
     onConsent := Some (fun _ => Returns tt);
     teardown := Some (Returns tt) |}.

(** A destination whose [onConsent] throws. *)
Definition failOnConsent (nm : string) (cats : list ConsentCategory) : Destination :=
  {| name := nm;
     d_version := "0.1.0";
     d_consent := cats;
     transform := fun ev => Returns (Some (JObj [("transformed", JBool true)]));
     send := fun _ _ => SendPromise None;
     onConsent := Some (fun _ => Throws (JStr "onConsent failed"));
     teardown := Some (Returns tt) |}.

Definition entryOf (d : Destination) : DestinationEntry :=
  {| destination := d; config := JObj []; e_consent := None; enabled := None |}.

(** [makeOptions()] with the given default consent state, queue timeout,
    buffer size and destinations. *)
Definition makeOptions (dflt : ConsentState) (timeout : Z) (size : Z)
    (dests : list DestinationEntry) (cs : list EventContract)
    : CreateCollectorOptions :=
  {| opt_config :=
       {| globals := None;
          cfg_consent :=
            {| defaultState := dflt; queueTimeout := timeout;
               respectDNT := false; respectGPC := false |};
          cfg_destinations := dests;
          contracts := Some cs;
          debug := false;
          buffer := Some {| maxSize := size; maxWait := 2000 |} |};
     opt_source := testSource;
     resolveContext := None |}.

Definition pageViewed : JctEvent :=
  {| entity := "page"; action := "viewed"; properties := ∅; context := ∅;
     user := {| anonymousId := 0; userId := None; traits := None |};
     timestamp := 0; id := 1; version := "1.0.0"; source := testSource |}.

(** Two destinations, the first of which throws in [transform]. *)
Definition isolationOptions : CreateCollectorOptions :=
  makeOptions {[ "analytics" := Some true ]} 30000 10
    [entryOf (failTransform "fail-dest" ["analytics"]);
     entryOf (mockDestination "good-dest" ["analytics"])] [].

(** One destination that requires only ["necessary"], nothing granted. *)
Definition necessaryOptions : CreateCollectorOptions :=
  makeOptions ∅ 30000 10 [entryOf (mockDestination "essential" ["necessary"])] [].

(** Queuing disabled, one destination waiting for ["analytics"]. *)
Definition noQueueOptions : CreateCollectorOptions :=
  makeOptions ∅ 0 10 [entryOf (mockDestination "ga" ["analytics"])] [].

(** Queuing enabled, one destination waiting for ["analytics"]. *)
Definition pendingOptions : CreateCollectorOptions :=
  makeOptions ∅ 30000 10 [entryOf (mockDestination "ga" ["analytics"])] [].

(** [z.object({ product_id: z.string().min(1), price: z.number().nonnegative() })] *)
Definition productSchema (p : Props) : SafeParse :=
  match p !! "product_id", p !! "price" with
  | Some (JStr pid), Some (JNum price) =>
      if bool_decide (pid = "") || (price <? 0)
      then ParseFailure (JStr "invalid product")
      else ParseSuccess p false
  | _, _ => ParseFailure (JStr "invalid product")
  end.

Definition productViewed (m : ContractMode) : EventContract :=
  {| c_entity := "product"; c_action := "viewed"; c_version := "1.0.0";
     schema := productSchema; mode := m |}.

Definition strictOptions : CreateCollectorOptions :=
  makeOptions {[ "analytics" := Some true ]} 30000 10
    [entryOf (mockDestination "test-destination" ["analytics"])]
    [productViewed strict].

Definition badProduct : Props :=
  {[ "product_id" := JStr ""; "price" := JNum (-1) ]}.

(** [buffer: { maxSize: 3, ... }] with analytics granted. *)
Definition smallBufferOptions : CreateCollectorOptions :=
  makeOptions {[ "analytics" := Some true ]} 30000 3
    [entryOf (mockDestination "test-destination" ["analytics"])] [].

(** Two destinations waiting for the same undecided category. *)
Definition twoPendingOptions : CreateCollectorOptions :=
  makeOptions ∅ 30000 10
    [entryOf (mockDestination "a" ["analytics"]);
     entryOf (mockDestination "b" ["analytics"])] [].

(** Two destinations, the first of which throws in [onConsent]. *)
Definition onConsentThrowsOptions : CreateCollectorOptions :=
  makeOptions ∅ 30000 10
    [entryOf (failOnConsent "a" ["analytics"]);
     entryOf (mockDestination "b" ["analytics"])] [].

Definition grantAnalytics : ConsentState := {[ "analytics" := Some true ]}.

(** Three destinations: one allowed, one waiting for an undecided
    category, one that requires only ["necessary"]. *)
Definition gateOptions : CreateCollectorOptions :=
  makeOptions {[ "marketing" := Some true ]} 30000 10
    [entryOf (mockDestination "ads" ["marketing"]);
     entryOf (mockDestination "ga" ["analytics"]);
     entryOf (mockDestination "essential" ["necessary"])] [].

(** One destination explicitly denied, one waiting. *)
Definition deniedAndPendingOptions : CreateCollectorOptions :=
  makeOptions {[ "marketing" := Some false ]} 30000 10
    [entryOf (mockDestination "ads" ["marketing"]);
     entryOf (mockDestination "ga" ["analytics"])] [].

(** Queuing disabled, two destinations waiting for ["analytics"]. *)
Definition noQueueTwoOptions : CreateCollectorOptions :=
  makeOptions ∅ 0 10
    [entryOf (mockDestination "a" ["analytics"]);
     entryOf (mockDestination "b" ["analytics"])] [].

(** [buffer: { maxSize: 3, maxWait: 2 ** 31 }] with analytics granted. *)
Definition longWaitOptions : CreateCollectorOptions :=
  {| opt_config :=
       {| globals := None;
          cfg_consent :=
            {| defaultState := {[ "analytics" := Some true ]};
               queueTimeout := 30000;
               respectDNT := false; respectGPC := false |};
          cfg_destinations :=
            [entryOf (mockDestination "test-destination" ["analytics"])];
          contracts := Some [];
          debug := false;
          buffer := Some {| maxSize := 3; maxWait := 2147483648 |} |};
     opt_source := testSource;
     resolveContext := None |}.

(** [buffer: { maxSize: 3, ... }] with the strict product contract. *)
Definition strictSmallBufferOptions : CreateCollectorOptions :=
  makeOptions {[ "analytics" := Some true ]} 30000 3
    [entryOf (mockDestination "test-destination" ["analytics"])]
    [productViewed strict].

(** [strictOptions] with [debug: true]. *)
Definition debugStrictOptions : CreateCollectorOptions :=
  {| opt_config :=
       {| globals := None;
          cfg_consent :=
            {| defaultState := {[ "analytics" := Some true ]};
               queueTimeout := 30000;
               respectDNT := false; respectGPC := false |};
          cfg_destinations :=
            [entryOf (mockDestination "test-destination" ["analytics"])];
          contracts := Some [productViewed strict];
          debug := true;
          buffer := Some {| maxSize := 10; maxWait := 2000 |} |};
     opt_source := testSource;
     resolveContext := None |}.

End Fixtures.

(** What [validate] returns and logs for an event, given the registry. *)
Definition validation (reg : gmap string EventContract) (ev : JctEvent)
    : ValidationResult * list Obs :=
  match findContract reg (entity ev) (action ev) with
  | None => ({| valid := true; v_event := ev; errors := None; coerced := None |}, [])
  | Some contract =>
      match schema contract (properties ev) with
      | ParseSuccess data same =>
          ({| valid := true; v_event := with_properties ev data;
              errors := None; coerced := Some (negb same) |}, [])
      | ParseFailure err =>
          match mode contract with
          | strict =>
              ({| valid := false; v_event := ev; errors := Some err;
                  coerced := None |}, [])
          | lenient =>
              ({| valid := true; v_event := ev; errors := Some err;
                  coerced := None |},
               [OConsoleWarn "[Junction] Event validation warning" err])
          end
      | ParseThrows e =>
          ({| valid := true; v_event := ev; errors := None; coerced := None |},
           [OConsoleError "[Junction] Contract error" e])
      end
  end.

(** The [onConsent] calls the change handler makes over the destinations,
    up to and including the first one that throws, and what it threw. *)
Fixpoint onConsent_calls (state : ConsentState)
    (dests : list (string * DestinationEntry)) : list Obs * option JsVal :=
  match dests with
  | [] => ([], None)
  | ne :: rest =>
      match onConsent (destination ne.2) with
      | None => onConsent_calls state rest
      | Some callback =>
          match callback state with
          | Returns _ =>
              (OOnConsent ne.1 state :: (onConsent_calls state rest).1,
               (onConsent_calls state rest).2)
          | Throws e => ([OOnConsent ne.1 state], Some e)
          end
      end
  end.

(** The events the change handler re-dispatches: the queued ones, each
    with the current user. *)
Definition replayed (u : UserIdentity) (queued : list QueuedEvent) : list JctEvent :=
  map (fun q => with_user (event q) u) queued.

(** The state in which [track] decides between flushing and arming the
    timer: the identifier is consumed, the emissions are made and the
    validated event is at the end of the buffer. *)
Definition buffered (s : CollectorState) (ev : JctEvent)
    (r : ValidationResult) (logs : list Obs) : CollectorState :=
  set_buf (fun b => b ++ [v_event r])
    (set_trace (fun t => t ++ logs ++ [OEmit EvEvent (PEvent ev) (now s);
                                       OEmit EvValid (PEvent ev) (now s)])
       (set_idSupply S s)).


(** What [track] adds to the trace for an event that validation
    rejects: the [event:invalid] emission, and the warning of debug
    mode. *)
Definition rejection_obs (options : CreateCollectorOptions) (ev : JctEvent)
    (r : ValidationResult) (ts : Z) : list Obs :=
  OEmit EvInvalid (PInvalid ev (errors r)) ts
  :: if debug (opt_config options)
     then [OConsoleWarn "[Junction] Event validation failed:" (flatten (errors r))]
     else [].

(** [addDestination]: the entry is put in the map (the asynchronous
    [init] and its [destination:init] emission are not followed here). *)
Definition addDestination (entry : DestinationEntry) : M unit :=
  modify (set_destinations (map_set (name (destination entry)) entry)).

(** ** Runs of a collector

    What can happen to a collector: a call of its public interface, the
    passing of time, or the event loop running a timer or the pending
    promise callbacks. A timer that is not due does not run. *)
Inductive Op : Type :=
  | OpTrack (ent act : string) (props : option Props)
  | OpIdentify (uid : string) (new_traits : option Props)
  | OpConsent (state : ConsentState)
  | OpFlush
  | OpAddDestination (entry : DestinationEntry)
  | OpRemoveDestination (nm : string)
  | OpElapse (dt : Z)
  | OpFlushTimer
  | OpCleanupTimer
  | OpMicrotasks.

Definition step (options : CreateCollectorOptions) (op : Op)
    (s : CollectorState) : CollectorState :=
  match op with
  | OpTrack ent act props => exec (track options ent act props) s
  | OpIdentify uid new_traits => exec (identify options uid new_traits) s
  | OpConsent state => exec (consent options state) s
  | OpFlush => exec (flushBuffer options) s
  | OpAddDestination entry => exec (addDestination entry) s
  | OpRemoveDestination nm => exec (removeDestination nm) s
  | OpElapse dt => exec (elapse dt) s
  | OpFlushTimer =>
      match fireFlushTimer options s with Some r => r.2 | None => s end
  | OpCleanupTimer =>
      match fireCleanupTimer options s with Some r => r.2 | None => s end
  | OpMicrotasks => exec (runMicrotasks options) s
  end.

Definition run (options : CreateCollectorOptions) (ops : list Op)
    (s : CollectorState) : CollectorState :=
  foldl (fun acc op => step options op acc) s ops.

(** Steps of a burst: [track] calls, time passing, and event-loop work
    other than the flush timer (no manual flush, no consent change). *)
Definition burst_op (op : Op) : bool :=
  match op with
  | OpTrack _ _ _ | OpElapse _ | OpCleanupTimer | OpMicrotasks => true
  | _ => false
  end.

(** The step is a [track] call whose event gets into the buffer from
    state [s]: the context resolves and validation does not reject. *)
Definition buffers (options : CreateCollectorOptions) (op : Op)
    (s : CollectorState) : bool :=
  match op with
  | OpTrack ent act props =>
      match context_at options (now s) with
      | Returns ctx =>
          valid (validation (registry s) (built_event options s ent act props ctx)).1
      | Throws _ => false
      end
  | _ => false
  end.

(** How many steps of a run that starts in [s] are such calls. *)
Fixpoint count_buffered (options : CreateCollectorOptions) (ops : list Op)
    (s : CollectorState) : nat :=
  match ops with
  | [] => 0
  | op :: rest =>
      (if buffers options op s then 1 else 0)
      + count_buffered options rest (step options op s)
  end.

(** The [transform] calls, and the [send] calls, a trace holds for one
    destination. *)
Definition transforms_of (nm : string) (t : list Obs) : list Obs :=
  filter (fun o => is_transform_of nm o) t.

Definition sends_of (nm : string) (t : list Obs) : list Obs :=
  filter (fun o => is_send_of nm o) t.

(** The events a trace shows being handed to [transform] of [nm]. *)
Definition transformed_by (nm : string) (t : list Obs) : list JctEvent :=
  flat_map (fun o =>
    match o with
    | OTransform d e => if bool_decide (d = nm) then [e] else []
    | _ => []
    end) t.

(** Observations made by the dispatch loop. *)
Definition is_dispatch_obs (o : Obs) : bool :=
  match o with
  | OTransform _ _ | OSend _ _ _ => true
  | OEmit EvDestinationSend _ _ | OEmit EvDestinationError _ _ => true
  | _ => false
  end.

(** No event held by the collector (in the buffer or in the consent
    queue) has identifier [n], and [n] has already been drawn from the
    supply, so no later event gets it. *)
Definition avoids (n : nat) (s : CollectorState) : Prop :=
  (forall e, e ∈ buf s -> id e <> n)
  /\ (forall q, q ∈ queue s -> id (event q) <> n)
  /\ (n < idSupply s)%nat.

(** From [s] to [s'] no destination was handed an event with
    identifier [n], and [s'] still holds none. *)
Definition unobserved (n : nat) (s s' : CollectorState) : Prop :=
  avoids n s'
  /\ forall nm e, OTransform nm e ∈ trace s' -> OTransform nm e ∈ trace s \/ id e <> n.

(** Calls into the destination named [nm]: [transform], [send],
    [onConsent] and [teardown]. *)
Definition is_call_to (nm : string) (o : Obs) : bool :=
  match o with
  | OTransform d _ | OSend d _ _ | OOnConsent d _ | OTeardown d => bool_decide (d = nm)
  | _ => false
  end.

(** The step registers a destination under the name [nm]. *)
Definition adds_destination (nm : string) (op : Op) : bool :=
  match op with
  | OpAddDestination entry => bool_decide (name (destination entry) = nm)
  | _ => false
  end.

(** ** cmp-onetrust: the OneTrust adapter *)
Module OneTrust.

(** Junction category to OneTrust group id. A key of the caller's map may
    be present with the value [undefined]. *)
Abbreviation OneTrustCategoryMap := (gmap string (option string)).

Definition DEFAULT_CATEGORY_MAP : gmap string string :=
  {[ "analytics" := "C0002"; "personalization" := "C0003";
     "marketing" := "C0004"; "social" := "C0005" ]}.

(** [String.prototype.includes]: [needle] occurs somewhere in [s]. *)
Fixpoint includes (s needle : string) : bool :=
  String.prefix needle s
  || match s with
     | EmptyString => false
     | String _ rest => includes rest needle
     end.

(** [{ ...DEFAULT_CATEGORY_MAP, ...categoryMap }] *)
Definition resolvedMap (categoryMap : OneTrustCategoryMap) : gmap string (option string) :=
  categoryMap ∪ (Some <$> DEFAULT_CATEGORY_MAP).

(** [mapOneTrustGroups]: starting from [{ necessary: true }], every entry
    of the resolved map whose group is a non-empty string assigns
    [state[category] = activeGroups.includes(group)]. The assignment to
    the key ["__proto__"] goes to the inherited setter, which ignores a
    boolean, so that key is never set. *)
Definition mapOneTrustGroups (activeGroups : string) (categoryMap : OneTrustCategoryMap)
    : ConsentState :=
  omap (fun oneTrustGroup =>
          match oneTrustGroup with
          | Some group =>
              if bool_decide (group = "") then None
              else Some (Some (includes activeGroups group))
          | None => None
          end) (delete "__proto__" (resolvedMap categoryMap))
  ∪ {[ "necessary" := Some true ]}.

(** [readAndSync] of the adapter, for a collector built with [options];
    [activeGroups] is what [window.OnetrustActiveGroups] holds. *)
Definition readAndSync (options : CreateCollectorOptions)
    (categoryMap : OneTrustCategoryMap) (activeGroups : option string) : M unit :=
  match activeGroups with
  | None => ret tt
  | Some groups =>
      if bool_decide (groups = "") then ret tt
      else consent options (mapOneTrustGroups groups categoryMap)
  end.

End OneTrust.

(** ** destination-ga4: Google consent mode *)
Module GA4.

Inductive GoogleConsent : Type := granted | denied.

(** JavaScript truthiness of [state.category]. *)
Definition truthy (v : option (option bool)) : bool :=
  match v with
  | Some (Some true) => true
  | _ => false
  end.

Definition signal (b : bool) : GoogleConsent := if b then granted else denied.

Definition mapConsentToGoogle (state : ConsentState) : gmap string GoogleConsent :=
  {[ "ad_storage" := signal (truthy (state !! "marketing"));
     "analytics_storage" := signal (truthy (state !! "analytics"));
     "ad_user_data" := signal (truthy (state !! "marketing"));
     "ad_personalization" := signal (truthy (state !! "personalization"));
     "personalization_storage" := signal (truthy (state !! "personalization"));
     "functionality_storage" :=
       signal (negb (bool_decide (state !! "necessary" = Some (Some false))));
     "security_storage" := granted ]}.

End GA4.

(** * Properties *)

Local Open Scope js_scope.

(** ** The monad *)

Lemma for_of_app {A} (xs ys : list A) (body : A -> M unit) (s : CollectorState) :
  for_of (xs ++ ys) body s = (for_of xs body >> for_of ys body) s.
Proof.
  revert s. induction xs as [|x xs IH]; intros s; simpl.
  - reflexivity.
  - unfold bind in *. destruct (body x s) as [[[]|e] s1]; simpl; [|reflexivity].
    apply IH.
Qed.

Ltac red_state :=
  cbn [add_effects set_queue set_microtasks set_trace set_buf set_flushTimer
       set_now set_idSupply set_user set_destinations set_c_state
       set_cleanupTimer set_registry now idSupply cur_user destinations c_state
       queue cleanupTimer registry buf flushTimer microtasks trace].

Ltac unfold_state :=
  cbn [add_effects set_queue set_microtasks set_trace set_buf set_flushTimer
       set_now set_idSupply set_user set_destinations set_c_state
       set_cleanupTimer set_registry now idSupply cur_user destinations c_state
       queue cleanupTimer registry buf flushTimer microtasks trace] in *.

Lemma state_ext (s1 s2 : CollectorState) :
  now s1 = now s2 -> idSupply s1 = idSupply s2 -> cur_user s1 = cur_user s2 ->
  destinations s1 = destinations s2 -> c_state s1 = c_state s2 ->
  queue s1 = queue s2 -> cleanupTimer s1 = cleanupTimer s2 ->
  registry s1 = registry s2 -> buf s1 = buf s2 ->
  flushTimer s1 = flushTimer s2 -> microtasks s1 = microtasks s2 ->
  trace s1 = trace s2 -> s1 = s2.
Proof. destruct s1, s2; cbn. by intros -> -> -> -> -> -> -> -> -> -> -> ->. Qed.

Ltac run_m :=
  repeat (unfold try_catch, bind, observe, modify, call, emit, timestamp_now,
            uuid, gets, ret, throw in *; simpl in *).

Ltac state_eq :=
  apply state_ext; red_state; rewrite ?app_nil_r, <- ?app_assoc; try done.

Ltac same_state :=
  run_m; first [reflexivity | apply f_equal; state_eq | state_eq].

Lemma add_effects_nil s : add_effects [] [] [] s = s.
Proof. state_eq. Qed.

Lemma add_effects_add o1 t1 q1 o2 t2 q2 s :
  add_effects o2 t2 q2 (add_effects o1 t1 q1 s)
  = add_effects (o1 ++ o2) (t1 ++ t2) (q1 ++ q2) s.
Proof. state_eq. Qed.

Lemma dispatchToDestination_run options ev ne s :
  dispatchToDestination options ev ne s =
  (Returns tt,
   add_effects
     (if allowed_now (c_state s) ne then delivery_obs ev (now s) ne else [])
     (if allowed_now (c_state s) ne then delivery_tasks ev ne else [])
     (if blocked_pending (c_state s) ne
         && negb (queueTimeout (cfg_consent (opt_config options)) =? 0)
      then [{| event := ev; queuedAt := now s |}] else [])
     s).
Proof.
  destruct ne as [nm entry].
  unfold dispatchToDestination, allowed_now, blocked_pending, delivery_obs,
    delivery_tasks, enqueue; simpl.
  run_m.
  destruct (isAllowed (c_state s) (requiredConsent entry)) eqn:Hal; simpl.
  - destruct (transform (destination entry) ev) as [[p|]|e] eqn:Htr; simpl.
    + destruct (send (destination entry) p (config entry)) as [e|[e|]] eqn:Hsend;
        simpl; destruct s; same_state.
    + destruct s; same_state.
    + destruct s; same_state.
  - destruct (isPending (c_state s) (requiredConsent entry)); simpl.
    + destruct (queueTimeout (cfg_consent (opt_config options)) =? 0); simpl.
      * rewrite add_effects_nil. reflexivity.
      * destruct s; same_state.
    + rewrite add_effects_nil. reflexivity.
Qed.

(** Appending never touches the fields the dispatch loop reads. *)
Lemma add_effects_fields o t q s :
  now (add_effects o t q s) = now s
  /\ c_state (add_effects o t q s) = c_state s
  /\ destinations (add_effects o t q s) = destinations s
  /\ cur_user (add_effects o t q s) = cur_user s
  /\ buf (add_effects o t q s) = buf s
  /\ flushTimer (add_effects o t q s) = flushTimer s
  /\ idSupply (add_effects o t q s) = idSupply s
  /\ registry (add_effects o t q s) = registry s
  /\ cleanupTimer (add_effects o t q s) = cleanupTimer s
  /\ trace (add_effects o t q s) = trace s ++ o
  /\ microtasks (add_effects o t q s) = microtasks s ++ t
  /\ queue (add_effects o t q s) = queue s ++ q.
Proof. destruct s; unfold_state. repeat split. Qed.

Lemma dispatch_loop_run options ev dests s :
  for_of dests (dispatchToDestination options ev) s =
  (Returns tt,
   add_effects
     (pass_obs (c_state s) ev (now s) dests)
     (pass_tasks (c_state s) ev dests)
     (pass_queue (cfg_consent (opt_config options)) (c_state s) ev (now s) dests)
     s).
Proof.
  revert s. induction dests as [|ne dests IH]; intros s.
  - simpl. by rewrite add_effects_nil.
  - simpl. unfold bind. rewrite dispatchToDestination_run.
    rewrite IH.
    destruct (add_effects_fields
      (if allowed_now (c_state s) ne then delivery_obs ev (now s) ne else [])
      (if allowed_now (c_state s) ne then delivery_tasks ev ne else [])
      (if blocked_pending (c_state s) ne
          && negb (queueTimeout (cfg_consent (opt_config options)) =? 0)
       then [{| event := ev; queuedAt := now s |}] else []) s)
      as (-> & -> & _).
    by rewrite add_effects_add.
Qed.

(** One pass of [dispatchToDestinations]: it always returns, and its whole
    effect is what the destinations add, in registration order. *)
Lemma dispatchToDestinations_run options ev s :
  dispatchToDestinations options ev s =
  (Returns tt,
   add_effects
     (pass_obs (c_state s) ev (now s) (destinations s))
     (pass_tasks (c_state s) ev (destinations s))
     (pass_queue (cfg_consent (opt_config options)) (c_state s) ev (now s)
        (destinations s))
     s).
Proof.
  unfold dispatchToDestinations, bind, gets. apply dispatch_loop_run.
Qed.

Lemma for_of_returns {A} (xs : list A) (body : A -> M unit)
    (step : A -> CollectorState -> CollectorState) (s : CollectorState) :
  (forall x s0, body x s0 = (Returns tt, step x s0)) ->
  for_of xs body s = (Returns tt, foldl (fun acc x => step x acc) s xs).
Proof.
  intros Hbody. revert s. induction xs as [|x xs IH]; intros s; simpl.
  - reflexivity.
  - unfold bind. rewrite Hbody. apply IH.
Qed.

Lemma runTask_run options t s :
  runTask options t s
  = (Returns tt, set_trace (fun tr => tr ++ task_obs options (now s) t) s).
Proof.
  destruct t as [nm e ev]. unfold runTask, task_obs.
  destruct (debug (opt_config options)); run_m; f_equal; state_eq.
Qed.

Lemma runMicrotasks_run options s :
  runMicrotasks options s =
  (Returns tt,
   set_trace (fun t => t ++ flat_map (task_obs options (now s)) (microtasks s))
     (set_microtasks (fun _ => []) s)).
Proof.
  unfold runMicrotasks. run_m.
  assert (Hloop : forall ts s0,
    for_of ts (runTask options) s0
    = (Returns tt,
       set_trace (fun t => t ++ flat_map (task_obs options (now s0)) ts) s0)).
  { induction ts as [|t ts IH]; intros s0; cbn [for_of flat_map].
    - unfold ret. f_equal. state_eq.
    - unfold bind at 1. rewrite runTask_run, IH. f_equal. state_eq. }
  rewrite Hloop. reflexivity.
Qed.

Lemma task_obs_quiet options ts tasks :
  Forall (fun o => is_delivery o = false) (flat_map (task_obs options ts) tasks).
Proof.
  apply Forall_forall. intros o Ho.
  apply list_elem_of_In, in_flat_map in Ho as ([nm e ev] & _ & Ho).
  unfold task_obs in Ho. destruct (debug (opt_config options)); cbn in Ho;
    intuition (subst; reflexivity).
Qed.

Lemma pass_obs_app st ev ts l1 l2 :
  pass_obs st ev ts (l1 ++ l2) = pass_obs st ev ts l1 ++ pass_obs st ev ts l2.
Proof. unfold pass_obs. apply flat_map_app. Qed.

Lemma pass_tasks_app st ev l1 l2 :
  pass_tasks st ev (l1 ++ l2) = pass_tasks st ev l1 ++ pass_tasks st ev l2.
Proof. unfold pass_tasks. apply flat_map_app. Qed.

Lemma pass_queue_app c st ev ts l1 l2 :
  pass_queue c st ev ts (l1 ++ l2)
  = pass_queue c st ev ts l1 ++ pass_queue c st ev ts l2.
Proof. unfold pass_queue. apply flat_map_app. Qed.

(** An allowed destination of the pass is called: its [transform] with the
    event, and its [send] with the payload when there is one. *)
Lemma pass_obs_allowed st ev ts dests ne :
  ne ∈ dests -> allowed_now st ne = true ->
  OTransform ne.1 ev ∈ pass_obs st ev ts dests
  /\ forall p, transform (destination ne.2) ev = Returns (Some p) ->
       OSend ne.1 p (config ne.2) ∈ pass_obs st ev ts dests.
Proof.
  intros Hin Hal.
  assert (Hsub : forall o, o ∈ delivery_obs ev ts ne -> o ∈ pass_obs st ev ts dests).
  { intros o Ho. unfold pass_obs. apply list_elem_of_In, in_flat_map.
    exists ne. split; [by apply list_elem_of_In|].
    rewrite Hal. by apply list_elem_of_In. }
  split.
  - apply Hsub. unfold delivery_obs. apply list_elem_of_here.
  - intros p Hp. apply Hsub. unfold delivery_obs. rewrite Hp.
    apply list_elem_of_further, list_elem_of_here.
Qed.

Lemma pass_tasks_rejected st ev dests ne p e :
  ne ∈ dests -> allowed_now st ne = true ->
  transform (destination ne.2) ev = Returns (Some p) ->
  send (destination ne.2) p (config ne.2) = SendPromise (Some e) ->
  TSendRejected ne.1 e ev ∈ pass_tasks st ev dests.
Proof.
  intros Hin Hal Hp Hs. unfold pass_tasks.
  apply list_elem_of_In, in_flat_map. exists ne.
  split; [by apply list_elem_of_In|].
  rewrite Hal. unfold delivery_tasks. rewrite Hp, Hs. by left.
Qed.

Lemma dispatch_batch_run options events s :
  for_of events (dispatchToDestinations options) s =
  (Returns tt,
   add_effects
     (batch_obs (c_state s) (now s) (destinations s) events)
     (batch_tasks (c_state s) (destinations s) events)
     (batch_queue (cfg_consent (opt_config options)) (c_state s) (now s)
        (destinations s) events)
     s).
Proof.
  revert s. induction events as [|ev events IH]; intros s; simpl.
  - by rewrite add_effects_nil.
  - unfold bind. rewrite dispatchToDestinations_run, IH.
    destruct (add_effects_fields
      (pass_obs (c_state s) ev (now s) (destinations s))
      (pass_tasks (c_state s) ev (destinations s))
      (pass_queue (cfg_consent (opt_config options)) (c_state s) ev (now s)
         (destinations s)) s) as (-> & -> & -> & _).
    by rewrite add_effects_add.
Qed.

(** [flushBuffer]: the timer is disarmed, the buffer is swapped out and
    every event that was in it is dispatched, in order. *)
Lemma flushBuffer_run options s :
  flushBuffer options s =
  (Returns tt,
   add_effects
     (batch_obs (c_state s) (now s) (destinations s) (buf s))
     (batch_tasks (c_state s) (destinations s) (buf s))
     (batch_queue (cfg_consent (opt_config options)) (c_state s) (now s)
        (destinations s) (buf s))
     (set_buf (fun _ => []) (set_flushTimer (fun _ => None) s))).
Proof.
  unfold flushBuffer. run_m.
  destruct (buf s) as [|ev events] eqn:Hbuf.
  - simpl. rewrite add_effects_nil. destruct s; simpl in *; subst. reflexivity.
  - change (for_of (ev :: events) (dispatchToDestinations options)
              (set_buf (λ _, []) (set_flushTimer (λ _, None) s)) = 
            (Returns (),
              add_effects (batch_obs (c_state s) (now s) (destinations s) (ev :: events))
                (batch_tasks (c_state s) (destinations s) (ev :: events))
                (batch_queue (cfg_consent (opt_config options)) 
                   (c_state s) (now s) (destinations s) (ev :: events))
                (set_buf (λ _, []) (set_flushTimer (λ _, None) s)))).
    rewrite dispatch_batch_run. destruct s; reflexivity.
Qed.

Lemma buildEvent_run options ent act props s :
  buildEvent options ent act props s =
  match context_at options (now s) with
  | Returns ctx =>
      (Returns (built_event options s ent act props ctx), set_idSupply S s)
  | Throws e => (Throws e, s)
  end.
Proof.
  unfold buildEvent, buildContext, context_at, built_event. run_m.
  destruct (resolveContext options) as [resolve|]; simpl.
  - destruct (resolve (now s)) as [resolved|e]; simpl; [|reflexivity].
    destruct s; reflexivity.
  - destruct s; reflexivity.
Qed.

Lemma validate_returns ev s :
  exists r logs,
    validate ev s = (Returns r, set_trace (fun t => t ++ logs) s)
    /\ Forall (fun o => is_delivery o = false) logs.
Proof.
  unfold validate. run_m.
  destruct (findContract (registry s) (entity ev) (action ev)) as [c|].
  - destruct (schema c (properties ev)) as [data same|err|e].
    + eexists _, []. split; [|constructor]. destruct s; same_state.
    + destruct (mode c).
      * eexists _, []. split; [|constructor]. destruct s; same_state.
      * eexists _, [_]. split; [reflexivity|]. by repeat constructor.
    + eexists _, [_]. split; [reflexivity|]. by repeat constructor.
  - eexists _, []. split; [|constructor]. destruct s; same_state.
Qed.

Lemma scheduleFlush_run options s :
  scheduleFlush options s =
  (Returns tt,
   match flushTimer s with
   | Some _ => s
   | None =>
       set_flushTimer
         (fun _ => Some (now s + timerDelay (maxWait (bufferConfig options)))) s
   end).
Proof.
  unfold scheduleFlush. run_m. destruct (flushTimer s); reflexivity.
Qed.

(** [track] throws only when the context resolver does. *)
Lemma track_returns options ent act props s :
  (forall e, context_at options (now s) <> Throws e) ->
  fst (track options ent act props s) = Returns tt.
Proof.
  intros Hctx. unfold track. unfold bind at 1. rewrite buildEvent_run.
  destruct (context_at options (now s)) as [ctx|e]; [|by destruct (Hctx e)].
  unfold bind at 1.
  destruct (validate_returns (built_event options s ent act props ctx)
              (set_idSupply S s)) as (r & logs & -> & _).
  destruct (valid r); simpl.
  - run_m.
    match goal with |- context [if ?c then _ else _] => destruct c end.
    + rewrite flushBuffer_run. reflexivity.
    + rewrite scheduleFlush_run. reflexivity.
  - by destruct (debug (opt_config options)).
Qed.

Lemma context_at_returns options t :
  (forall resolve t' e, resolveContext options = Some resolve ->
     resolve t' <> Throws e) ->
  forall e, context_at options t <> Throws e.
Proof.
  intros Hres e. unfold context_at.
  destruct (resolveContext options) as [resolve|] eqn:Hr; [|done].
  specialize (Hres resolve t).
  destruct (resolve t) as [ctx|e']; [done|].
  by destruct (Hres e').
Qed.

(** ** C1: independent failure isolation in the dispatch loop *)

(** C1. When the destination [nm] is allowed and its [transform] (or its
    [send]) throws [e] during the dispatch of [ev], the loop returns
    normally, [destination:error] is emitted with [e] and the event, and
    every allowed destination registered after [nm] has its [transform]
    called with the same event, and its [send] called with the payload when
    [transform] gives one. A [send] promise that rejects leaves a pending
    callback which, when the event loop runs it, emits [destination:error]
    with the event; the dispatch loop and [flushBuffer] never throw, and
    [track] throws only if the context resolver does. *)
Theorem C1_destination_failure_isolation
    (options : CreateCollectorOptions) (ev : JctEvent) (s : CollectorState)
    (pre post : list (string * DestinationEntry))
    (nm : string) (entry : DestinationEntry) (e : JsVal) :
  destinations s = pre ++ (nm, entry) :: post ->
  isAllowed (c_state s) (requiredConsent entry) = true ->
  (transform (destination entry) ev = Throws e
   \/ exists p, transform (destination entry) ev = Returns (Some p)
        /\ send (destination entry) p (config entry) = SendThrows e) ->
  let s' := exec (dispatchToDestinations options ev) s in
  outcome (dispatchToDestinations options ev) s = Returns tt
  /\ (exists before after,
        trace s' = trace s ++ before
          ++ OEmit EvDestinationError (PDestination nm (Some e) (Some ev)) (now s)
          :: after
        /\ forall nm' entry',
             (nm', entry') ∈ post ->
             isAllowed (c_state s) (requiredConsent entry') = true ->
             OTransform nm' ev ∈ after
             /\ forall p, transform (destination entry') ev = Returns (Some p) ->
                  OSend nm' p (config entry') ∈ after)
  /\ (forall nm' entry' p e',
        (nm', entry') ∈ destinations s ->
        isAllowed (c_state s) (requiredConsent entry') = true ->
        transform (destination entry') ev = Returns (Some p) ->
        send (destination entry') p (config entry') = SendPromise (Some e') ->
        TSendRejected nm' e' ev ∈ microtasks s'
        /\ forall s2, TSendRejected nm' e' ev ∈ microtasks s2 ->
             outcome (runMicrotasks options) s2 = Returns tt
             /\ OEmit EvDestinationError (PDestination nm' (Some e') (Some ev)) (now s2)
                  ∈ trace (exec (runMicrotasks options) s2))
  /\ (forall s0 ev0, outcome (dispatchToDestinations options ev0) s0 = Returns tt)
  /\ (forall s0, outcome (flushBuffer options) s0 = Returns tt)
  /\ (forall s0 ent act props,
        (forall resolve t err, resolveContext options = Some resolve ->
           resolve t <> Throws err) ->
        outcome (track options ent act props) s0 = Returns tt).
Proof.
  intros Hdests Hal Hthrow s'. subst s'. unfold exec, outcome.
  rewrite dispatchToDestinations_run. cbn [fst snd].
  destruct (add_effects_fields
    (pass_obs (c_state s) ev (now s) (destinations s))
    (pass_tasks (c_state s) ev (destinations s))
    (pass_queue (cfg_consent (opt_config options)) (c_state s) ev (now s)
       (destinations s)) s)
    as (_ & _ & _ & _ & _ & _ & _ & _ & _ & Htrace & Htasks & _).
  split; [reflexivity|]. split; [|split; [|split; [|split]]].
  - rewrite Htrace, Hdests, pass_obs_app.
    change (pass_obs (c_state s) ev (now s) ((nm, entry) :: post))
      with ((if isAllowed (c_state s) (requiredConsent entry)
             then delivery_obs ev (now s) (nm, entry) else [])
            ++ pass_obs (c_state s) ev (now s) post).
    rewrite Hal.
    destruct Hthrow as [Htr | (p & Htr & Hsend)].
    + exists (pass_obs (c_state s) ev (now s) pre ++ [OTransform nm ev]),
        (pass_obs (c_state s) ev (now s) post).
      split.
      * unfold delivery_obs. simpl. rewrite Htr. simpl.
        rewrite <- !app_assoc. reflexivity.
      * intros nm' entry' Hin Hal'.
        apply (pass_obs_allowed (c_state s) ev (now s) post (nm', entry') Hin Hal').
    + exists (pass_obs (c_state s) ev (now s) pre
              ++ [OTransform nm ev; OSend nm p (config entry)]),
        (pass_obs (c_state s) ev (now s) post).
      split.
      * unfold delivery_obs. simpl. rewrite Htr, Hsend. simpl.
        rewrite <- !app_assoc. reflexivity.
      * intros nm' entry' Hin Hal'.
        apply (pass_obs_allowed (c_state s) ev (now s) post (nm', entry') Hin Hal').
  - intros nm' entry' p e' Hin Hal' Htr Hsend. split.
    + rewrite Htasks. apply elem_of_app. right.
      apply (pass_tasks_rejected (c_state s) ev (destinations s) (nm', entry') p e');
        assumption.
    + intros s2 Hpending. rewrite runMicrotasks_run. cbn [fst snd].
      split; [reflexivity|]. red_state.
      apply elem_of_app. right. apply list_elem_of_In, in_flat_map.
      exists (TSendRejected nm' e' ev). split; [by apply list_elem_of_In|].
      left. reflexivity.
  - intros s0 ev0. by rewrite dispatchToDestinations_run.
  - intros s0. by rewrite flushBuffer_run.
  - intros s0 ent act props Hres. apply track_returns.
    by apply context_at_returns.
Qed.

Lemma C1_witness :
  outcome (dispatchToDestinations Fixtures.isolationOptions Fixtures.pageViewed)
    (createCollector Fixtures.isolationOptions None 0) = Returns tt.
Proof.
  apply (C1_destination_failure_isolation Fixtures.isolationOptions
           Fixtures.pageViewed (createCollector Fixtures.isolationOptions None 0)
           []
           [("good-dest", Fixtures.entryOf (Fixtures.mockDestination "good-dest" ["analytics"]))]
           "fail-dest"
           (Fixtures.entryOf (Fixtures.failTransform "fail-dest" ["analytics"]))
           (JStr "Transform failed")).
  - reflexivity.
  - vm_compute. reflexivity.
  - left. reflexivity.
Defined.

(** ** The consent predicates *)

Lemma isAllowed_true_iff (st : ConsentState) (required : list ConsentCategory) :
  isAllowed st required = true <->
  required = []
  \/ Forall (fun c => c = "necessary") required
  \/ exists c, c ∈ required /\ st !! c = Some (Some true).
Proof.
  unfold isAllowed, reads_true. split.
  - destruct (length required =? 0)%nat eqn:Hlen; simpl.
    + intros _. left. apply Nat.eqb_eq in Hlen. by destruct required.
    + destruct (forallb _ required) eqn:Hall.
      * intros _. right. left. apply Forall_forall. intros c Hc.
        rewrite forallb_forall in Hall.
        specialize (Hall c (proj1 (list_elem_of_In _ _) Hc)).
        by apply bool_decide_eq_true in Hall.
      * intros Hex. right. right. apply existsb_exists in Hex.
        destruct Hex as (c & Hc & Htrue). exists c.
        split; [by apply list_elem_of_In|]. by apply bool_decide_eq_true in Htrue.
  - intros [-> | [Hall | (c & Hc & Htrue)]].
    + reflexivity.
    + assert (forallb (fun c => bool_decide (c = "necessary")) required = true) as ->.
      { apply forallb_forall. intros c Hc. apply bool_decide_eq_true.
        rewrite Forall_forall in Hall. apply Hall. by apply list_elem_of_In. }
      by rewrite orb_true_r.
    + destruct (_ || _); [reflexivity|].
      apply existsb_exists. exists c. split; [by apply list_elem_of_In|].
      by apply bool_decide_eq_true.
Qed.

(** [state[c] === undefined]: the key is set to [undefined], or it is not
    set and is not a name found on [Object.prototype]. *)
Lemma reads_undefined_iff (st : ConsentState) (c : ConsentCategory) :
  reads_undefined st c = true <->
  st !! c = Some None \/ (st !! c = None /\ c ∉ objectPrototypeKeys).
Proof.
  unfold reads_undefined. destruct (st !! c) as [v|].
  - rewrite bool_decide_eq_true. split.
    + intros ->. by left.
    + intros [[= ->] | [[=] _]]. reflexivity.
  - rewrite negb_true_iff, bool_decide_eq_false. split.
    + intros Hc. by right.
    + by intros [[=] | [_ Hc]].
Qed.

Lemma isPending_true_iff (st : ConsentState) (categories : list ConsentCategory) :
  isPending st categories = true <->
  exists c, c ∈ categories /\ reads_undefined st c = true.
Proof.
  unfold isPending. rewrite existsb_exists. split.
  - intros (c & Hc & Hnone). exists c. split; [by apply list_elem_of_In | done].
  - intros (c & Hc & Hnone). exists c. split; [by apply list_elem_of_In | done].
Qed.

Lemma isPending_false_iff (st : ConsentState) (categories : list ConsentCategory) :
  isPending st categories = false <->
  forall c, c ∈ categories -> reads_undefined st c = false.
Proof.
  split.
  - intros Hp c Hc. apply not_true_is_false. intros Hu.
    assert (isPending st categories = true) by (apply isPending_true_iff; by exists c).
    congruence.
  - intros Hall. apply not_true_is_false. intros Hp.
    apply isPending_true_iff in Hp as (c & Hc & Hu). rewrite (Hall c Hc) in Hu.
    discriminate Hu.
Qed.

Lemma isAllowed_false (st : ConsentState) (required : list ConsentCategory) :
  required <> [] ->
  ~ Forall (fun c => c = "necessary") required ->
  (forall c, c ∈ required -> st !! c <> Some (Some true)) ->
  isAllowed st required = false.
Proof.
  intros Hne Hnec Hnone. apply not_true_is_false. intros Hal.
  apply isAllowed_true_iff in Hal.
  destruct Hal as [-> | [Hall | (c & Hc & Htrue)]]; [done | done |].
  by apply (Hnone c Hc).
Qed.

(** Every observation of a pass that is a call into a destination names
    an allowed destination of the pass. *)
Lemma delivery_obs_names ev ts ne nm o :
  o ∈ delivery_obs ev ts ne ->
  is_transform_of nm o = true \/ is_send_of nm o = true ->
  ne.1 = nm.
Proof.
  unfold delivery_obs. intros Ho Hcall.
  assert (Hcase : o = OTransform ne.1 ev
                  \/ (exists p, o = OSend ne.1 p (config ne.2))
                  \/ exists ty pl, o = OEmit ty pl ts).
  { apply elem_of_cons in Ho as [-> | Ho]; [by left|].
    destruct (transform (destination ne.2) ev) as [[p|]|e].
    - apply elem_of_cons in Ho as [-> | Ho]; [right; left; by eexists|].
      destruct (send (destination ne.2) p (config ne.2)) as [e|r];
        apply list_elem_of_singleton in Ho as ->; right; right; by eexists _, _.
    - by apply elem_of_nil in Ho.
    - apply list_elem_of_singleton in Ho as ->. right; right; by eexists _, _. }
  destruct Hcase as [-> | [(p & ->) | (ty & pl & ->)]]; simpl in Hcall.
  - destruct Hcall as [H|H]; [by apply bool_decide_eq_true in H | done].
  - destruct Hcall as [H|H]; [done | by apply bool_decide_eq_true in H].
  - by destruct Hcall.
Qed.

Lemma pass_obs_names st ev ts dests nm o :
  o ∈ pass_obs st ev ts dests ->
  is_transform_of nm o = true \/ is_send_of nm o = true ->
  exists entry, (nm, entry) ∈ dests /\ isAllowed st (requiredConsent entry) = true.
Proof.
  unfold pass_obs. intros Ho Hcall.
  apply list_elem_of_In, in_flat_map in Ho as (ne & Hne & Ho).
  destruct (allowed_now st ne) eqn:Hal; [|by destruct Ho].
  apply list_elem_of_In in Ho.
  pose proof (delivery_obs_names ev ts ne nm o Ho Hcall) as Hname.
  destruct ne as [nm' entry]; simpl in *; subst nm'.
  exists entry. split; [by apply list_elem_of_In | exact Hal].
Qed.

(** ** C2: the consent gate of the dispatch loop *)

(** C2, as stated, fails in three ways. A destination that requires only
    ["necessary"] is sent the event although no category is explicitly
    true. With [queueTimeout = 0] a destination blocked by an undecided
    category leaves nothing in the queue. And an event dispatched while a
    destination's only category was explicitly false still reaches that
    destination: another destination was waiting, so the event was
    queued, and the consent change that later grants both categories
    replays it to every destination. *)
Lemma C2_counterexample :
  (let s := createCollector Fixtures.necessaryOptions None 0 in
   (forall c, c ∈ ["necessary"] -> c_state s !! c <> Some (Some true))
   /\ OSend "essential" (JObj [("transformed", JBool true)]) (JObj [])
        ∈ trace (exec (dispatchToDestinations Fixtures.necessaryOptions
                         Fixtures.pageViewed) s))
  /\ (let s := createCollector Fixtures.noQueueOptions None 0 in
      c_state s !! "analytics" = None
      /\ reads_undefined (c_state s) "analytics" = true
      /\ queue (exec (dispatchToDestinations Fixtures.noQueueOptions
                        Fixtures.pageViewed) s) = [])
  /\ (let options := Fixtures.deniedAndPendingOptions in
      let s := run options [OpTrack "page" "viewed" None; OpFlush]
                 (createCollector options None 0) in
      let s' := exec (consent options {[ "analytics" := Some true;
                                         "marketing" := Some true ]}) s in
      c_state (createCollector options None 0) !! "marketing" = Some (Some false)
      /\ sends_of "ads" (trace s) = []
      /\ length (sends_of "ads" (trace s')) = 1%nat).
Proof.
  split; [|split]; cbv zeta.
  - split.
    + intros c Hc. apply list_elem_of_singleton in Hc as ->. vm_compute. discriminate.
    + unfold exec. rewrite dispatchToDestinations_run.
      apply list_elem_of_In. vm_compute. right. left. reflexivity.
  - split_and!; [reflexivity | vm_compute; reflexivity |].
    unfold exec. rewrite dispatchToDestinations_run.
    vm_compute. reflexivity.
  - split_and!; vm_compute; reflexivity.
Qed.

(** C2 (amended). One dispatch pass, for a destination registered under
    a name of its own.

    The pass returns, and every destination allowed by the state has its
    [transform] called, and its [send] when [transform] returns a payload.
    A destination whose requirement list is empty or made of
    ["necessary"] only is among them, whatever the state.

    A destination whose list is not empty, is not made of ["necessary"]
    only and has no category explicitly true gets no [transform] and no
    [send] call in the pass. The loop body for it leaves the trace and the
    pending callbacks alone. When some required category reads as
    undefined (it is set to [undefined], or it is not set and is not a
    name found on [Object.prototype]) the body calls [enqueue], which
    records the event with the current time unless [queueTimeout] is 0;
    otherwise, and so whenever every required category is explicitly
    false, it changes nothing. *)
Theorem C2_consent_gate
    (options : CreateCollectorOptions) (ev : JctEvent) (s : CollectorState)
    (pre post : list (string * DestinationEntry))
    (nm : string) (entry : DestinationEntry) :
  destinations s = pre ++ (nm, entry) :: post ->
  nm ∉ (pre ++ post).*1 ->
  let st := c_state s in
  let required := requiredConsent entry in
  let s' := exec (dispatchToDestinations options ev) s in
  let body := exec (dispatchToDestination options ev (nm, entry)) s in
  let queued := {| event := ev; queuedAt := now s |} in
  outcome (dispatchToDestinations options ev) s = Returns tt
  /\ (exists added,
        trace s' = trace s ++ added
        /\ (forall nm' entry',
              (nm', entry') ∈ destinations s ->
              isAllowed st (requiredConsent entry') = true ->
              OTransform nm' ev ∈ added
              /\ forall p, transform (destination entry') ev = Returns (Some p) ->
                   OSend nm' p (config entry') ∈ added)
        /\ (required = [] \/ Forall (fun c => c = "necessary") required ->
              OTransform nm ev ∈ added
              /\ forall p, transform (destination entry) ev = Returns (Some p) ->
                   OSend nm p (config entry) ∈ added)
        /\ (required <> [] ->
            ~ Forall (fun c => c = "necessary") required ->
            (forall c, c ∈ required -> st !! c <> Some (Some true)) ->
            forall o, o ∈ added ->
              is_transform_of nm o = false /\ is_send_of nm o = false))
  /\ (required <> [] ->
      ~ Forall (fun c => c = "necessary") required ->
      (forall c, c ∈ required -> st !! c <> Some (Some true)) ->
      trace body = trace s
      /\ microtasks body = microtasks s
      /\ ((exists c, c ∈ required /\ reads_undefined st c = true) ->
            queue body =
              if queueTimeout (cfg_consent (opt_config options)) =? 0
              then queue s
              else queue s ++ [queued])
      /\ ((exists c, c ∈ required /\ reads_undefined st c = true) ->
            queueTimeout (cfg_consent (opt_config options)) <> 0 ->
            queued ∈ queue s')
      /\ ((forall c, c ∈ required -> reads_undefined st c = false) -> body = s)
      /\ ((forall c, c ∈ required -> st !! c = Some (Some false)) -> body = s))
  /\ (forall c,
        reads_undefined st c = true <->
        st !! c = Some None \/ (st !! c = None /\ c ∉ objectPrototypeKeys)).
Proof.
  intros Hdests Hfresh st required s' body queued.
  subst st required s' body queued.
  unfold exec, outcome.
  rewrite dispatchToDestinations_run, dispatchToDestination_run. cbn [fst snd].
  destruct (add_effects_fields
    (pass_obs (c_state s) ev (now s) (destinations s))
    (pass_tasks (c_state s) ev (destinations s))
    (pass_queue (cfg_consent (opt_config options)) (c_state s) ev (now s)
       (destinations s)) s)
    as (_ & _ & _ & _ & _ & _ & _ & _ & _ & Htrace & _ & Hqueue).
  assert (Hin : (nm, entry) ∈ destinations s).
  { rewrite Hdests. apply elem_of_app. right. apply list_elem_of_here. }
  split_and!; [reflexivity | | | apply reads_undefined_iff].
  - exists (pass_obs (c_state s) ev (now s) (destinations s)).
    split_and!; [exact Htrace | | |].
    + intros nm' entry' Hin' Hal.
      apply (pass_obs_allowed (c_state s) ev (now s) (destinations s)
               (nm', entry') Hin' Hal).
    + intros Hfree.
      assert (Hal : isAllowed (c_state s) (requiredConsent entry) = true).
      { apply isAllowed_true_iff. destruct Hfree as [-> | Hnec]; [by left|].
        right. by left. }
      apply (pass_obs_allowed (c_state s) ev (now s) (destinations s)
               (nm, entry) Hin Hal).
    + intros Hne Hnec Hnone o Ho.
      pose proof (isAllowed_false (c_state s) (requiredConsent entry) Hne Hnec Hnone)
        as Hblocked.
      assert (Hno : ~ (is_transform_of nm o = true \/ is_send_of nm o = true)).
      { intros Hcall.
        destruct (pass_obs_names _ _ _ _ nm o Ho Hcall) as (entry' & Hin' & Hal).
        rewrite Hdests in Hin'.
        apply elem_of_app in Hin' as [Hin' | Hin'].
        - apply Hfresh. rewrite fmap_app. apply elem_of_app. left.
          apply (list_elem_of_fmap_2 fst _ _ Hin').
        - apply elem_of_cons in Hin' as [Heq | Hin'].
          + inversion Heq; subst entry'. congruence.
          + apply Hfresh. rewrite fmap_app. apply elem_of_app. right.
            apply (list_elem_of_fmap_2 fst _ _ Hin'). }
      destruct (is_transform_of nm o), (is_send_of nm o); try done;
        exfalso; apply Hno; auto.
  - intros Hne Hnec Hnone.
    pose proof (isAllowed_false (c_state s) (requiredConsent entry) Hne Hnec Hnone)
      as Hblocked.
    unfold allowed_now, blocked_pending. cbn [fst snd]. rewrite Hblocked.
    cbn [negb andb]. split_and!.
    + destruct (isPending _ _ && _); red_state; by rewrite ?app_nil_r.
    + destruct (isPending _ _ && _); red_state; by rewrite ?app_nil_r.
    + intros Hpend. apply isPending_true_iff in Hpend. rewrite Hpend. cbn [andb].
      destruct (queueTimeout (cfg_consent (opt_config options)) =? 0);
        red_state; by rewrite ?app_nil_r.
    + intros Hpend Htimeout. apply isPending_true_iff in Hpend.
      rewrite Hqueue. apply elem_of_app. right.
      rewrite Hdests, pass_queue_app.
      apply elem_of_app. right. unfold pass_queue. cbn [flat_map].
      unfold blocked_pending. cbn [fst snd]. rewrite Hblocked, Hpend.
      apply Z.eqb_neq in Htimeout. rewrite Htimeout. cbn.
      apply list_elem_of_here.
    + intros Hdecided. apply isPending_false_iff in Hdecided. rewrite Hdecided.
      cbn [andb]. apply add_effects_nil.
    + intros Hdenied.
      assert (isPending (c_state s) (requiredConsent entry) = false) as ->.
      { apply isPending_false_iff. intros c Hc. unfold reads_undefined.
        by rewrite (Hdenied c Hc). }
      cbn [andb]. apply add_effects_nil.
Qed.

Lemma C2_witness :
  let options := Fixtures.gateOptions in
  let s := createCollector options None 0 in
  let s' := exec (dispatchToDestinations options Fixtures.pageViewed) s in
  queue s' = [{| event := Fixtures.pageViewed; queuedAt := 0 |}]
  /\ transforms_of "ga" (trace s') = []
  /\ OTransform "ads" Fixtures.pageViewed ∈ trace s'
  /\ OTransform "essential" Fixtures.pageViewed ∈ trace s'
  /\ {| event := Fixtures.pageViewed; queuedAt := 0 |} ∈ queue s'.
Proof.
  cbv zeta.
  pose proof (C2_consent_gate Fixtures.gateOptions Fixtures.pageViewed
                (createCollector Fixtures.gateOptions None 0)
                [("ads", Fixtures.entryOf (Fixtures.mockDestination "ads" ["marketing"]))]
                [("essential",
                  Fixtures.entryOf (Fixtures.mockDestination "essential" ["necessary"]))]
                "ga" (Fixtures.entryOf (Fixtures.mockDestination "ga" ["analytics"])))
    as H.
  cbv zeta in H.
  destruct H as (_ & _ & Hblocked & _).
  { reflexivity. }
  { vm_compute. intros Hin. apply list_elem_of_In in Hin.
    destruct Hin as [Heq | [Heq | []]]; discriminate Heq. }
  destruct Hblocked as (_ & _ & _ & Hqueued & _).
  { discriminate. }
  { intros Hnec. apply Forall_cons in Hnec as [Heq _]. discriminate Heq. }
  { intros c Hc. apply list_elem_of_singleton in Hc as ->. vm_compute. discriminate. }
  split_and!; try (vm_compute; reflexivity).
  - apply list_elem_of_In. vm_compute. left. reflexivity.
  - apply list_elem_of_In. vm_compute. right. right. right. left. reflexivity.
  - apply Hqueued; [|vm_compute; discriminate].
    exists "analytics". split; [apply list_elem_of_here | vm_compute; reflexivity].
Defined.

(** ** C5: [isAllowed] and the category ["necessary"] *)

(** C5. [isAllowed] is true for the empty list and for every list made of
    ["necessary"] only, whatever the state. A list that contains
    ["necessary"] next to another category is not allowed when nothing is
    explicitly true: [isAllowed] answers false for
    [["necessary"; "analytics"]] both in the empty state and in the state
    where ["necessary"] is false. *)
Theorem C5_isAllowed_necessary :
  (forall st : ConsentState, isAllowed st [] = true)
  /\ (forall (st : ConsentState) (n : nat),
        isAllowed st (replicate n "necessary") = true)
  /\ isAllowed ∅ ["necessary"; "analytics"] = false
  /\ isAllowed {[ "necessary" := Some false ]} ["necessary"; "analytics"] = false.
Proof.
  split; [reflexivity|]. split; [|split; vm_compute; reflexivity].
  intros st n. apply isAllowed_true_iff. right. left.
  apply Forall_forall. intros c Hc. by apply elem_of_replicate in Hc as [-> _].
Qed.

(** ** [validate], [track] and [consent] as state transformers *)

Lemma validate_run ev s :
  validate ev s =
  (Returns (validation (registry s) ev).1,
   set_trace (fun t => t ++ (validation (registry s) ev).2) s).
Proof.
  unfold validate, validation. run_m.
  destruct (findContract (registry s) (entity ev) (action ev)) as [c|].
  - destruct (schema c (properties ev)) as [data same|err|e].
    + destruct s; same_state.
    + destruct (mode c); destruct s; same_state.
    + destruct s; same_state.
  - destruct s; same_state.
Qed.

Lemma validation_logs_quiet reg ev :
  Forall (fun o => is_delivery o = false) (validation reg ev).2.
Proof.
  unfold validation.
  destruct (findContract reg (entity ev) (action ev)) as [c|]; [|constructor].
  destruct (schema c (properties ev)) as [data same|err|e].
  - constructor.
  - destruct (mode c); by repeat constructor.
  - by repeat constructor.
Qed.

Lemma track_run options ent act props s :
  track options ent act props s =
  match context_at options (now s) with
  | Throws e => (Throws e, s)
  | Returns ctx =>
      let ev := built_event options s ent act props ctx in
      let r := (validation (registry s) ev).1 in
      let logs := (validation (registry s) ev).2 in
      if valid r then
        let s2 := buffered s ev r logs in
        if Z.of_nat (length (buf s2)) >=? maxSize (bufferConfig options)
        then flushBuffer options s2
        else scheduleFlush options s2
      else
        (Returns tt,
         set_trace (fun t => t ++ logs ++ rejection_obs options ev r (now s))
           (set_idSupply S s))
  end.
Proof.
  unfold track. unfold bind at 1. rewrite buildEvent_run.
  destruct (context_at options (now s)) as [ctx|e]; [|reflexivity].
  unfold bind at 1. rewrite validate_run.
  change (registry (set_idSupply S s)) with (registry s).
  cbv zeta.
  destruct (valid (validation (registry s)
                     (built_event options s ent act props ctx)).1) eqn:Hvalid;
    cbn [negb].
  - unfold buffered. run_m.
    match goal with |- context [if ?c then _ else _] => destruct c end;
      apply f_equal; state_eq.
  - unfold rejection_obs. destruct (debug (opt_config options)); same_state.
Qed.

Lemma rejection_obs_quiet options ev r ts :
  Forall (fun o => is_delivery o = false) (rejection_obs options ev r ts).
Proof. unfold rejection_obs. destruct (debug _); by repeat constructor. Qed.

Lemma onConsent_loop_run state dests s :
  for_of dests (fun ne =>
    match onConsent (destination ne.2) with
    | Some callback => observe (OOnConsent ne.1 state) >> call (callback state)
    | None => ret tt
    end) s =
  (match (onConsent_calls state dests).2 with
   | None => Returns tt
   | Some e => Throws e
   end,
   set_trace (fun t => t ++ (onConsent_calls state dests).1) s).
Proof.
  revert s. induction dests as [|ne dests IH]; intros s.
  - simpl. destruct s; same_state.
  - cbn [for_of onConsent_calls]. unfold bind at 1.
    destruct (onConsent (destination ne.2)) as [callback|].
    + unfold bind at 1, observe at 1, modify at 1.
      destruct (callback state) as [[]|e]; cbn [call].
      * unfold ret at 1. rewrite IH. cbn [fst snd].
        same_state.
      * unfold throw. reflexivity.
    + unfold ret at 1. apply IH.
Qed.

Lemma replay_loop_run options queued s :
  for_of queued (fun q =>
    let* u := gets cur_user in
    dispatchToDestinations options (with_user (event q) u)) s =
  (Returns tt,
   add_effects
     (batch_obs (c_state s) (now s) (destinations s) (replayed (cur_user s) queued))
     (batch_tasks (c_state s) (destinations s) (replayed (cur_user s) queued))
     (batch_queue (cfg_consent (opt_config options)) (c_state s) (now s)
        (destinations s) (replayed (cur_user s) queued))
     s).
Proof.
  revert s. induction queued as [|q queued IH]; intros s; simpl.
  - by rewrite add_effects_nil.
  - unfold bind at 1. unfold bind at 1, gets at 1.
    rewrite dispatchToDestinations_run, IH.
    destruct (add_effects_fields
      (pass_obs (c_state s) (with_user (event q) (cur_user s)) (now s) (destinations s))
      (pass_tasks (c_state s) (with_user (event q) (cur_user s)) (destinations s))
      (pass_queue (cfg_consent (opt_config options)) (c_state s)
         (with_user (event q) (cur_user s)) (now s) (destinations s)) s)
      as (-> & -> & -> & -> & _).
    by rewrite add_effects_add.
Qed.

(** The change handler: either an [onConsent] callback throws and the
    handler stops there, or the queue is drained and replayed. *)
Lemma onConsentChange_run options st prev s :
  onConsentChange options st prev s =
  match (onConsent_calls st (destinations s)).2 with
  | Some e =>
      (Throws e,
       set_trace (fun t => t ++ OEmit EvConsent (PConsent st) (now s)
                             :: (onConsent_calls st (destinations s)).1) s)
  | None =>
      (Returns tt,
       add_effects
         (OEmit EvConsent (PConsent st) (now s)
          :: (onConsent_calls st (destinations s)).1
          ++ batch_obs (c_state s) (now s) (destinations s)
               (replayed (cur_user s) (queue s))
          ++ [OEmit EvQueueFlush (PQueueFlush (length (queue s))) (now s)])
         (batch_tasks (c_state s) (destinations s) (replayed (cur_user s) (queue s)))
         (batch_queue (cfg_consent (opt_config options)) (c_state s) (now s)
            (destinations s) (replayed (cur_user s) (queue s)))
         (set_queue (fun _ => []) s))
  end.
Proof.
  unfold onConsentChange.
  unfold bind at 1, emit at 1, bind at 1, timestamp_now, gets at 1, observe at 1,
    modify at 1.
  unfold bind at 1, gets at 1. unfold bind at 1.
  change (destinations (set_trace _ s)) with (destinations s).
  rewrite (onConsent_loop_run st (destinations s)).
  destruct (onConsent_calls st (destinations s)) as [calls [e|]]; cbn [fst snd].
  - same_state.
  - unfold drain. unfold bind at 1. unfold bind at 1, gets at 1.
    unfold bind at 1, modify at 1, ret at 1. unfold bind at 1.
    rewrite replay_loop_run. unfold emit, timestamp_now. run_m.
    same_state.
Qed.

(** [collector.consent(update)]: the state is merged, then the single
    registered listener runs inside the try/catch of [notify]. *)
Lemma consent_run options update s :
  consent options update s =
  let st := update ∪ c_state s in
  let s1 := set_c_state (fun _ => st) s in
  match (onConsent_calls st (destinations s)).2 with
  | Some e =>
      (Returns tt,
       set_trace (fun t => t ++ OEmit EvConsent (PConsent st) (now s)
                             :: (onConsent_calls st (destinations s)).1
                             ++ [OConsoleError "[Junction] Consent listener error:" e])
         s1)
  | None =>
      (Returns tt,
       add_effects
         (OEmit EvConsent (PConsent st) (now s)
          :: (onConsent_calls st (destinations s)).1
          ++ batch_obs st (now s) (destinations s) (replayed (cur_user s) (queue s))
          ++ [OEmit EvQueueFlush (PQueueFlush (length (queue s))) (now s)])
         (batch_tasks st (destinations s) (replayed (cur_user s) (queue s)))
         (batch_queue (cfg_consent (opt_config options)) st (now s)
            (destinations s) (replayed (cur_user s) (queue s)))
         (set_queue (fun _ => []) s1))
  end.
Proof.
  unfold consent, setState, notify.
  unfold bind at 1, gets at 1. unfold bind at 1, modify at 1.
  cbn [for_of]. unfold bind at 1, try_catch.
  unfold bind at 1, gets at 1.
  rewrite onConsentChange_run. cbv zeta.
  change (destinations (set_c_state _ s)) with (destinations s).
  change (c_state (set_c_state (fun st => update ∪ st) s)) with (update ∪ c_state s).
  destruct (onConsent_calls (update ∪ c_state s) (destinations s)) as [calls [e|]];
    cbn [fst snd].
  - unfold observe, modify, ret. same_state.
  - unfold ret. same_state.
Qed.

(** ** C9: queue timeout and the periodic sweep *)

Lemma pass_queue_disabled config st ev ts dests :
  queueTimeout config = 0 -> pass_queue config st ev ts dests = [].
Proof.
  intros H0. unfold pass_queue. rewrite H0. cbn.
  induction dests as [|ne dests IH]; [reflexivity|].
  cbn. rewrite andb_false_r. exact IH.
Qed.

Lemma batch_queue_disabled config st ts dests events :
  queueTimeout config = 0 -> batch_queue config st ts dests events = [].
Proof.
  intros H0. unfold batch_queue.
  induction events as [|ev events IH]; [reflexivity|].
  cbn. by rewrite pass_queue_disabled, IH.
Qed.

Lemma track_fields options ent act props s :
  let s' := exec (track options ent act props) s in
  cleanupTimer s' = cleanupTimer s
  /\ now s' = now s
  /\ c_state s' = c_state s
  /\ destinations s' = destinations s
  /\ registry s' = registry s
  /\ (queueTimeout (cfg_consent (opt_config options)) = 0 ->
      queue s' = queue s).
Proof.
  cbv zeta. unfold exec. rewrite track_run.
  destruct (context_at options (now s)) as [ctx|e]; [|by repeat split].
  cbv zeta.
  destruct (valid _).
  - match goal with |- context [if ?c then _ else _] => destruct c end.
    + rewrite flushBuffer_run. cbn [snd].
      match goal with |- context [add_effects ?o ?t ?q ?s0] =>
        destruct (add_effects_fields o t q s0)
          as (-> & -> & -> & _ & _ & _ & _ & -> & -> & _ & _ & Hq) end.
      repeat split; try (by destruct s).
      intros H0. rewrite Hq, batch_queue_disabled by done.
      rewrite app_nil_r. by destruct s.
    + rewrite scheduleFlush_run. cbn [snd].
      destruct (flushTimer _); by destruct s.
  - cbn [snd]. by destruct s.
Qed.

Lemma consent_fields options update s :
  let s' := exec (consent options update) s in
  cleanupTimer s' = cleanupTimer s
  /\ now s' = now s
  /\ destinations s' = destinations s
  /\ registry s' = registry s
  /\ buf s' = buf s
  /\ flushTimer s' = flushTimer s
  /\ c_state s' = update ∪ c_state s
  /\ (queueTimeout (cfg_consent (opt_config options)) = 0 ->
      queue s = [] -> queue s' = []).
Proof.
  cbv zeta. unfold exec. rewrite consent_run. cbv zeta.
  destruct (onConsent_calls _ _).2 as [e|]; cbn [snd].
  - by destruct s.
  - match goal with |- context [add_effects ?o ?t ?q ?s0] =>
      destruct (add_effects_fields o t q s0)
        as (-> & -> & -> & _ & -> & -> & _ & -> & -> & _ & _ & Hq) end.
    repeat split; try (by destruct s).
    intros H0 _. rewrite Hq, batch_queue_disabled by done. by destruct s.
Qed.

Lemma step_cleanup_other options op s :
  op <> OpCleanupTimer ->
  cleanupTimer (step options op s) = cleanupTimer s.
Proof.
  intros Hop. destruct op; cbn [step]; try done.
  - apply track_fields.
  - unfold identify, exec, bind, modify. cbn [fst snd].
    apply (track_fields options _ _ _ (set_user _ s)).
  - apply consent_fields.
  - unfold exec. rewrite flushBuffer_run. cbn [snd].
    match goal with |- context [add_effects ?o ?t ?q ?s0] =>
      destruct (add_effects_fields o t q s0)
        as (_ & _ & _ & _ & _ & _ & _ & _ & -> & _) end.
    by destruct s.
  - unfold exec, removeDestination. run_m.
    destruct (map_get nm (destinations s)) as [entry|]; [|done].
    destruct (teardown (destination entry)) as [[[]|e]|]; by destruct s.
  - unfold fireFlushTimer. destruct (flushTimerDue s); [|done].
    rewrite flushBuffer_run. cbn [snd].
    match goal with |- context [add_effects ?o ?t ?q ?s0] =>
      destruct (add_effects_fields o t q s0)
        as (_ & _ & _ & _ & _ & _ & _ & _ & -> & _) end.
    by destruct s.
  - unfold exec. rewrite runMicrotasks_run. by destruct s.
Qed.

Lemma step_queue_disabled options op s :
  queueTimeout (cfg_consent (opt_config options)) = 0 ->
  queue s = [] -> queue (step options op s) = [].
Proof.
  intros H0 Hq. destruct op; cbn [step].
  - destruct (track_fields options ent act props s) as (_ & _ & _ & _ & _ & Hk).
    cbv zeta in Hk. by rewrite Hk.
  - unfold identify, exec, bind, modify. cbn [fst snd].
    destruct (track_fields options "user" "identified"
      (Some (default ∅ new_traits ∪ {[ "userId" := JStr uid ]}))
      (set_user (fun u => {| anonymousId := anonymousId u; userId := Some uid;
         traits := Some (default ∅ new_traits ∪ default ∅ (traits u)) |}) s))
      as (_ & _ & _ & _ & _ & Hk).
    cbv zeta in Hk. unfold exec in Hk. rewrite Hk by done. by destruct s.
  - by apply consent_fields.
  - unfold exec. rewrite flushBuffer_run. cbn [snd].
    match goal with |- context [add_effects ?o ?t ?q ?s0] =>
      destruct (add_effects_fields o t q s0)
        as (_ & _ & _ & _ & _ & _ & _ & _ & _ & _ & _ & ->) end.
    rewrite batch_queue_disabled by done. rewrite app_nil_r. by destruct s.
  - by destruct s.
  - unfold exec, removeDestination. run_m.
    destruct (map_get nm (destinations s)) as [entry|]; [|done].
    destruct (teardown (destination entry)) as [[[]|e]|]; by destruct s.
  - by destruct s.
  - unfold fireFlushTimer. destruct (flushTimerDue s); [|done].
    rewrite flushBuffer_run. cbn [snd].
    match goal with |- context [add_effects ?o ?t ?q ?s0] =>
      destruct (add_effects_fields o t q s0)
        as (_ & _ & _ & _ & _ & _ & _ & _ & _ & _ & _ & ->) end.
    rewrite batch_queue_disabled by done. rewrite app_nil_r. by destruct s.
  - unfold fireCleanupTimer. destruct (cleanupTimer s) as [iv|]; [|done].
    destruct (due iv <=? now s); [|done].
    unfold sweep. run_m. destruct s; unfold_state. by subst.
  - unfold exec. rewrite runMicrotasks_run. by destruct s.
Qed.

Lemma fireCleanupTimer_run options s iv :
  cleanupTimer s = Some iv ->
  fireCleanupTimer options s =
  if due iv <=? now s
  then Some (Returns tt,
             set_cleanupTimer
               (fun _ => Some {| period := period iv; due := due iv + period iv |})
               (set_queue
                  (filter (fun item =>
                     now s - queuedAt item
                     < queueTimeout (cfg_consent (opt_config options)))) s))
  else None.
Proof.
  intros Htimer. unfold fireCleanupTimer. rewrite Htimer.
  destruct (due iv <=? now s); [|reflexivity].
  unfold sweep. run_m. reflexivity.
Qed.

(** C9. With [queueTimeout = 0], [enqueue] changes nothing and the queue
    of a collector is empty after any run. With [queueTimeout > 0] the
    factory arms an interval of period [min(queueTimeout, 30000)], which
    stays armed with that period through any run; the sweep cannot run
    before it is due, and when it runs the queue becomes the entries with
    [now - queuedAt < queueTimeout], in their order: the entries with
    [now - queuedAt >= queueTimeout] are exactly the ones removed. *)
Theorem C9_queue_timeout_and_sweep (options : CreateCollectorOptions) :
  let cfg := cfg_consent (opt_config options) in
  (queueTimeout cfg = 0 ->
     (forall ev s, enqueue cfg ev s = (Returns tt, s))
     /\ (forall nav t0 ops,
           queue (run options ops (createCollector options nav t0)) = []))
  /\ (0 < queueTimeout cfg ->
      forall nav t0 ops,
        exists iv,
          cleanupTimer (run options ops (createCollector options nav t0)) = Some iv
          /\ period iv = Z.min (queueTimeout cfg) 30000
          /\ 0 < period iv
          /\ period iv <= queueTimeout cfg
          /\ period iv <= 30000)
  /\ (forall s iv,
        cleanupTimer s = Some iv ->
        (now s < due iv -> fireCleanupTimer options s = None)
        /\ (due iv <= now s ->
            exists s',
              fireCleanupTimer options s = Some (Returns tt, s')
              /\ queue s' =
                   filter (fun item => now s - queuedAt item < queueTimeout cfg)
                     (queue s)
              /\ (forall q, q ∈ queue s' <->
                    q ∈ queue s /\ now s - queuedAt q < queueTimeout cfg)
              /\ (forall q, q ∈ queue s ->
                    queueTimeout cfg <= now s - queuedAt q -> q ∉ queue s')
              /\ cleanupTimer s'
                 = Some {| period := period iv; due := due iv + period iv |})).
Proof.
  cbv zeta. split; [|split].
  - intros H0. split.
    + intros ev s. unfold enqueue. by rewrite H0.
    + intros nav t0 ops. unfold run.
      assert (Hinv : forall s, queue s = [] ->
        queue (foldl (fun acc op => step options op acc) s ops) = []).
      { induction ops as [|op ops IH]; intros s Hq; [done|].
        cbn [foldl]. apply IH. by apply step_queue_disabled. }
      by apply Hinv.
  - intros Hpos nav t0 ops. unfold run.
    assert (Hinv : forall s,
      (exists iv, cleanupTimer s = Some iv
         /\ period iv = Z.min (queueTimeout (cfg_consent (opt_config options))) 30000) ->
      exists iv,
        cleanupTimer (foldl (fun acc op => step options op acc) s ops) = Some iv
        /\ period iv = Z.min (queueTimeout (cfg_consent (opt_config options))) 30000).
    { induction ops as [|op ops IH]; intros s Hs; [done|].
      cbn [foldl]. apply IH. destruct Hs as (iv & Htimer & Hperiod).
      assert (Hcase : op = OpCleanupTimer \/ op <> OpCleanupTimer)
        by (destruct op; (by left) || (right; discriminate)).
      destruct Hcase as [-> | Hop].
      - cbn [step]. rewrite (fireCleanupTimer_run options s iv Htimer).
        destruct (due iv <=? now s); cbn [snd].
        + eexists. split; [by destruct s|]. exact Hperiod.
        + by exists iv.
      - rewrite step_cleanup_other by done. by exists iv. }
    destruct (Hinv (createCollector options nav t0)) as (iv & Htimer & Hperiod).
    { cbn [createCollector cleanupTimer]. unfold initialCleanupTimer.
      apply Z.ltb_lt in Hpos. rewrite Hpos. by eexists. }
    exists iv. split; [exact Htimer|]. split; [exact Hperiod|]. lia.
  - intros s iv Htimer. rewrite (fireCleanupTimer_run options s iv Htimer). split.
    + intros Hearly. apply Z.leb_gt in Hearly. by rewrite Hearly.
    + intros Hdue. apply Z.leb_le in Hdue. rewrite Hdue.
      eexists. split; [reflexivity|].
      assert (Hq : queue (set_cleanupTimer
               (fun _ => Some {| period := period iv; due := due iv + period iv |})
               (set_queue
                  (filter (fun item =>
                     now s - queuedAt item
                     < queueTimeout (cfg_consent (opt_config options)))) s))
             = filter (fun item => now s - queuedAt item
                     < queueTimeout (cfg_consent (opt_config options))) (queue s))
        by (by destruct s).
      rewrite Hq. split; [reflexivity|]. split; [|split].
      * intros q. rewrite list_elem_of_filter. tauto.
      * intros q Hin Hold Hkept. apply list_elem_of_filter in Hkept. lia.
      * by destruct s.
Qed.

Lemma C9_witness :
  queue (run Fixtures.noQueueOptions
           [OpTrack "page" "viewed" None; OpFlush; OpConsent {[ "marketing" := Some true ]}]
           (createCollector Fixtures.noQueueOptions None 0)) = []
  /\ (exists iv,
        cleanupTimer (run Fixtures.pendingOptions
                        [OpTrack "page" "viewed" None; OpFlush; OpElapse 30000;
                         OpCleanupTimer]
                        (createCollector Fixtures.pendingOptions None 0)) = Some iv
        /\ period iv = 30000)
  /\ (let s := run Fixtures.pendingOptions
                 [OpTrack "page" "viewed" None; OpFlush; OpElapse 30000]
                 (createCollector Fixtures.pendingOptions None 0) in
      length (queue s) = 1%nat
      /\ exists s', fireCleanupTimer Fixtures.pendingOptions s = Some (Returns tt, s')
                    /\ queue s' = []).
Proof.
  split; [|split].
  - apply (proj1 (C9_queue_timeout_and_sweep Fixtures.noQueueOptions)).
    reflexivity.
  - destruct (proj1 (proj2 (C9_queue_timeout_and_sweep Fixtures.pendingOptions))
                (eq_refl : (0 ?= 30000) = Lt) None 0
                [OpTrack "page" "viewed" None; OpFlush; OpElapse 30000;
                 OpCleanupTimer])
      as (iv & Htimer & Hperiod & _).
    exists iv. split; [exact Htimer | exact Hperiod].
  - cbv zeta. split; [vm_compute; reflexivity|].
    assert (Htimer : cleanupTimer
              (run Fixtures.pendingOptions
                 [OpTrack "page" "viewed" None; OpFlush; OpElapse 30000]
                 (createCollector Fixtures.pendingOptions None 0))
            = Some {| period := 30000; due := 30000 |})
      by (vm_compute; reflexivity).
    destruct (proj2 (proj2 (proj2 (C9_queue_timeout_and_sweep Fixtures.pendingOptions))
                _ _ Htimer))
      as (s' & Hfire & Hqueue & _).
    { vm_compute. discriminate. }
    exists s'. split; [exact Hfire|]. rewrite Hqueue. vm_compute. reflexivity.
Defined.

(** ** C7: buffer flush by size and by timer *)

Lemma quiet_app (l1 l2 : list Obs) :
  Forall (fun o => is_delivery o = false) l1 ->
  Forall (fun o => is_delivery o = false) l2 ->
  Forall (fun o => is_delivery o = false) (l1 ++ l2).
Proof. intros H1 H2. by apply Forall_app. Qed.

Lemma quiet_not_delivered (t added : list Obs) o :
  Forall (fun o => is_delivery o = false) added ->
  o ∈ t ++ added -> is_delivery o = true -> o ∈ t.
Proof.
  intros Hquiet Ho Hdel. apply elem_of_app in Ho as [Ho | Ho]; [done|].
  rewrite Forall_forall in Hquiet. rewrite (Hquiet o Ho) in Hdel. discriminate.
Qed.

Lemma timerDelay_in_range (ms : Z) : 1 <= ms <= TIMEOUT_MAX -> timerDelay ms = ms.
Proof.
  intros [Hlo Hhi]. unfold timerDelay.
  apply Z.leb_le in Hlo. apply Z.leb_le in Hhi. by rewrite Hlo, Hhi.
Qed.

Lemma buffers_track options ent act props s :
  buffers options (OpTrack ent act props) s = true ->
  exists ctx,
    context_at options (now s) = Returns ctx
    /\ valid (validation (registry s) (built_event options s ent act props ctx)).1
       = true.
Proof.
  cbn [buffers]. destruct (context_at options (now s)) as [ctx|e]; [|discriminate].
  intros Hvalid. by exists ctx.
Qed.

(** A [track] call whose event does not get into the buffer leaves the
    buffer, the timer and everything but the trace and the identifier
    supply alone. *)
Lemma track_rejected options ent act props s :
  buffers options (OpTrack ent act props) s = false ->
  let s' := exec (track options ent act props) s in
  buf s' = buf s
  /\ flushTimer s' = flushTimer s
  /\ (exists added, trace s' = trace s ++ added
        /\ Forall (fun o => is_delivery o = false) added).
Proof.
  cbn [buffers]. intros Hrej. cbv zeta. unfold exec. rewrite track_run.
  destruct (context_at options (now s)) as [ctx|e].
  - cbv zeta. rewrite Hrej. cbn [snd]. red_state.
    split_and!; [reflexivity | reflexivity |].
    eexists. split; [reflexivity|].
    apply quiet_app; [apply validation_logs_quiet | apply rejection_obs_quiet].
  - cbn [snd]. split_and!; [reflexivity | reflexivity |].
    exists []. by rewrite app_nil_r.
Qed.

(** A [track] call that leaves the buffer below [maxSize]: the event is
    appended, nothing is dispatched, and the timer is armed only if it
    was not armed already. *)
Lemma track_buffers options ent act props s :
  buffers options (OpTrack ent act props) s = true ->
  Z.of_nat (length (buf s)) + 1 < maxSize (bufferConfig options) ->
  let s' := exec (track options ent act props) s in
  (exists ev, buf s' = buf s ++ [ev])
  /\ flushTimer s' =
       match flushTimer s with
       | Some d => Some d
       | None => Some (now s + timerDelay (maxWait (bufferConfig options)))
       end
  /\ (exists added, trace s' = trace s ++ added
        /\ Forall (fun o => is_delivery o = false) added).
Proof.
  intros Hbuffers Hroom. cbv zeta.
  destruct (buffers_track _ _ _ _ _ Hbuffers) as (ctx & Hctx & Hvalid).
  unfold exec. rewrite track_run, Hctx. cbv zeta. rewrite Hvalid.
  set (ev := built_event options s ent act props ctx).
  set (s2 := buffered s ev (validation (registry s) ev).1 (validation (registry s) ev).2).
  assert (Hbuf2 : buf s2 = buf s ++ [v_event (validation (registry s) ev).1])
    by (unfold s2, buffered; red_state; reflexivity).
  assert (Htimer2 : flushTimer s2 = flushTimer s)
    by (unfold s2, buffered; red_state; reflexivity).
  assert (Hnow2 : now s2 = now s)
    by (unfold s2, buffered; red_state; reflexivity).
  assert (Htrace2 : trace s2 = trace s ++ (validation (registry s) ev).2
                      ++ [OEmit EvEvent (PEvent ev) (now s);
                          OEmit EvValid (PEvent ev) (now s)])
    by (unfold s2, buffered; red_state; reflexivity).
  rewrite Hbuf2, length_app. cbn [length].
  assert ((Z.of_nat (length (buf s) + 1) >=? maxSize (bufferConfig options)) = false)
    as -> by (rewrite Z.geb_leb; apply Z.leb_gt; lia).
  rewrite scheduleFlush_run. cbn [snd]. rewrite Htimer2, Hnow2.
  assert (Hquiet : Forall (fun o => is_delivery o = false)
            ((validation (registry s) ev).2
             ++ [OEmit EvEvent (PEvent ev) (now s);
                 OEmit EvValid (PEvent ev) (now s)])).
  { apply quiet_app; [apply validation_logs_quiet | by repeat constructor]. }
  destruct (flushTimer s) as [d|]; red_state; rewrite ?Hbuf2, ?Htimer2, ?Htrace2;
    (split_and!; [by eexists | reflexivity | by eexists]).
Qed.

(** A [track] call that brings the buffer to [maxSize]: everything in the
    buffer, the new event last, is dispatched before the call returns. *)
Lemma track_flushes options ent act props s :
  buffers options (OpTrack ent act props) s = true ->
  maxSize (bufferConfig options) <= Z.of_nat (length (buf s)) + 1 ->
  let s' := exec (track options ent act props) s in
  outcome (track options ent act props) s = Returns tt
  /\ buf s' = []
  /\ flushTimer s' = None
  /\ exists ev quiet,
       Forall (fun o => is_delivery o = false) quiet
       /\ trace s' = trace s ++ quiet
            ++ batch_obs (c_state s) (now s) (destinations s) (buf s ++ [ev]).
Proof.
  intros Hbuffers Hfull. cbv zeta.
  destruct (buffers_track _ _ _ _ _ Hbuffers) as (ctx & Hctx & Hvalid).
  unfold exec, outcome. rewrite track_run, Hctx. cbv zeta. rewrite Hvalid.
  set (ev := built_event options s ent act props ctx).
  set (s2 := buffered s ev (validation (registry s) ev).1 (validation (registry s) ev).2).
  assert (Hbuf2 : buf s2 = buf s ++ [v_event (validation (registry s) ev).1])
    by (unfold s2, buffered; red_state; reflexivity).
  rewrite Hbuf2, length_app. cbn [length].
  assert ((Z.of_nat (length (buf s) + 1) >=? maxSize (bufferConfig options)) = true)
    as -> by (rewrite Z.geb_leb; apply Z.leb_le; lia).
  rewrite flushBuffer_run. cbn [fst snd].
  match goal with |- context [add_effects ?o ?t ?q ?sx] =>
    destruct (add_effects_fields o t q sx)
      as (_ & _ & _ & _ & -> & -> & _ & _ & _ & -> & _) end.
  red_state. rewrite Hbuf2.
  split_and!; [reflexivity | reflexivity | reflexivity |].
  eexists _, ((validation (registry s) ev).2
              ++ [OEmit EvEvent (PEvent ev) (now s); OEmit EvValid (PEvent ev) (now s)]).
  split.
  - apply quiet_app; [apply validation_logs_quiet | by repeat constructor].
  - unfold s2, buffered. red_state. by rewrite <- !app_assoc.
Qed.

(** What one step leaves alone: the clock only moves forward, and a step
    of a burst changes neither the registry, nor the destinations, nor
    the consent state. *)
Lemma burst_step_frame options op s :
  burst_op op = true ->
  let s' := step options op s in
  now s <= now s'
  /\ registry s' = registry s
  /\ destinations s' = destinations s
  /\ c_state s' = c_state s.
Proof.
  intros Hop. cbv zeta. destruct op; try discriminate Hop; cbn [step].
  - destruct (track_fields options ent act props s) as (_ & Hn & Hc & Hd & Hr & _).
    cbv zeta in Hn, Hc, Hd, Hr. rewrite Hn, Hc, Hd, Hr. split_and!; (lia || done).
  - unfold exec, elapse, modify. cbn [snd]. red_state. split_and!; (lia || done).
  - unfold fireCleanupTimer.
    destruct (cleanupTimer s) as [iv|]; [destruct (due iv <=? now s)|];
      unfold sweep; run_m; red_state; split_and!; (lia || done).
  - unfold exec. rewrite runMicrotasks_run. cbn [snd]. red_state.
    split_and!; (lia || done).
Qed.

Lemma burst_step options op s :
  burst_op op = true ->
  Z.of_nat (length (buf s)) + (if buffers options op s then 1 else 0)
    < maxSize (bufferConfig options) ->
  let s' := step options op s in
  (exists new, buf s' = buf s ++ new
     /\ length new = if buffers options op s then 1%nat else 0%nat)
  /\ flushTimer s' =
       match flushTimer s with
       | Some d => Some d
       | None =>
           if buffers options op s
           then Some (now s + timerDelay (maxWait (bufferConfig options)))
           else None
       end
  /\ (exists added, trace s' = trace s ++ added
        /\ Forall (fun o => is_delivery o = false) added).
Proof.
  intros Hop Hroom. cbv zeta.
  assert (Hidle : forall s1,
            buf s1 = buf s -> flushTimer s1 = flushTimer s ->
            (exists added, trace s1 = trace s ++ added
               /\ Forall (fun o => is_delivery o = false) added) ->
            (exists new, buf s1 = buf s ++ new /\ length new = 0%nat)
            /\ flushTimer s1 = match flushTimer s with Some d => Some d | None => None end
            /\ (exists added, trace s1 = trace s ++ added
                  /\ Forall (fun o => is_delivery o = false) added)).
  { intros s1 Hb Ht Htr. split_and!; [|by destruct (flushTimer s) | exact Htr].
    exists []. by rewrite app_nil_r. }
  destruct op; try discriminate Hop.
  - destruct (buffers options (OpTrack ent act props) s) eqn:Hbuffers; cbn [step].
    + destruct (track_buffers options ent act props s Hbuffers Hroom)
        as ((ev & Hbuf) & Htimer & Htrace).
      split_and!; [by exists [ev] | exact Htimer | exact Htrace].
    + destruct (track_rejected options ent act props s Hbuffers) as (Hb & Ht & Htr).
      by apply Hidle.
  - cbn [buffers step]. unfold exec, elapse, modify. cbn [snd].
    apply Hidle; red_state; try reflexivity. exists []. by rewrite app_nil_r.
  - cbn [buffers step]. unfold fireCleanupTimer.
    destruct (cleanupTimer s) as [iv|]; [destruct (due iv <=? now s)|];
      unfold sweep; run_m; apply Hidle; red_state; try reflexivity;
      exists []; by rewrite app_nil_r.
  - cbn [buffers step]. unfold exec. rewrite runMicrotasks_run. cbn [snd].
    apply Hidle; red_state; try reflexivity.
    eexists. split; [reflexivity | apply task_obs_quiet].
Qed.

(** A burst that keeps the buffer below [maxSize]: every accepted event
    is in the buffer, nothing has been dispatched, an armed timer keeps
    its deadline. *)
Lemma burst_run options ops s :
  forallb burst_op ops = true ->
  Z.of_nat (length (buf s) + count_buffered options ops s)
    < maxSize (bufferConfig options) ->
  let s' := run options ops s in
  length (buf s') = (length (buf s) + count_buffered options ops s)%nat
  /\ (count_buffered options ops s = 0%nat ->
      buf s' = buf s /\ flushTimer s' = flushTimer s)
  /\ (forall d, flushTimer s = Some d -> flushTimer s' = Some d)
  /\ now s <= now s'
  /\ registry s' = registry s
  /\ destinations s' = destinations s
  /\ c_state s' = c_state s
  /\ (exists added, trace s' = trace s ++ added
        /\ Forall (fun o => is_delivery o = false) added).
Proof.
  revert s. induction ops as [|op ops IH]; intros s Hops Hroom; cbv zeta.
  - cbn. rewrite Nat.add_0_r. split_and!; try done; try lia.
    exists []. by rewrite app_nil_r.
  - cbn [forallb] in Hops. apply andb_true_iff in Hops as [Hop Hops].
    cbn [count_buffered] in *.
    destruct (burst_step options op s Hop) as
      ((new & Hbuf & Hnew) & Htimer & (added1 & Htr1 & Hq1)).
    { destruct (buffers options op s); lia. }
    destruct (burst_step_frame options op s Hop) as (Hnow & Hr & Hd & Hc).
    assert (Hlen1 : length (buf (step options op s))
                    = (length (buf s) + (if buffers options op s then 1 else 0))%nat).
    { rewrite Hbuf, length_app, Hnew. by destruct (buffers options op s). }
    destruct (IH (step options op s)) as
      (Hlen & Hzero & Hkeep & Hnow2 & Hr2 & Hd2 & Hc2 & (added2 & Htr2 & Hq2)).
    { done. } { rewrite Hlen1. lia. }
    change (run options (op :: ops) s) with (run options ops (step options op s)).
    split_and!.
    + rewrite Hlen, Hlen1. lia.
    + intros Hz. destruct (buffers options op s) eqn:Hbuffers; [discriminate Hz|].
      destruct (Hzero Hz) as [-> ->]. split.
      * rewrite Hbuf. destruct new; [by rewrite app_nil_r | discriminate Hnew].
      * rewrite Htimer. by destruct (flushTimer s).
    + intros d Hd0. apply Hkeep. by rewrite Htimer, Hd0.
    + lia.
    + congruence.
    + congruence.
    + congruence.
    + exists (added1 ++ added2). split.
      * by rewrite Htr2, Htr1, app_assoc.
      * by apply quiet_app.
Qed.

Lemma batch_obs_allowed st ts dests events ne ev :
  ne ∈ dests -> allowed_now st ne = true -> ev ∈ events ->
  OTransform ne.1 ev ∈ batch_obs st ts dests events.
Proof.
  intros Hne Hal Hev. unfold batch_obs.
  apply list_elem_of_In, in_flat_map. exists ev.
  split; [by apply list_elem_of_In|].
  apply list_elem_of_In. by apply pass_obs_allowed.
Qed.

Lemma run_app options ops1 ops2 s :
  run options (ops1 ++ ops2) s = run options ops2 (run options ops1 s).
Proof. unfold run. apply foldl_app. Qed.

(** C7, as stated, fails in two ways. With [maxWait = 2^31] the timer
    does not wait [T]: one millisecond after the first event was tracked
    its callback runs and the event is dispatched. And with a strict
    contract, the third of three [track] calls does not dispatch when
    [maxSize = 3] if one of the three events was rejected: rejected
    events are not buffered. *)
Lemma C7_counterexample :
  (let options := Fixtures.longWaitOptions in
   let s := run options [OpTrack "a" "1" None; OpElapse 1]
              (createCollector options None 0) in
   maxWait (bufferConfig options) = 2147483648
   /\ now s = 1
   /\ length (buf s) = 1%nat
   /\ exists s', fireFlushTimer options s = Some (Returns tt, s')
                 /\ length (transformed_by "test-destination" (trace s')) = 1%nat)
  /\ (let options := Fixtures.strictSmallBufferOptions in
      let s := run options
                 [OpTrack "page" "viewed" None;
                  OpTrack "product" "viewed" (Some Fixtures.badProduct);
                  OpTrack "page" "viewed" None]
                 (createCollector options None 0) in
      maxSize (bufferConfig options) = 3
      /\ length (buf s) = 2%nat
      /\ transformed_by "test-destination" (trace s) = []).
Proof.
  split; cbv zeta.
  - split_and!; try (vm_compute; reflexivity).
    eexists. split; [vm_compute; reflexivity | vm_compute; reflexivity].
  - split_and!; vm_compute; reflexivity.
Qed.

(** C7 (amended). Start from an empty buffer with no timer armed, let
    [N = maxSize] and [T = maxWait], and count the [track] calls whose
    event gets into the buffer (the context resolver returned and
    validation did not reject the event).

    Size: after a burst with [N - 1] such calls nothing has been
    dispatched and the buffer holds the [N - 1] events; the next such
    call returns with the buffer empty and the timer disarmed, having
    dispatched the [N] events, in order, to the destinations: every
    allowed destination had [transform] called with each of them.

    Timer: after a first such call at time [t1] followed by a burst
    that keeps fewer than [N] events in the buffer, the timer's deadline
    is [t1 + D], whatever the later [track] calls, and nothing has been
    dispatched; the timer callback cannot run while [now < t1 + D], and
    when it runs it dispatches the whole buffer. [D] is the delay
    [setTimeout] gives [T]: [T] itself for [1 <= T <= 2^31 - 1], and
    never less than [T] for [T <= 2^31 - 1]. *)
Theorem C7_buffer_flush (options : CreateCollectorOptions) (s0 : CollectorState) :
  buf s0 = [] -> flushTimer s0 = None ->
  let N := maxSize (bufferConfig options) in
  let T := maxWait (bufferConfig options) in
  (forall burst ent act props,
     forallb burst_op burst = true ->
     Z.of_nat (count_buffered options burst s0) + 1 = N ->
     let s := run options burst s0 in
     buffers options (OpTrack ent act props) s = true ->
     let s' := exec (track options ent act props) s in
     (exists quiet, trace s = trace s0 ++ quiet
        /\ Forall (fun o => is_delivery o = false) quiet)
     /\ length (buf s) = count_buffered options burst s0
     /\ outcome (track options ent act props) s = Returns tt
     /\ buf s' = []
     /\ flushTimer s' = None
     /\ exists ev quiet,
          Forall (fun o => is_delivery o = false) quiet
          /\ trace s' = trace s ++ quiet
               ++ batch_obs (c_state s0) (now s) (destinations s0) (buf s ++ [ev])
          /\ forall ne e,
               ne ∈ destinations s0 -> allowed_now (c_state s0) ne = true ->
               e ∈ buf s ++ [ev] -> OTransform ne.1 e ∈ trace s')
  /\ (forall idle ent act props rest,
        forallb burst_op idle = true ->
        count_buffered options idle s0 = 0%nat ->
        let s1 := run options idle s0 in
        buffers options (OpTrack ent act props) s1 = true ->
        let s2 := exec (track options ent act props) s1 in
        forallb burst_op rest = true ->
        Z.of_nat (count_buffered options rest s2) + 1 < N ->
        let t1 := now s1 in
        let D := timerDelay T in
        let s := run options (idle ++ OpTrack ent act props :: rest) s0 in
        length (buf s) = S (count_buffered options rest s2)
        /\ flushTimer s = Some (t1 + D)
        /\ (exists quiet, trace s = trace s0 ++ quiet
              /\ Forall (fun o => is_delivery o = false) quiet)
        /\ (now s < t1 + D -> fireFlushTimer options s = None)
        /\ (t1 + D <= now s ->
            exists s',
              fireFlushTimer options s = Some (Returns tt, s')
              /\ buf s' = []
              /\ flushTimer s' = None
              /\ trace s' = trace s
                   ++ batch_obs (c_state s0) (now s) (destinations s0) (buf s)
              /\ forall ne e,
                   ne ∈ destinations s0 -> allowed_now (c_state s0) ne = true ->
                   e ∈ buf s -> OTransform ne.1 e ∈ trace s'))
  /\ (1 <= T <= TIMEOUT_MAX -> timerDelay T = T)
  /\ (T <= TIMEOUT_MAX -> T <= timerDelay T).
Proof.
  intros Hbuf0 Htimer0 N T. split_and!;
    [| | apply timerDelay_in_range
       | intros Hmax; unfold timerDelay;
         destruct ((1 <=? T) && (T <=? TIMEOUT_MAX)) eqn:Hin; [lia|];
         apply andb_false_iff in Hin as [Hin | Hin];
           [apply Z.leb_gt in Hin | apply Z.leb_gt in Hin]; lia].
  - intros burst ent act props Hburst Hcount s Hbuffers s'.
    destruct (burst_run options burst s0 Hburst) as
      (Hlen & _ & _ & _ & Hr & Hd & Hc & Hquiet).
    { rewrite Hbuf0. cbn [length]. subst N. lia. }
    fold s in Hlen, Hr, Hd, Hc, Hquiet.
    rewrite Hbuf0 in Hlen. cbn [length] in Hlen.
    destruct (track_flushes options ent act props s Hbuffers) as
      (Hout & Hb & Ht & ev & quiet & Hq & Htrace).
    { rewrite Hlen. subst N. lia. }
    fold s' in Hb, Ht, Htrace.
    split; [exact Hquiet|]. split; [exact Hlen|]. split; [exact Hout|].
    split; [exact Hb|]. split; [exact Ht|].
    exists ev, quiet. split; [exact Hq|].
    rewrite Hc, Hd in Htrace. split; [exact Htrace|].
    intros ne e Hne Hal He. rewrite Htrace.
    apply elem_of_app. right. apply elem_of_app. right.
    by apply batch_obs_allowed.
  - intros idle ent act props rest Hidle Hnone s1 Hbuffers s2 Hrest Hcount t1 D s.
    destruct (burst_run options idle s0 Hidle) as
      (_ & Hzero & _ & _ & Hr1 & Hd1 & Hc1 & (q1 & Htr1 & Hq1)).
    { rewrite Hbuf0, Hnone. cbn [length]. subst N. lia. }
    destruct (Hzero Hnone) as [Hb1 Ht1]. clear Hzero.
    fold s1 in Hr1, Hd1, Hc1, Htr1, Hb1, Ht1.
    destruct (track_buffers options ent act props s1 Hbuffers) as
      ((ev & Hb2) & Ht2 & (q2 & Htr2 & Hq2)).
    { rewrite Hb1, Hbuf0. cbn [length]. subst N. lia. }
    destruct (burst_step_frame options (OpTrack ent act props) s1 eq_refl)
      as (_ & Hr2 & Hd2 & Hc2).
    cbn [step] in Hr2, Hd2, Hc2.
    fold s2 in Hb2, Ht2, Htr2, Hr2, Hd2, Hc2.
    rewrite Ht1, Htimer0 in Ht2. rewrite Hb1, Hbuf0 in Hb2. cbn [app] in Hb2.
    destruct (burst_run options rest s2 Hrest) as
      (Hlen & _ & Hkeep & Hn3 & Hr3 & Hd3 & Hc3 & (q3 & Htr3 & Hq3)).
    { rewrite Hb2. cbn [length]. subst N. lia. }
    assert (Hs : s = run options rest s2).
    { subst s s2 s1. rewrite run_app. reflexivity. }
    rewrite <- Hs in Hlen, Hkeep, Hn3, Hr3, Hd3, Hc3, Htr3.
    rewrite Hb2 in Hlen. cbn [length] in Hlen.
    specialize (Hkeep _ Ht2). fold t1 T in Hkeep. fold D in Hkeep.
    split; [exact Hlen|]. split; [exact Hkeep|]. split.
    { exists (q1 ++ q2 ++ q3). split.
      - by rewrite Htr3, Htr2, Htr1, <- !app_assoc.
      - by repeat apply quiet_app. }
    unfold fireFlushTimer, flushTimerDue. rewrite Hkeep. split.
    + intros Hearly. apply Z.leb_gt in Hearly. by rewrite Hearly.
    + intros Hdue. apply Z.leb_le in Hdue. rewrite Hdue.
      rewrite flushBuffer_run. eexists. split; [reflexivity|].
      match goal with |- context [add_effects ?o ?t ?q ?sx] =>
        destruct (add_effects_fields o t q sx)
          as (_ & _ & _ & _ & -> & -> & _ & _ & _ & -> & _) end.
      red_state. split; [reflexivity|]. split; [reflexivity|].
      rewrite Hc3, Hc2, Hc1, Hd3, Hd2, Hd1.
      split; [reflexivity|].
      intros ne e Hne Hal He. apply elem_of_app. right.
      by apply batch_obs_allowed.
Qed.

Lemma C7_witness :
  buf (exec (track Fixtures.strictSmallBufferOptions "a" "3" None)
         (run Fixtures.strictSmallBufferOptions
            [OpTrack "a" "1" None; OpElapse 10;
             OpTrack "product" "viewed" (Some Fixtures.badProduct);
             OpTrack "a" "2" None]
            (createCollector Fixtures.strictSmallBufferOptions None 0))) = []
  /\ flushTimer (run Fixtures.strictSmallBufferOptions
                   ([OpElapse 5] ++ OpTrack "a" "1" None
                      :: [OpElapse 100; OpTrack "a" "2" None])
                   (createCollector Fixtures.strictSmallBufferOptions None 0))
     = Some 2005.
Proof.
  destruct (C7_buffer_flush Fixtures.strictSmallBufferOptions
              (createCollector Fixtures.strictSmallBufferOptions None 0)
              eq_refl eq_refl) as (Hsize & Htimer & _).
  split.
  - apply (Hsize [OpTrack "a" "1" None; OpElapse 10;
                  OpTrack "product" "viewed" (Some Fixtures.badProduct);
                  OpTrack "a" "2" None]
             "a" "3" None); vm_compute; reflexivity.
  - cbv zeta in Htimer.
    apply (Htimer [OpElapse 5] "a" "1" None [OpElapse 100; OpTrack "a" "2" None]);
      vm_compute; reflexivity.
Defined.

(** ** Counting the calls into one destination *)

Lemma transformed_by_app nm t1 t2 :
  transformed_by nm (t1 ++ t2) = transformed_by nm t1 ++ transformed_by nm t2.
Proof. unfold transformed_by. apply flat_map_app. Qed.

Lemma transformed_by_emit nm ty pl ts t :
  transformed_by nm (OEmit ty pl ts :: t) = transformed_by nm t.
Proof. reflexivity. Qed.

Lemma transformed_by_delivery nm ev ts ne :
  transformed_by nm (delivery_obs ev ts ne)
  = if bool_decide (ne.1 = nm) then [ev] else [].
Proof.
  unfold delivery_obs. cbn [transformed_by flat_map].
  destruct (transform (destination ne.2) ev) as [[p|]|e]; cbn [flat_map].
  - destruct (send (destination ne.2) p (config ne.2)); cbn [flat_map];
      by rewrite !app_nil_r.
  - by rewrite app_nil_r.
  - by rewrite !app_nil_r.
Qed.

Lemma transformed_by_pass_absent nm st ev ts dests :
  nm ∉ dests.*1 -> transformed_by nm (pass_obs st ev ts dests) = [].
Proof.
  induction dests as [|ne dests IH]; intros Hfresh; [reflexivity|].
  unfold pass_obs. cbn [flat_map]. fold (pass_obs st ev ts dests).
  rewrite transformed_by_app, IH.
  - rewrite app_nil_r. destruct (allowed_now st ne); [|reflexivity].
    rewrite transformed_by_delivery. rewrite bool_decide_eq_false_2; [done|].
    intros Heq. apply Hfresh. rewrite fmap_cons. rewrite Heq. apply list_elem_of_here.
  - intros Hin. apply Hfresh. rewrite fmap_cons. by apply list_elem_of_further.
Qed.

(** In one pass an allowed destination is handed the event exactly once. *)
Lemma transformed_by_pass nm entry st ev ts dests :
  NoDup dests.*1 -> (nm, entry) ∈ dests ->
  isAllowed st (requiredConsent entry) = true ->
  transformed_by nm (pass_obs st ev ts dests) = [ev].
Proof.
  induction dests as [|ne dests IH]; intros Hnodup Hin Hal.
  - by apply elem_of_nil in Hin.
  - rewrite fmap_cons in Hnodup. apply NoDup_cons in Hnodup as [Hfresh Hnodup].
    unfold pass_obs. cbn [flat_map]. fold (pass_obs st ev ts dests).
    rewrite transformed_by_app.
    apply elem_of_cons in Hin as [<- | Hin].
    + unfold allowed_now. cbn [fst snd]. rewrite Hal.
      rewrite transformed_by_delivery. cbn [fst].
      rewrite bool_decide_eq_true_2 by done.
      by rewrite transformed_by_pass_absent.
    + rewrite IH by done.
      destruct (allowed_now st ne); [|reflexivity].
      rewrite transformed_by_delivery. rewrite bool_decide_eq_false_2; [done|].
      intros Heq. apply Hfresh. rewrite Heq.
      apply (list_elem_of_fmap_2 fst _ _ Hin).
Qed.

Lemma transformed_by_batch nm entry st ts dests events :
  NoDup dests.*1 -> (nm, entry) ∈ dests ->
  isAllowed st (requiredConsent entry) = true ->
  transformed_by nm (batch_obs st ts dests events) = events.
Proof.
  intros Hnodup Hin Hal. induction events as [|ev events IH]; [reflexivity|].
  unfold batch_obs. cbn [flat_map]. fold (batch_obs st ts dests events).
  rewrite transformed_by_app, IH, (transformed_by_pass nm entry) by done.
  reflexivity.
Qed.

Lemma transformed_by_onConsent nm st dests :
  transformed_by nm (onConsent_calls st dests).1 = [].
Proof.
  induction dests as [|ne dests IH]; [reflexivity|].
  cbn [onConsent_calls].
  destruct (onConsent (destination ne.2)) as [callback|]; [|exact IH].
  destruct (callback st); cbn [fst]; [|reflexivity].
  cbn [transformed_by flat_map]. exact IH.
Qed.

(** What one pass puts in the queue: one entry per destination that is
    blocked with a category still undecided. *)
Lemma pass_queue_count config st ev ts dests :
  queueTimeout config <> 0 ->
  pass_queue config st ev ts dests
  = replicate (length (filter (fun ne => blocked_pending st ne) dests))
      {| event := ev; queuedAt := ts |}.
Proof.
  intros Hon. apply Z.eqb_neq in Hon. unfold pass_queue. rewrite Hon. cbn [negb].
  induction dests as [|ne dests IH]; [reflexivity|].
  cbn [flat_map]. rewrite IH. rewrite andb_true_r.
  destruct (blocked_pending st ne) eqn:Hb.
  - rewrite filter_cons_True by (rewrite Hb; exact I). reflexivity.
  - rewrite filter_cons_False by (rewrite Hb; exact (fun H => H)). reflexivity.
Qed.

Lemma pass_queue_off config st ev ts dests :
  queueTimeout config = 0 -> pass_queue config st ev ts dests = [].
Proof.
  intros Hoff. unfold pass_queue. rewrite Hoff. cbn [Z.eqb negb].
  induction dests as [|ne dests IH]; [reflexivity|].
  cbn [flat_map]. rewrite IH. by rewrite andb_false_r.
Qed.

Lemma replayed_app u q1 q2 :
  replayed u (q1 ++ q2) = replayed u q1 ++ replayed u q2.
Proof. unfold replayed. apply map_app. Qed.

Lemma replayed_replicate u n q :
  replayed u (replicate n q) = replicate n (with_user (event q) u).
Proof.
  unfold replayed. induction n as [|n IH]; [reflexivity|].
  cbn [replicate map]. by rewrite IH.
Qed.

(** ** C10: one queue entry per pending destination *)

(** C10, as stated, fails when queuing is switched off: with
    [queueTimeout = 0] and two destinations blocked by the undecided
    category ["analytics"], the pass leaves the queue empty, and a later
    grant hands the event to nobody. *)
Lemma C10_counterexample :
  let options := Fixtures.noQueueTwoOptions in
  let s := createCollector options None 0 in
  let s1 := exec (dispatchToDestinations options Fixtures.pageViewed) s in
  let s2 := exec (consent options Fixtures.grantAnalytics) s1 in
  length (filter (fun ne => blocked_pending (c_state s) ne) (destinations s)) = 2%nat
  /\ queue s1 = []
  /\ transformed_by "a" (trace s2) = []
  /\ transformed_by "b" (trace s2) = [].
Proof. cbv zeta. split_and!; vm_compute; reflexivity. Qed.

(** C10 (amended). One pass of [dispatchToDestinations] calls [enqueue]
    once per registered destination that is blocked with a category that
    reads as undefined; with [k] such destinations the consent queue
    gains [k] entries for the one event when [queueTimeout] is not 0,
    and none when it is 0. A later consent change, when no [onConsent]
    callback throws, replays every drained entry through the whole
    destination loop, so a destination allowed by the new state is handed
    the event, with the current user, once per entry: [k] times for the
    one dispatched event. *)
Theorem C10_duplicate_queue_entries
    (options : CreateCollectorOptions) (ev : JctEvent) (s : CollectorState) :
  let k := length (filter (fun ne => blocked_pending (c_state s) ne)
                     (destinations s)) in
  let copies := if queueTimeout (cfg_consent (opt_config options)) =? 0
                then 0%nat else k in
  let s1 := exec (dispatchToDestinations options ev) s in
  queue s1 = queue s ++ replicate copies {| event := ev; queuedAt := now s |}
  /\ (forall update nm entry,
        NoDup (destinations s).*1 ->
        (nm, entry) ∈ destinations s ->
        (onConsent_calls (update ∪ c_state s) (destinations s)).2 = None ->
        isAllowed (update ∪ c_state s) (requiredConsent entry) = true ->
        let s2 := exec (consent options update) s1 in
        exists added,
          trace s2 = trace s1 ++ added
          /\ transformed_by nm added
             = replayed (cur_user s) (queue s)
               ++ replicate copies (with_user ev (cur_user s))).
Proof.
  intros k copies s1.
  assert (Hs1 : s1 = add_effects
     (pass_obs (c_state s) ev (now s) (destinations s))
     (pass_tasks (c_state s) ev (destinations s))
     (pass_queue (cfg_consent (opt_config options)) (c_state s) ev (now s)
        (destinations s)) s).
  { subst s1. unfold exec. by rewrite dispatchToDestinations_run. }
  destruct (add_effects_fields
     (pass_obs (c_state s) ev (now s) (destinations s))
     (pass_tasks (c_state s) ev (destinations s))
     (pass_queue (cfg_consent (opt_config options)) (c_state s) ev (now s)
        (destinations s)) s)
    as (Hnow & Hst & Hd & Hu & _ & _ & _ & _ & _ & _ & _ & Hq).
  rewrite <- Hs1 in Hnow, Hst, Hd, Hu, Hq.
  assert (Hcopies : pass_queue (cfg_consent (opt_config options)) (c_state s) ev
                      (now s) (destinations s)
                    = replicate copies {| event := ev; queuedAt := now s |}).
  { subst copies.
    destruct (queueTimeout (cfg_consent (opt_config options)) =? 0) eqn:Hoff.
    - apply Z.eqb_eq in Hoff. by apply pass_queue_off.
    - apply Z.eqb_neq in Hoff. by apply pass_queue_count. }
  rewrite Hcopies in Hq.
  split; [exact Hq|].
  intros update nm entry Hnodup Hin Hcalls Hal s2.
  subst s2. unfold exec. rewrite consent_run. cbv zeta.
  rewrite Hst, Hd, Hnow, Hu, Hcalls. cbn [snd].
  match goal with |- context [add_effects ?o ?t ?q ?sx] =>
    destruct (add_effects_fields o t q sx)
      as (_ & _ & _ & _ & _ & _ & _ & _ & _ & -> & _) end.
  eexists. split; [red_state; reflexivity|].
  rewrite transformed_by_emit, !transformed_by_app, transformed_by_onConsent.
  rewrite (transformed_by_batch nm entry) by done.
  rewrite transformed_by_emit. cbn [app]. rewrite app_nil_r.
  by rewrite Hq, replayed_app, replayed_replicate.
Qed.

Lemma C10_witness :
  let s := createCollector Fixtures.twoPendingOptions None 0 in
  let s1 := exec (dispatchToDestinations Fixtures.twoPendingOptions
                    Fixtures.pageViewed) s in
  length (queue s1) = 2%nat
  /\ exists added,
       trace (exec (consent Fixtures.twoPendingOptions Fixtures.grantAnalytics) s1)
       = trace s1 ++ added
       /\ transformed_by "a" added = [Fixtures.pageViewed; Fixtures.pageViewed].
Proof.
  cbv zeta.
  destruct (C10_duplicate_queue_entries Fixtures.twoPendingOptions
              Fixtures.pageViewed
              (createCollector Fixtures.twoPendingOptions None 0))
    as [Hqueue Hreplay].
  split.
  - rewrite Hqueue. vm_compute. reflexivity.
  - destruct (Hreplay Fixtures.grantAnalytics "a"
                (Fixtures.entryOf (Fixtures.mockDestination "a" ["analytics"])))
      as (added & Htrace & Hcalls).
    + change (NoDup ["a"; "b"]). apply NoDup_cons. split; [|apply NoDup_singleton].
      intros Hin. apply list_elem_of_singleton in Hin. discriminate Hin.
    + apply list_elem_of_here.
    + vm_compute. reflexivity.
    + vm_compute. reflexivity.
    + exists added. split; [exact Htrace|]. rewrite Hcalls. vm_compute. reflexivity.
Defined.

(** ** C4: the drain after a consent change is not deferred *)

Lemma onConsent_calls_shape st dests :
  Forall (fun o => exists nm, o = OOnConsent nm st) (onConsent_calls st dests).1.
Proof.
  induction dests as [|ne dests IH]; [constructor|].
  cbn [onConsent_calls].
  destruct (onConsent (destination ne.2)) as [callback|]; [|exact IH].
  destruct (callback st); cbn [fst].
  - constructor; [by eexists | exact IH].
  - constructor; [by eexists | constructor].
Qed.

Lemma onConsent_calls_all st dests ne :
  (onConsent_calls st dests).2 = None ->
  ne ∈ dests -> is_Some (onConsent (destination ne.2)) ->
  OOnConsent ne.1 st ∈ (onConsent_calls st dests).1.
Proof.
  induction dests as [|ne' dests IH]; intros Hnone Hin Hcb.
  - by apply elem_of_nil in Hin.
  - cbn [onConsent_calls] in *.
    apply elem_of_cons in Hin as [<- | Hin].
    + destruct Hcb as [callback Hcb]. rewrite Hcb in *.
      destruct (callback st); cbn [fst snd] in *; [|discriminate Hnone].
      apply list_elem_of_here.
    + destruct (onConsent (destination ne'.2)) as [callback|]; [|by apply IH].
      destruct (callback st); cbn [fst snd] in *; [|discriminate Hnone].
      apply list_elem_of_further. by apply IH.
Qed.

Lemma delivery_obs_shape ev ts ne :
  Forall (fun o => is_dispatch_obs o = true) (delivery_obs ev ts ne).
Proof.
  unfold delivery_obs. constructor; [reflexivity|].
  destruct (transform (destination ne.2) ev) as [[p|]|e].
  - constructor; [reflexivity|].
    destruct (send (destination ne.2) p (config ne.2)); by repeat constructor.
  - constructor.
  - by repeat constructor.
Qed.

Lemma batch_obs_shape st ts dests events :
  Forall (fun o => is_dispatch_obs o = true) (batch_obs st ts dests events).
Proof.
  apply Forall_forall. intros o Ho. unfold batch_obs in Ho.
  apply list_elem_of_In, in_flat_map in Ho as (ev & _ & Ho).
  unfold pass_obs in Ho. apply in_flat_map in Ho as (ne & _ & Ho).
  destruct (allowed_now st ne); [|by destruct Ho].
  pose proof (delivery_obs_shape ev ts ne) as Hshape.
  rewrite Forall_forall in Hshape. apply Hshape. by apply list_elem_of_In.
Qed.

(** C4. The collector's own tests expect the drain to be deferred: after
    [track("page", "viewed")] with ["analytics"] undecided and the flush
    timer fired at 3000 ms, [consent({ analytics: true })] is to return
    before [queue:flush] with count 1 is emitted and before the
    destination's [transform] is called, both happening on the next
    microtask. The code does not defer: when [consent()] returns, the
    destination's [transform] and [send] have been called for the queued
    event, [queue:flush] with count 1 has been emitted, the queue is
    empty and no callback is left for a later microtask, so running the
    microtasks afterwards changes nothing. *)
Theorem C4_consent_drain_not_deferred :
  let options := Fixtures.pendingOptions in
  let s := run options [OpTrack "page" "viewed" None; OpElapse 3000; OpFlushTimer]
             (createCollector options None 0) in
  let s' := exec (consent options Fixtures.grantAnalytics) s in
  length (queue s) = 1%nat
  /\ transformed_by "ga" (trace s) = []
  /\ outcome (consent options Fixtures.grantAnalytics) s = Returns tt
  /\ length (transformed_by "ga" (trace s')) = 1%nat
  /\ length (sends_of "ga" (trace s')) = 1%nat
  /\ last (trace s') = Some (OEmit EvQueueFlush (PQueueFlush 1) 3000)
  /\ queue s' = []
  /\ microtasks s' = []
  /\ exec (runMicrotasks options) s' = s'.
Proof. cbv zeta. split_and!; vm_compute; reflexivity. Qed.

(** ** The consent change handler, step by step *)

(** The drain and the re-dispatch run inside the [consent()] call. When
    no [onConsent] callback throws, [consent()] returns normally and
    what it added to the trace is, in this order: the [consent] emission
    with the merged state, the [onConsent] calls (one for every
    destination that has the callback), the re-dispatch of the queued
    events with the current user, and the [queue:flush] emission with
    the drained count. Every destination allowed by the merged state is
    handed each queued event exactly once, in queue order, before
    [consent()] returns; the only callbacks left for later are those of
    [send] promises that reject. *)
Theorem consent_handler_runs_inside_consent
    (options : CreateCollectorOptions) (update : ConsentState) (s : CollectorState) :
  (onConsent_calls (update ∪ c_state s) (destinations s)).2 = None ->
  let st := update ∪ c_state s in
  let s' := exec (consent options update) s in
  let events := replayed (cur_user s) (queue s) in
  let callbacks := (onConsent_calls st (destinations s)).1 in
  let redispatch := batch_obs st (now s) (destinations s) events in
  outcome (consent options update) s = Returns tt
  /\ c_state s' = st
  /\ trace s' = trace s
       ++ [OEmit EvConsent (PConsent st) (now s)]
       ++ callbacks
       ++ redispatch
       ++ [OEmit EvQueueFlush (PQueueFlush (length (queue s))) (now s)]
  /\ Forall (fun o => exists nm, o = OOnConsent nm st) callbacks
  /\ (forall ne, ne ∈ destinations s -> is_Some (onConsent (destination ne.2)) ->
        OOnConsent ne.1 st ∈ callbacks)
  /\ Forall (fun o => is_dispatch_obs o = true) redispatch
  /\ (forall nm entry,
        NoDup (destinations s).*1 -> (nm, entry) ∈ destinations s ->
        isAllowed st (requiredConsent entry) = true ->
        transformed_by nm redispatch = events)
  /\ microtasks s' = microtasks s ++ batch_tasks st (destinations s) events.
Proof.
  intros Hcalls st s' events callbacks redispatch.
  subst st s' events callbacks redispatch.
  unfold exec, outcome. rewrite consent_run. cbv zeta.
  rewrite Hcalls. cbn [fst snd].
  match goal with |- context [add_effects ?o ?t ?q ?sx] =>
    destruct (add_effects_fields o t q sx)
      as (_ & -> & _ & _ & _ & _ & _ & _ & _ & -> & -> & _) end.
  split; [reflexivity|]. split; [by destruct s|].
  split; [by destruct s|].
  split; [apply onConsent_calls_shape|].
  split; [intros ne Hin Hcb; by apply onConsent_calls_all|].
  split; [apply batch_obs_shape|].
  split; [|by destruct s].
  intros nm entry Hnodup Hin Hal. by apply (transformed_by_batch nm entry).
Qed.

Lemma consent_handler_runs_inside_consent_witness :
  outcome (consent Fixtures.pendingOptions Fixtures.grantAnalytics)
    (run Fixtures.pendingOptions [OpTrack "page" "viewed" None; OpFlush]
       (createCollector Fixtures.pendingOptions None 0)) = Returns tt.
Proof.
  apply (consent_handler_runs_inside_consent Fixtures.pendingOptions
           Fixtures.grantAnalytics
           (run Fixtures.pendingOptions [OpTrack "page" "viewed" None; OpFlush]
              (createCollector Fixtures.pendingOptions None 0))).
  vm_compute. reflexivity.
Defined.

(** ** C3: replay of a queued event *)

(** C3. With two destinations waiting for ["analytics"], one tracked
    event is queued twice by the flush; after [identify] and
    [consent({ analytics: true })] each of the two destinations has had
    [transform] and [send] called twice for that one event, not once.
    Every replayed event carries the identity current at the consent
    change. With a single waiting destination the same run gives exactly
    one [transform] and one [send] call. *)
Theorem C3_replay_duplicates :
  (let s := run Fixtures.twoPendingOptions
              [OpTrack "page" "viewed" None; OpFlush; OpIdentify "user-42" None]
              (createCollector Fixtures.twoPendingOptions None 0) in
   let s' := exec (consent Fixtures.twoPendingOptions Fixtures.grantAnalytics) s in
   transformed_by "a" (trace s) = []
   /\ transformed_by "b" (trace s) = []
   /\ length (queue s) = 2%nat
   /\ length (transforms_of "a" (trace s')) = 2%nat
   /\ length (sends_of "a" (trace s')) = 2%nat
   /\ length (transforms_of "b" (trace s')) = 2%nat
   /\ length (sends_of "b" (trace s')) = 2%nat
   /\ Forall (fun e => entity e = "page" /\ user e = cur_user s
                       /\ userId (user e) = Some "user-42")
        (transformed_by "a" (trace s') ++ transformed_by "b" (trace s')))
  /\ (let s := run Fixtures.pendingOptions
                 [OpTrack "page" "viewed" None; OpFlush; OpIdentify "user-42" None]
                 (createCollector Fixtures.pendingOptions None 0) in
      let s' := exec (consent Fixtures.pendingOptions Fixtures.grantAnalytics) s in
      length (transforms_of "ga" (trace s')) = 1%nat
      /\ length (sends_of "ga" (trace s')) = 1%nat
      /\ Forall (fun e => user e = cur_user s) (transformed_by "ga" (trace s'))).
Proof.
  split; cbv zeta.
  - split_and!; try (vm_compute; reflexivity).
    vm_compute. repeat constructor.
  - split_and!; try (vm_compute; reflexivity).
    vm_compute. repeat constructor.
Qed.

(** ** C8: an [onConsent] callback that throws *)

(** C8. With two destinations of which the first throws in [onConsent],
    and two entries in the consent queue, [consent({ analytics: true })]
    returns normally, but all it does after merging the state is: emit
    [consent], call the first destination's [onConsent], and log the
    exception caught by [notify]. The second destination's [onConsent] is
    not called, the queue is not drained, nothing is re-dispatched and
    [queue:flush] is not emitted. *)
Theorem C8_onConsent_throw_aborts_handler :
  let s := run Fixtures.onConsentThrowsOptions
             [OpTrack "page" "viewed" None; OpFlush]
             (createCollector Fixtures.onConsentThrowsOptions None 0) in
  let s' := exec (consent Fixtures.onConsentThrowsOptions Fixtures.grantAnalytics) s in
  outcome (consent Fixtures.onConsentThrowsOptions Fixtures.grantAnalytics) s
    = Returns tt
  /\ length (queue s) = 2%nat
  /\ trace s' = trace s
       ++ [OEmit EvConsent (PConsent Fixtures.grantAnalytics) 0;
           OOnConsent "a" Fixtures.grantAnalytics;
           OConsoleError "[Junction] Consent listener error:"
             (JStr "onConsent failed")]
  /\ queue s' = queue s
  /\ transformed_by "a" (trace s') = []
  /\ transformed_by "b" (trace s') = [].
Proof.
  cbv zeta. split_and!; vm_compute; reflexivity.
Qed.

(** ** An event that was dropped is never dispatched *)

Lemma delivery_obs_event ev ts ne nm e :
  OTransform nm e ∈ delivery_obs ev ts ne -> e = ev.
Proof.
  unfold delivery_obs. intros Hin.
  apply elem_of_cons in Hin as [Heq | Hin]; [by inversion Heq|].
  destruct (transform (destination ne.2) ev) as [[p|]|err].
  - apply elem_of_cons in Hin as [Heq | Hin]; [discriminate Heq|].
    destruct (send (destination ne.2) p (config ne.2));
      apply list_elem_of_singleton in Hin; discriminate Hin.
  - by apply elem_of_nil in Hin.
  - apply list_elem_of_singleton in Hin. discriminate Hin.
Qed.

Lemma batch_obs_event st ts dests events nm e :
  OTransform nm e ∈ batch_obs st ts dests events -> e ∈ events.
Proof.
  unfold batch_obs, pass_obs. intros Hin.
  apply list_elem_of_In, in_flat_map in Hin as (ev & Hev & Hin).
  apply in_flat_map in Hin as (ne & _ & Hin).
  destruct (allowed_now st ne); [|by destruct Hin].
  apply list_elem_of_In, delivery_obs_event in Hin as ->.
  by apply list_elem_of_In.
Qed.

Lemma batch_queue_event config st ts dests events q :
  q ∈ batch_queue config st ts dests events -> event q ∈ events.
Proof.
  unfold batch_queue, pass_queue. intros Hin.
  apply list_elem_of_In, in_flat_map in Hin as (ev & Hev & Hin).
  apply in_flat_map in Hin as (ne & _ & Hin).
  destruct (_ && _); [|by destruct Hin].
  destruct Hin as [<- | []]. by apply list_elem_of_In.
Qed.

Lemma unobserved_refl n s : avoids n s -> unobserved n s s.
Proof. intros Hav. split; [exact Hav|]. intros nm e Hin. by left. Qed.

Lemma unobserved_trans n s1 s2 s3 :
  unobserved n s1 s2 -> unobserved n s2 s3 -> unobserved n s1 s3.
Proof.
  intros [_ H12] [Hav H23]. split; [exact Hav|].
  intros nm e Hin. destruct (H23 nm e Hin) as [Hin2 | Hne]; [|by right].
  by apply H12.
Qed.

(** A change that keeps the stored events and adds no [transform] call. *)
Lemma unobserved_quiet n s s' added :
  avoids n s ->
  buf s' = buf s -> queue s' = queue s -> (idSupply s <= idSupply s')%nat ->
  trace s' = trace s ++ added ->
  Forall (fun o => is_delivery o = false) added ->
  unobserved n s s'.
Proof.
  intros (Hb & Hq & Hn) Hbuf Hqueue Hsup Htrace Hquiet. split.
  - unfold avoids. rewrite Hbuf, Hqueue. repeat split; [done|done|lia].
  - intros nm e Hin. left. rewrite Htrace in Hin.
    by apply (quiet_not_delivered (trace s) added).
Qed.

Lemma flushBuffer_unobserved options n s :
  avoids n s -> unobserved n s (exec (flushBuffer options) s).
Proof.
  intros (Hb & Hq & Hn). unfold exec. rewrite flushBuffer_run. cbn [snd].
  match goal with |- context [add_effects ?o ?t ?q ?sx] =>
    destruct (add_effects_fields o t q sx)
      as (_ & _ & _ & _ & Hbuf & _ & Hsup & _ & _ & Htrace & _ & Hqueue) end.
  split.
  - unfold avoids. rewrite Hbuf, Hqueue, Hsup. red_state. repeat split.
    + intros e He. by apply elem_of_nil in He.
    + intros q Hin. apply elem_of_app in Hin as [Hin | Hin]; [by apply Hq|].
      apply Hb. by apply batch_queue_event in Hin.
    + exact Hn.
  - intros nm e Hin. rewrite Htrace in Hin. unfold_state.
    apply elem_of_app in Hin as [Hin | Hin]; [by left|].
    right. apply Hb. by apply batch_obs_event in Hin.
Qed.

Lemma validation_id reg ev : id (v_event (validation reg ev).1) = id ev.
Proof.
  unfold validation.
  destruct (findContract reg (entity ev) (action ev)) as [c|]; [|reflexivity].
  destruct (schema c (properties ev)); [reflexivity| |reflexivity].
  by destruct (mode c).
Qed.

Lemma track_unobserved options n ent act props s :
  avoids n s -> unobserved n s (exec (track options ent act props) s).
Proof.
  intros Hav. pose proof Hav as (Hb & Hq & Hn).
  unfold exec. rewrite track_run.
  destruct (context_at options (now s)) as [ctx|e]; [|by apply unobserved_refl].
  cbv zeta.
  set (ev := built_event options s ent act props ctx).
  pose proof (validation_logs_quiet (registry s) ev) as Hlogs.
  destruct (valid (validation (registry s) ev).1).
  - assert (Hmid : unobserved n s
                     (buffered s ev (validation (registry s) ev).1
                        (validation (registry s) ev).2)).
    { unfold buffered. split.
      - unfold avoids. red_state. repeat split; [|done|lia].
        intros e He. apply elem_of_app in He as [He | He]; [by apply Hb|].
        apply list_elem_of_singleton in He as ->.
        rewrite validation_id. subst ev. cbn [id built_event]. lia.
      - intros nm e Hin. left. unfold_state.
        assert (Hquiet : Forall (fun o => is_delivery o = false)
                  ((validation (registry s) ev).2
                   ++ [OEmit EvEvent (PEvent ev) (now s);
                       OEmit EvValid (PEvent ev) (now s)])).
        { apply quiet_app; [exact Hlogs | by repeat constructor]. }
        by apply (quiet_not_delivered (trace s) _ _ Hquiet Hin). }
    apply (unobserved_trans n s _ _ Hmid).
    destruct Hmid as [Hav2 _].
    match goal with |- context [if ?c then _ else _] => destruct c end.
    + by apply flushBuffer_unobserved.
    + rewrite scheduleFlush_run. cbn [snd].
      destruct (flushTimer _); [by apply unobserved_refl|].
      apply (unobserved_quiet n _ _ []); try done.
      by rewrite app_nil_r.
  - cbn [snd].
    apply (unobserved_quiet n s _
             ((validation (registry s) ev).2
              ++ rejection_obs options ev (validation (registry s) ev).1 (now s)));
      try done.
    + red_state. lia.
    + apply quiet_app; [exact Hlogs | apply rejection_obs_quiet].
Qed.

Lemma consent_unobserved options n update s :
  avoids n s -> unobserved n s (exec (consent options update) s).
Proof.
  intros Hav. pose proof Hav as (Hb & Hq & Hn).
  unfold exec. rewrite consent_run. cbv zeta.
  pose proof (onConsent_calls_shape (update ∪ c_state s) (destinations s)) as Hshape.
  assert (Hcalls : Forall (fun o => is_delivery o = false)
                     (onConsent_calls (update ∪ c_state s) (destinations s)).1).
  { eapply Forall_impl; [exact Hshape|]. by intros o [nm ->]. }
  destruct (onConsent_calls (update ∪ c_state s) (destinations s)).2 as [e|];
    cbn [snd].
  - eapply (unobserved_quiet n s _ _ Hav); try reflexivity.
    constructor; [reflexivity|]. apply quiet_app; [exact Hcalls|].
    by repeat constructor.
  - match goal with |- context [add_effects ?o ?t ?q ?sx] =>
      destruct (add_effects_fields o t q sx)
        as (_ & _ & _ & _ & Hbuf & _ & Hsup & _ & _ & Htrace & _ & Hqueue) end.
    assert (Hreplayed : forall e, e ∈ replayed (cur_user s) (queue s) -> id e <> n).
    { intros e He. unfold replayed in He.
      apply list_elem_of_In, in_map_iff in He as (q & <- & Hin).
      apply (Hq q). by apply list_elem_of_In. }
    split.
    + unfold avoids. rewrite Hbuf, Hqueue, Hsup. red_state. repeat split; [done| |done].
      intros q Hin. apply Hreplayed. by apply batch_queue_event in Hin.
    + intros nm e Hin. rewrite Htrace in Hin. unfold_state.
      apply elem_of_app in Hin as [Hin | Hin]; [by left|]. right.
      apply elem_of_cons in Hin as [Heq | Hin]; [discriminate Heq|].
      apply elem_of_app in Hin as [Hin | Hin].
      { rewrite Forall_forall in Hcalls. by specialize (Hcalls _ Hin). }
      apply elem_of_app in Hin as [Hin | Hin].
      { apply Hreplayed. by apply batch_obs_event in Hin. }
      apply list_elem_of_singleton in Hin. discriminate Hin.
Qed.

Lemma step_unobserved options n op s :
  avoids n s -> unobserved n s (step options op s).
Proof.
  intros Hav. destruct op; cbn [step].
  - by apply track_unobserved.
  - unfold identify, exec, bind, modify. cbn [fst snd].
    match goal with |- unobserved _ _ (track _ _ _ _ ?s1).2 =>
      apply (unobserved_trans n s s1) end.
    + apply (unobserved_quiet n s _ []); try done. by rewrite app_nil_r.
    + apply track_unobserved. by destruct Hav as (? & ? & ?).
  - by apply consent_unobserved.
  - by apply flushBuffer_unobserved.
  - apply (unobserved_quiet n s _ []); try done. by rewrite app_nil_r.
  - unfold exec, removeDestination. run_m.
    destruct (map_get nm (destinations s)) as [entry|]; [|by apply unobserved_refl].
    destruct (teardown (destination entry)) as [[[]|e]|]; cbn [snd].
    + apply (unobserved_quiet n s _ [OTeardown nm]); try done. by repeat constructor.
    + apply (unobserved_quiet n s _ [OTeardown nm]); try done. by repeat constructor.
    + apply (unobserved_quiet n s _ []); try done. by rewrite app_nil_r.
  - apply (unobserved_quiet n s _ []); try done. by rewrite app_nil_r.
  - unfold fireFlushTimer. destruct (flushTimerDue s); [|by apply unobserved_refl].
    by apply flushBuffer_unobserved.
  - unfold fireCleanupTimer.
    destruct (cleanupTimer s) as [iv|]; [|by apply unobserved_refl].
    destruct (due iv <=? now s); [|by apply unobserved_refl].
    unfold sweep. run_m. destruct Hav as (Hb & Hq & Hn). split.
    + unfold avoids. red_state. repeat split; [done| |done].
      intros q Hin. apply list_elem_of_filter in Hin as [_ Hin]. by apply Hq.
    + intros nm e Hin. by left.
  - unfold exec. rewrite runMicrotasks_run. cbn [snd].
    apply (unobserved_quiet n s _
             (flat_map (task_obs options (now s)) (microtasks s))); try done.
    apply task_obs_quiet.
Qed.

Lemma run_unobserved options n ops s :
  avoids n s -> unobserved n s (run options ops s).
Proof.
  revert s. induction ops as [|op ops IH]; intros s Hav.
  - by apply unobserved_refl.
  - change (run options (op :: ops) s) with (run options ops (step options op s)).
    pose proof (step_unobserved options n op s Hav) as Hstep.
    apply (unobserved_trans n s _ _ Hstep). apply IH. by destruct Hstep.
Qed.

(** ** C6: strict contracts *)

Lemma validate_strict_failure ev s c err :
  findContract (registry s) (entity ev) (action ev) = Some c ->
  mode c = strict ->
  schema c (properties ev) = ParseFailure err ->
  validate ev s =
  (Returns {| valid := false; v_event := ev; errors := Some err; coerced := None |},
   s).
Proof.
  intros Hfind Hmode Hparse. unfold validate. run_m.
  rewrite Hfind, Hparse, Hmode. reflexivity.
Qed.

Lemma findContract_registered c s :
  findContract (registry (exec (register c) s)) (c_entity c) (c_action c) = Some c.
Proof.
  unfold exec, register, findContract. run_m. destruct s; unfold_state.
  by rewrite lookup_insert_eq.
Qed.

(** C6. When the contract found for the event is in strict mode and its
    schema rejects the properties, [validate] returns [valid: false] with
    the event it was given and the schema's error, and changes nothing;
    [track] then returns after emitting [event:invalid] with the event and
    the error (and, in debug mode, logging one warning): the buffer, the
    consent queue, the flush timer and the pending callbacks are as
    before, so the event is stored nowhere and nothing [track] added to
    the trace is a call into a destination. When the identifiers of the
    stored events are older than the supply, no later run of the
    collector hands an event with the dropped event's identifier to any
    [transform]. A contract that has just been registered is the one
    found for its own entity and action. *)
Theorem C6_strict_invalid_dropped
    (options : CreateCollectorOptions) (s : CollectorState)
    (ent act : string) (props : option Props)
    (c : EventContract) (err : JsVal) (ctx : Props) :
  findContract (registry s) ent act = Some c ->
  mode c = strict ->
  schema c (default ∅ props) = ParseFailure err ->
  context_at options (now s) = Returns ctx ->
  let ev := built_event options s ent act props ctx in
  let s' := exec (track options ent act props) s in
  let added :=
    OEmit EvInvalid (PInvalid ev (Some err)) (now s)
    :: if debug (opt_config options)
       then [OConsoleWarn "[Junction] Event validation failed:" (flatten (Some err))]
       else [] in
  (forall s0, registry s0 = registry s ->
     validate ev s0 =
     (Returns {| valid := false; v_event := ev; errors := Some err;
                 coerced := None |}, s0))
  /\ outcome (track options ent act props) s = Returns tt
  /\ s' = set_trace (fun t => t ++ added) (set_idSupply S s)
  /\ trace s' = trace s ++ added
  /\ buf s' = buf s
  /\ queue s' = queue s
  /\ flushTimer s' = flushTimer s
  /\ microtasks s' = microtasks s
  /\ (forall o, o ∈ trace s' -> is_delivery o = true -> o ∈ trace s)
  /\ ((forall e, e ∈ buf s -> (id e < idSupply s)%nat) ->
      (forall q, q ∈ queue s -> (id (event q) < idSupply s)%nat) ->
      forall ops nm e,
        OTransform nm e ∈ trace (run options ops s') -> id e = id ev ->
        OTransform nm e ∈ trace s)
  /\ (forall s0 c0,
        findContract (registry (exec (register c0) s0)) (c_entity c0) (c_action c0)
        = Some c0).
Proof.
  intros Hfind Hmode Hparse Hctx ev s' added.
  assert (Hval : forall s0, registry s0 = registry s ->
     validate ev s0 =
     (Returns {| valid := false; v_event := ev; errors := Some err;
                 coerced := None |}, s0)).
  { intros s0 Hreg. apply validate_strict_failure with (c := c); [|done|done].
    by rewrite Hreg. }
  assert (Hrun : track options ent act props s =
    (Returns tt, set_trace (fun t => t ++ added) (set_idSupply S s))).
  { rewrite track_run, Hctx. cbv zeta. fold ev. unfold validation.
    change (entity ev) with ent. change (action ev) with act.
    change (properties ev) with (default ∅ props).
    rewrite Hfind, Hparse, Hmode. cbn [fst snd valid]. f_equal. }
  subst s'. unfold exec, outcome. rewrite Hrun. cbn [fst snd].
  split; [exact Hval|]. split; [reflexivity|]. split; [reflexivity|].
  clear Hval Hrun Hfind Hparse Hctx.
  assert (Hadded : Forall (fun o => is_delivery o = false) added).
  { unfold added. destruct (debug (opt_config options)); by repeat constructor. }
  assert (Hquiet : forall o,
    o ∈ trace s ++ added -> is_delivery o = true -> o ∈ trace s).
  { intros o Ho Hdel. by apply (quiet_not_delivered (trace s) added). }
  red_state. split_and!; try reflexivity.
  - exact Hquiet.
  - intros Hbuf Hqueue ops nm e Hin Hid.
    assert (Hav : avoids (idSupply s)
              (set_trace (fun t => t ++ added) (set_idSupply S s))).
    { unfold avoids. red_state. split_and!.
      - intros e0 He0. specialize (Hbuf e0 He0). lia.
      - intros q Hq. specialize (Hqueue q Hq). lia.
      - lia. }
    destruct (run_unobserved options (idSupply s) ops _ Hav) as [_ Hrun].
    destruct (Hrun nm e Hin) as [Hold | Hne].
    + unfold_state. by apply Hquiet.
    + exfalso. apply Hne. rewrite Hid. reflexivity.
  - intros s0 c0. apply findContract_registered.
Qed.

Lemma C6_witness :
  let s := createCollector Fixtures.debugStrictOptions None 0 in
  let s' := exec (track Fixtures.debugStrictOptions "product" "viewed"
                    (Some Fixtures.badProduct)) s in
  buf s' = []
  /\ length (trace s') = 2%nat
  /\ forall nm e,
       OTransform nm e
         ∈ trace (run Fixtures.debugStrictOptions
                    [OpTrack "page" "viewed" None; OpFlush] s') ->
       id e = 1%nat -> OTransform nm e ∈ trace s.
Proof.
  cbv zeta.
  pose proof (C6_strict_invalid_dropped Fixtures.debugStrictOptions
       (createCollector Fixtures.debugStrictOptions None 0)
       "product" "viewed" (Some Fixtures.badProduct)
       (Fixtures.productViewed strict) (JStr "invalid product") ∅)
    as Hdrop.
  cbv zeta in Hdrop.
  destruct Hdrop as (_ & _ & _ & Htrace & Hbuf & _ & _ & _ & _ & Hnever & _).
  - vm_compute. reflexivity.
  - reflexivity.
  - vm_compute. reflexivity.
  - vm_compute. reflexivity.
  - split_and!; [exact Hbuf | by rewrite Htrace |].
    intros nm e Hin Hid.
    apply (Hnever
             ltac:(intros e0 He0; by apply elem_of_nil in He0)
             ltac:(intros q Hq; by apply elem_of_nil in Hq)
             [OpTrack "page" "viewed" None; OpFlush] nm e Hin Hid).
Defined.

(** * Further properties of the consent manager, the validator and the
      collector *)

(** ** Consent state and the three-way gate *)

Lemma consent_lookup options update s (k : ConsentCategory) :
  c_state (exec (consent options update) s) !! k
  = match update !! k with
    | Some b => Some b
    | None => c_state s !! k
    end.
Proof.
  destruct (consent_fields options update s) as (_ & _ & _ & _ & _ & _ & Hst & _).
  cbv zeta in Hst. rewrite Hst, lookup_union.
  destruct (update !! k), (c_state s !! k); reflexivity.
Qed.

(** [consent(update)] merges: a category named by the update takes the
    update's value, every other category keeps its value; this holds
    whether or not an [onConsent] callback throws, and [getConsent] then
    returns the merged state. The update's value may be [undefined]: the
    key is then stored holding [undefined], so a category that was
    granted or denied is pending again and no longer allowed. *)
Theorem consent_merges_state
    (options : CreateCollectorOptions) (update : ConsentState)
    (s : CollectorState) (k : ConsentCategory) :
  let s' := exec (consent options update) s in
  c_state s' !! k
    = match update !! k with
      | Some v => Some v
      | None => c_state s !! k
      end
  /\ outcome getConsent s' = Returns (update ∪ c_state s)
  /\ (update !! k = Some None ->
      isPending (c_state s') [k] = true
      /\ (k <> "necessary" -> isAllowed (c_state s') [k] = false)).
Proof.
  cbv zeta. split; [apply consent_lookup|].
  destruct (consent_fields options update s) as (_ & _ & _ & _ & _ & _ & Hst & _).
  cbv zeta in Hst. split.
  { unfold outcome, getConsent, getState, gets. cbn [fst]. by rewrite Hst. }
  intros Hundef.
  assert (Hk : c_state (exec (consent options update) s) !! k = Some None)
    by (by rewrite consent_lookup, Hundef).
  split.
  - apply isPending_true_iff. exists k. split; [apply list_elem_of_here|].
    apply reads_undefined_iff. by left.
  - intros Hnec. apply isAllowed_false; [done| |].
    + intros Hall. by apply Forall_cons in Hall as [? _].
    + intros c Hc. apply list_elem_of_singleton in Hc as ->. by rewrite Hk.
Qed.

Lemma consent_merges_state_witness :
  let options := Fixtures.smallBufferOptions in
  let s := createCollector options None 0 in
  let s' := exec (consent options {[ "analytics" := None ]}) s in
  isAllowed (c_state s) ["analytics"] = true
  /\ isPending (c_state s') ["analytics"] = true
  /\ isAllowed (c_state s') ["analytics"] = false.
Proof.
  cbv zeta.
  pose proof (consent_merges_state Fixtures.smallBufferOptions
                {[ "analytics" := None ]}
                (createCollector Fixtures.smallBufferOptions None 0) "analytics") as H.
  cbv zeta in H. destruct H as (_ & _ & H).
  destruct (H eq_refl) as [Hpending Hblocked].
  split_and!; [vm_compute; reflexivity | exact Hpending |].
  apply Hblocked. discriminate.
Defined.

(** The gate of the dispatch loop has exactly three outcomes. A
    destination is neither allowed nor pending (its events are dropped)
    exactly when its requirement list is not empty, is not made of
    ["necessary"] only, and every category in it is either explicitly
    false or not set at all but named like a member of
    [Object.prototype] (such a name never reads as undefined). *)
Theorem dropped_iff_all_denied
    (st : ConsentState) (required : list ConsentCategory) :
  (isAllowed st required = false /\ isPending st required = false)
  <->
  (required <> []
   /\ ~ Forall (fun c => c = "necessary") required
   /\ Forall (fun c => st !! c = Some (Some false)
                       \/ (st !! c = None /\ c ∈ objectPrototypeKeys)) required).
Proof.
  split.
  - intros [Hal Hpend]. split_and!.
    + intros ->. discriminate Hal.
    + intros Hnec. assert (isAllowed st required = true); [|congruence].
      apply isAllowed_true_iff. by right; left.
    + apply Forall_forall. intros c Hc.
      assert (Hread : reads_undefined st c = false)
        by (by apply (proj1 (isPending_false_iff st required))).
      unfold reads_undefined in Hread.
      destruct (st !! c) as [[[|]|]|] eqn:Hlook.
      * assert (isAllowed st required = true); [|congruence].
        apply isAllowed_true_iff. right; right. by exists c.
      * by left.
      * by rewrite bool_decide_eq_true_2 in Hread.
      * right. split; [reflexivity|].
        apply negb_false_iff, bool_decide_eq_true in Hread. exact Hread.
  - intros (Hne & Hnec & Hall). rewrite Forall_forall in Hall. split.
    + apply isAllowed_false; [done|done|].
      intros c Hc. destruct (Hall c Hc) as [-> | [-> _]]; discriminate.
    + apply isPending_false_iff. intros c Hc. unfold reads_undefined.
      destruct (Hall c Hc) as [-> | [-> Hproto]]; [reflexivity|].
      by rewrite bool_decide_eq_true_2.
Qed.

Lemma dropped_iff_all_denied_witness :
  isAllowed {[ "marketing" := Some false ]} ["marketing"; "toString"] = false
  /\ isPending {[ "marketing" := Some false ]} ["marketing"; "toString"] = false.
Proof.
  apply (proj2 (dropped_iff_all_denied {[ "marketing" := Some false ]}
                  ["marketing"; "toString"])).
  split_and!.
  - discriminate.
  - intros H. inversion H as [|? ? Hhd _]. discriminate Hhd.
  - constructor; [left; vm_compute; reflexivity|].
    constructor; [|constructor].
    right. split; [vm_compute; reflexivity|].
    apply list_elem_of_In. vm_compute. tauto.
Defined.

(** If every category that is true in [st] is true in [st'], whatever
    [st] allows [st'] allows. *)
Lemma isAllowed_monotone
    (st st' : ConsentState) (required : list ConsentCategory) :
  (forall c, st !! c = Some (Some true) -> st' !! c = Some (Some true)) ->
  isAllowed st required = true ->
  isAllowed st' required = true.
Proof.
  intros Hmono Hal. apply isAllowed_true_iff in Hal. apply isAllowed_true_iff.
  destruct Hal as [-> | [Hnec | (c & Hc & Htrue)]]; [by left | by right; left |].
  right; right. exists c. split; [done|]. by apply Hmono.
Qed.

(** Granting never revokes: a [consent] update that only sets
    categories to true keeps every allowed requirement list allowed. *)
Theorem grant_keeps_allowed
    (options : CreateCollectorOptions) (update : ConsentState)
    (s : CollectorState) (required : list ConsentCategory) :
  (forall c v, update !! c = Some v -> v = Some true) ->
  isAllowed (c_state s) required = true ->
  isAllowed (c_state (exec (consent options update) s)) required = true.
Proof.
  intros Hgrants Hal.
  apply (isAllowed_monotone (c_state s)); [|done].
  intros c Htrue.
  rewrite consent_lookup.
  destruct (update !! c) as [b|] eqn:Hup; [|done].
  by rewrite (Hgrants c b Hup).
Qed.

Lemma grant_keeps_allowed_witness :
  isAllowed (c_state (exec (consent Fixtures.smallBufferOptions
                              {[ "marketing" := Some true ]})
                        (createCollector Fixtures.smallBufferOptions None 0)))
    ["analytics"] = true.
Proof.
  apply grant_keeps_allowed.
  - intros c b Hlook.
    apply lookup_singleton_Some in Hlook as [_ <-]. reflexivity.
  - vm_compute. reflexivity.
Defined.

(** ** The contract registry *)

Lemma key_inj_action ent a b : key ent a = key ent b -> a = b.
Proof.
  unfold key. intros Heq.
  apply (String.app_inj ent) in Heq. by apply (String.app_inj ":") in Heq.
Qed.

Lemma registry_register c s :
  registry (exec (register c) s) = <[ key (c_entity c) (c_action c) := c ]> (registry s).
Proof. reflexivity. Qed.

(** Precedence of the exact contract over the wildcard. With a wildcard
    contract [w] and an exact contract [x] registered for the same
    entity, in either order, an event with [x]'s action is validated
    against [x], and an event with any other action that has no contract
    of its own is validated against [w]. *)
Theorem exact_contract_precedes_wildcard
    (w x : EventContract) (s : CollectorState) :
  c_entity w = c_entity x ->
  c_action w = "*" ->
  c_action x <> "*" ->
  let ent := c_entity x in
  let s_wx := exec (register x) (exec (register w) s) in
  let s_xw := exec (register w) (exec (register x) s) in
  findContract (registry s_wx) ent (c_action x) = Some x
  /\ findContract (registry s_xw) ent (c_action x) = Some x
  /\ (forall b, b <> c_action x -> registry s !! key ent b = None ->
        findContract (registry s_wx) ent b = Some w
        /\ findContract (registry s_xw) ent b = Some w).
Proof.
  intros Hent Hwild Hexact ent s_wx s_xw. subst ent s_wx s_xw.
  rewrite !registry_register, Hent, Hwild.
  assert (Hne : forall a b, a <> b -> key (c_entity x) a <> key (c_entity x) b).
  { intros a b Hab Heq. apply key_inj_action in Heq. congruence. }
  pose proof (Hne _ _ Hexact) as Hxw.
  pose proof (Hne "*" _ (not_eq_sym Hexact)) as Hwx.
  unfold findContract. split_and!.
  - by rewrite lookup_insert_eq.
  - rewrite (lookup_insert_ne _ _ _ _ Hwx). by rewrite lookup_insert_eq.
  - intros b Hb Hfree.
    pose proof (Hne _ _ (not_eq_sym Hb)) as Hxb.
    destruct (decide (b = "*")) as [-> | Hstar].
    + split.
      * rewrite (lookup_insert_ne _ _ _ _ Hxw). by rewrite lookup_insert_eq.
      * by rewrite lookup_insert_eq.
    + pose proof (Hne "*" b (not_eq_sym Hstar)) as Hwb.
      split.
      * rewrite (lookup_insert_ne _ _ _ _ Hxb), (lookup_insert_ne _ _ _ _ Hwb), Hfree.
        rewrite (lookup_insert_ne _ _ _ _ Hxw). by rewrite lookup_insert_eq.
      * rewrite (lookup_insert_ne _ _ _ _ Hwb), (lookup_insert_ne _ _ _ _ Hxb), Hfree.
        by rewrite lookup_insert_eq.
Qed.

Lemma exact_contract_precedes_wildcard_witness :
  let w := {| c_entity := "product"; c_action := "*"; c_version := "1.0.0";
              schema := Fixtures.productSchema; mode := lenient |} in
  let s := createCollector Fixtures.smallBufferOptions None 0 in
  findContract
    (registry (exec (register (Fixtures.productViewed strict)) (exec (register w) s)))
    "product" "viewed" = Some (Fixtures.productViewed strict).
Proof.
  cbv zeta.
  apply (exact_contract_precedes_wildcard
           {| c_entity := "product"; c_action := "*"; c_version := "1.0.0";
              schema := Fixtures.productSchema; mode := lenient |}
           (Fixtures.productViewed strict)).
  - reflexivity.
  - reflexivity.
  - discriminate.
Defined.

(** At most one contract per key: a second registration under the same
    entity and action replaces the first, and leaves the registry as if
    only the second had been registered; [unregister] after [register] on
    a key that was free gives the registry back; after [unregister] of the
    exact contract the wildcard, if any, applies again. *)
Theorem registry_one_contract_per_key
    (c1 c2 : EventContract) (s : CollectorState) :
  c_entity c1 = c_entity c2 ->
  c_action c1 = c_action c2 ->
  let ent := c_entity c2 in
  let act := c_action c2 in
  let s12 := exec (register c2) (exec (register c1) s) in
  let s2 := exec (register c2) s in
  findContract (registry s12) ent act = Some c2
  /\ registry s12 = registry s2
  /\ outcome (hasContract ent act) s2 = Returns true
  /\ (registry s !! key ent act = None ->
      registry (exec (unregister ent act) s2) = registry s)
  /\ (act <> "*" ->
      findContract (registry (exec (unregister ent act) s2)) ent act
      = registry s !! key ent "*").
Proof.
  intros Hent Hact ent act s12 s2. subst ent act s12 s2.
  rewrite !registry_register, Hent, Hact.
  assert (Hunreg : forall s0 e a,
    registry (exec (unregister e a) s0) = delete (key e a) (registry s0))
    by reflexivity.
  split_and!.
  - unfold findContract. by rewrite lookup_insert_eq.
  - by rewrite insert_insert_eq.
  - unfold outcome, hasContract, bind, gets, ret. cbn [fst].
    rewrite registry_register. unfold findContract. rewrite lookup_insert_eq.
    by rewrite bool_decide_eq_true_2 by (by eexists).
  - intros Hfree. rewrite Hunreg, registry_register, delete_insert_eq.
    by apply delete_id.
  - intros Hstar. rewrite Hunreg, registry_register, delete_insert_eq.
    unfold findContract. rewrite lookup_delete_eq.
    rewrite lookup_delete_ne; [reflexivity|].
    intros Heq. apply key_inj_action in Heq. congruence.
Qed.

Lemma registry_one_contract_per_key_witness :
  let s := createCollector Fixtures.smallBufferOptions None 0 in
  registry (exec (register (Fixtures.productViewed strict))
              (exec (register (Fixtures.productViewed lenient)) s))
  = registry (exec (register (Fixtures.productViewed strict)) s).
Proof.
  cbv zeta.
  apply (registry_one_contract_per_key
           (Fixtures.productViewed lenient) (Fixtures.productViewed strict));
    reflexivity.
Defined.

Lemma string_app_assoc (a b c : string) :
  ((a ++ b) ++ c)%string = (a ++ b ++ c)%string.
Proof.
  induction a as [|x a IH]; [done|].
  change (String x ((a ++ b) ++ c) = String x (a ++ b ++ c))%string.
  by rewrite IH.
Qed.

(** A registry key is the entity and the action joined by a colon, so a
    colon inside a name can make two different pairs share a key: a
    contract registered for entity [e1] and action [e2:a] is also the
    contract found for entity [e1:e2] and action [a]. *)
Theorem registry_key_collision
    (c : EventContract) (e2 a : string) (s : CollectorState) :
  c_action c = (e2 ++ ":" ++ a)%string ->
  findContract (registry (exec (register c) s))
    (c_entity c ++ ":" ++ e2)%string a = Some c.
Proof.
  intros Hact. rewrite registry_register, Hact. unfold findContract, key.
  assert (((c_entity c ++ ":" ++ e2) ++ ":" ++ a)%string
          = (c_entity c ++ ":" ++ e2 ++ ":" ++ a)%string) as ->.
  { by rewrite !string_app_assoc. }
  by rewrite lookup_insert_eq.
Qed.

Lemma registry_key_collision_witness :
  findContract
    (registry (exec (register {| c_entity := "shop"; c_action := "cart:viewed";
                                 c_version := "1.0.0";
                                 schema := Fixtures.productSchema; mode := strict |})
                 (createCollector Fixtures.smallBufferOptions None 0)))
    "shop:cart" "viewed"
  = Some {| c_entity := "shop"; c_action := "cart:viewed"; c_version := "1.0.0";
            schema := Fixtures.productSchema; mode := strict |}.
Proof.
  apply (registry_key_collision
           {| c_entity := "shop"; c_action := "cart:viewed"; c_version := "1.0.0";
              schema := Fixtures.productSchema; mode := strict |} "cart" "viewed").
  reflexivity.
Defined.

(** ** What [validate] can answer *)

Lemma with_properties_same ev : with_properties ev (properties ev) = ev.
Proof. by destruct ev. Qed.

(** [validate] always returns, logs at most one console message and
    touches nothing else. It answers [valid: false] exactly when the
    contract found for the event is strict and its schema rejects the
    properties. The event it returns is the input with at most the
    properties replaced; without a contract, and with a schema that
    throws, it is the input itself and the answer is [valid: true]. *)
Theorem validate_rejects_only_strict_failure (ev : JctEvent) (s : CollectorState) :
  exists r logs,
    validate ev s = (Returns r, set_trace (fun t => t ++ logs) s)
    /\ (length logs <= 1)%nat
    /\ Forall (fun o => is_delivery o = false) logs
    /\ (valid r = false <->
        exists c err,
          findContract (registry s) (entity ev) (action ev) = Some c
          /\ mode c = strict
          /\ schema c (properties ev) = ParseFailure err)
    /\ with_properties (v_event r) (properties ev) = ev
    /\ (findContract (registry s) (entity ev) (action ev) = None ->
        r = {| valid := true; v_event := ev; errors := None; coerced := None |}
        /\ logs = [])
    /\ (forall c e,
          findContract (registry s) (entity ev) (action ev) = Some c ->
          schema c (properties ev) = ParseThrows e ->
          valid r = true /\ v_event r = ev).
Proof.
  exists (validation (registry s) ev).1, (validation (registry s) ev).2.
  split; [apply validate_run|].
  split; [|split; [apply validation_logs_quiet|]].
  { unfold validation.
    destruct (findContract _ _ _) as [c|]; [|cbn; lia].
    destruct (schema c (properties ev)); [cbn; lia| |cbn; lia].
    destruct (mode c); cbn; lia. }
  unfold validation.
  destruct (findContract (registry s) (entity ev) (action ev)) as [c|] eqn:Hfind.
  - destruct (schema c (properties ev)) as [data same|err|e] eqn:Hparse.
    + cbn [fst snd valid v_event]. split_and!.
      * split; [discriminate|]. intros (c' & err & Hc & _ & Hp).
        injection Hc as <-. congruence.
      * by destruct ev.
      * discriminate.
      * intros c' e Hc Hp. injection Hc as <-. congruence.
    + destruct (mode c) eqn:Hmode; cbn [fst snd valid v_event]; split_and!.
      * split; [|done]. intros _. by exists c, err.
      * apply with_properties_same.
      * discriminate.
      * intros c' e Hc Hp. injection Hc as <-. congruence.
      * split; [discriminate|]. intros (c' & err' & Hc & Hm & _).
        injection Hc as <-. congruence.
      * apply with_properties_same.
      * discriminate.
      * intros c' e Hc Hp. injection Hc as <-. congruence.
    + cbn [fst snd valid v_event]. split_and!.
      * split; [discriminate|]. intros (c' & err & Hc & _ & Hp).
        injection Hc as <-. congruence.
      * apply with_properties_same.
      * discriminate.
      * done.
  - cbn [fst snd valid v_event]. split_and!.
    + split; [discriminate|]. intros (c' & err & Hc & _). discriminate Hc.
    + apply with_properties_same.
    + done.
    + intros c e Hc. discriminate Hc.
Qed.

(** A [track] call whose event validates and leaves the buffer below
    [maxSize]: what it appends to the buffer and to the trace. *)
Lemma track_valid_below options ent act props s ctx :
  context_at options (now s) = Returns ctx ->
  let ev := built_event options s ent act props ctx in
  let r := (validation (registry s) ev).1 in
  let logs := (validation (registry s) ev).2 in
  valid r = true ->
  Z.of_nat (length (buf s)) + 1 < maxSize (bufferConfig options) ->
  let s' := exec (track options ent act props) s in
  outcome (track options ent act props) s = Returns tt
  /\ buf s' = buf s ++ [v_event r]
  /\ trace s' = trace s ++ logs
       ++ [OEmit EvEvent (PEvent ev) (now s); OEmit EvValid (PEvent ev) (now s)].
Proof.
  intros Hctx ev r logs Hvalid Hroom. cbv zeta. unfold exec, outcome.
  rewrite track_run, Hctx. cbv zeta. fold ev. fold r. fold logs. rewrite Hvalid.
  assert (Hlen : Z.of_nat (length (buf (buffered s ev r logs)))
                 = Z.of_nat (length (buf s)) + 1).
  { unfold buffered. red_state. rewrite length_app. cbn [length]. lia. }
  rewrite Hlen.
  assert ((Z.of_nat (length (buf s)) + 1 >=? maxSize (bufferConfig options)) = false)
    as -> by (rewrite Z.geb_leb; apply Z.leb_gt; lia).
  rewrite scheduleFlush_run. cbn [fst snd]. split; [reflexivity|].
  unfold buffered. destruct (flushTimer _); red_state; by split.
Qed.

(** ** Validation inside [track] *)

(** A contract that does not block. When the contract found for a
    tracked event is lenient and its schema rejects the properties, or
    when the schema itself throws (in either mode), [track] returns
    normally, logs one warning (one error for a throwing schema), emits
    [event] and [event:valid], and appends the event, unchanged, to the
    buffer. *)
Theorem nonblocking_contract_passes_event
    (options : CreateCollectorOptions) (ent act : string) (props : option Props)
    (s : CollectorState) (ctx : Props) (c : EventContract) :
  context_at options (now s) = Returns ctx ->
  findContract (registry s) ent act = Some c ->
  Z.of_nat (length (buf s)) + 1 < maxSize (bufferConfig options) ->
  let ev := built_event options s ent act props ctx in
  let s' := exec (track options ent act props) s in
  let emits := [OEmit EvEvent (PEvent ev) (now s); OEmit EvValid (PEvent ev) (now s)] in
  (forall err,
     mode c = lenient -> schema c (default ∅ props) = ParseFailure err ->
     outcome (track options ent act props) s = Returns tt
     /\ buf s' = buf s ++ [ev]
     /\ trace s' = trace s
          ++ OConsoleWarn "[Junction] Event validation warning" err :: emits)
  /\ (forall e,
     schema c (default ∅ props) = ParseThrows e ->
     outcome (track options ent act props) s = Returns tt
     /\ buf s' = buf s ++ [ev]
     /\ trace s' = trace s
          ++ OConsoleError "[Junction] Contract error" e :: emits).
Proof.
  intros Hctx Hfind Hroom ev s' emits.
  pose proof (track_valid_below options ent act props s ctx Hctx) as Htrack.
  cbv zeta in Htrack. fold ev in Htrack. fold s' in Htrack.
  unfold validation in Htrack.
  change (entity ev) with ent in Htrack. change (action ev) with act in Htrack.
  change (properties ev) with (default ∅ props) in Htrack.
  rewrite Hfind in Htrack. split.
  - intros err Hmode Hparse. rewrite Hparse, Hmode in Htrack.
    exact (Htrack eq_refl Hroom).
  - intros e Hparse. rewrite Hparse in Htrack. exact (Htrack eq_refl Hroom).
Qed.

Lemma nonblocking_contract_passes_event_witness :
  let options := Fixtures.strictOptions in
  let s := exec (register (Fixtures.productViewed lenient))
             (createCollector options None 0) in
  let props := Some ({[ "price" := JStr "free" ]} : Props) in
  buf (exec (track options "product" "viewed" props) s)
  = [built_event options s "product" "viewed" props ∅].
Proof.
  cbv zeta.
  pose proof (nonblocking_contract_passes_event Fixtures.strictOptions
                "product" "viewed" (Some ({[ "price" := JStr "free" ]} : Props))
                (exec (register (Fixtures.productViewed lenient))
                   (createCollector Fixtures.strictOptions None 0))
                ∅ (Fixtures.productViewed lenient)) as H.
  cbv zeta in H.
  destruct H as [H _]; [vm_compute; reflexivity | vm_compute; reflexivity
                       | vm_compute; reflexivity |].
  destruct (H (JStr "invalid product") eq_refl) as (_ & Hbuf & _);
    [vm_compute; reflexivity|].
  exact Hbuf.
Defined.

(** Coercion reaches the destinations, not the listeners. When the
    schema accepts the properties and returns [data], the event appended
    to the buffer carries [data] as its properties, while the [event] and
    [event:valid] emissions carry the event as it was built, with the
    properties the caller passed. *)
Theorem coerced_event_buffered_original_emitted
    (options : CreateCollectorOptions) (ent act : string) (props : option Props)
    (s : CollectorState) (ctx : Props) (c : EventContract)
    (data : Props) (same : bool) :
  context_at options (now s) = Returns ctx ->
  findContract (registry s) ent act = Some c ->
  schema c (default ∅ props) = ParseSuccess data same ->
  Z.of_nat (length (buf s)) + 1 < maxSize (bufferConfig options) ->
  let ev := built_event options s ent act props ctx in
  let s' := exec (track options ent act props) s in
  buf s' = buf s ++ [with_properties ev data]
  /\ trace s' = trace s
       ++ [OEmit EvEvent (PEvent ev) (now s); OEmit EvValid (PEvent ev) (now s)]
  /\ properties ev = default ∅ props.
Proof.
  intros Hctx Hfind Hparse Hroom ev s'.
  pose proof (track_valid_below options ent act props s ctx Hctx) as Htrack.
  cbv zeta in Htrack. fold ev in Htrack. fold s' in Htrack.
  unfold validation in Htrack.
  change (entity ev) with ent in Htrack. change (action ev) with act in Htrack.
  change (properties ev) with (default ∅ props) in Htrack.
  rewrite Hfind, Hparse in Htrack.
  destruct (Htrack eq_refl Hroom) as (_ & Hbuf & Htrace). by split_and!.
Qed.

Lemma coerced_event_buffered_original_emitted_witness :
  let options := Fixtures.strictOptions in
  let s := createCollector options None 0 in
  let props : Props := {[ "product_id" := JStr "sku-1"; "price" := JNum 10 ]} in
  buf (exec (track options "product" "viewed" (Some props)) s)
  = [with_properties (built_event options s "product" "viewed" (Some props) ∅) props].
Proof.
  cbv zeta.
  pose proof (coerced_event_buffered_original_emitted Fixtures.strictOptions
                "product" "viewed"
                (Some ({[ "product_id" := JStr "sku-1"; "price" := JNum 10 ]} : Props))
                (createCollector Fixtures.strictOptions None 0)
                ∅ (Fixtures.productViewed strict)
                {[ "product_id" := JStr "sku-1"; "price" := JNum 10 ]} false) as H.
  cbv zeta in H.
  destruct H as (Hbuf & _); [vm_compute; reflexivity | vm_compute; reflexivity
                            | vm_compute; reflexivity | vm_compute; reflexivity |].
  exact Hbuf.
Defined.

(** ** The consent manager on its own *)

Lemma override_lookup (o st : ConsentState) (k : string) :
  (o ∪ st) !! k = match o !! k with Some b => Some b | None => st !! k end.
Proof. rewrite lookup_union. by destruct (o !! k), (st !! k). Qed.

Lemma denied_not_allowed_nor_pending (st : ConsentState) (required : list ConsentCategory) :
  st !! "analytics" = Some (Some false) -> st !! "marketing" = Some (Some false) ->
  required <> [] ->
  Forall (fun c => c = "analytics" \/ c = "marketing") required ->
  isAllowed st required = false /\ isPending st required = false.
Proof.
  intros Ha Hm Hne Hall. split.
  - apply isAllowed_false; [done| |].
    + intros Hnec. destruct required as [|c required]; [done|].
      apply Forall_cons in Hnec as [-> _]. apply Forall_cons in Hall as [[?|?] _];
        discriminate.
    + intros c Hc. rewrite Forall_forall in Hall.
      destruct (Hall c Hc) as [-> | ->]; congruence.
  - apply isPending_false_iff. intros c Hc. unfold reads_undefined.
    rewrite Forall_forall in Hall.
    destruct (Hall c Hc) as [-> | ->]; [by rewrite Ha | by rewrite Hm].
Qed.

(** Privacy signals at creation. With [respectDNT] and a navigator whose
    [doNotTrack] is "1", analytics and marketing start out explicitly
    denied, whatever the configured default says; with [respectGPC] and
    [globalPrivacyControl], personalization is denied as well. A
    requirement made of these categories is then neither allowed nor
    pending, so events for it are dropped rather than queued. No other
    category is touched, and without a navigator the state is the
    configured default. *)
Theorem privacy_signals_deny_at_creation (config : ConsentConfig) (n : Navigator) :
  let st := initialConsentState config (Some n) in
  (respectDNT config && doNotTrack n = true ->
     st !! "analytics" = Some (Some false) /\ st !! "marketing" = Some (Some false)
     /\ forall required,
          required <> [] ->
          Forall (fun c => c = "analytics" \/ c = "marketing") required ->
          isAllowed st required = false /\ isPending st required = false)
  /\ (respectGPC config && globalPrivacyControl n = true ->
     st !! "analytics" = Some (Some false) /\ st !! "marketing" = Some (Some false)
     /\ st !! "personalization" = Some (Some false))
  /\ (forall k, k <> "analytics" -> k <> "marketing" -> k <> "personalization" ->
        st !! k = defaultState config !! k)
  /\ (respectDNT config && doNotTrack n = false ->
      respectGPC config && globalPrivacyControl n = false ->
      st = defaultState config)
  /\ initialConsentState config None = defaultState config.
Proof.
  cbv zeta. unfold initialConsentState.
  assert (Hdnt : respectDNT config && doNotTrack n = true ->
            (if respectGPC config && globalPrivacyControl n
             then {[ "analytics" := Some false; "marketing" := Some false;
                     "personalization" := Some false ]}
                  ∪ ({[ "analytics" := Some false; "marketing" := Some false ]}
                     ∪ defaultState config)
             else {[ "analytics" := Some false; "marketing" := Some false ]}
                  ∪ defaultState config : ConsentState) !! "analytics" = Some (Some false)
            /\ (if respectGPC config && globalPrivacyControl n
             then {[ "analytics" := Some false; "marketing" := Some false;
                     "personalization" := Some false ]}
                  ∪ ({[ "analytics" := Some false; "marketing" := Some false ]}
                     ∪ defaultState config)
             else {[ "analytics" := Some false; "marketing" := Some false ]}
                  ∪ defaultState config : ConsentState) !! "marketing" = Some (Some false)).
  { intros _. destruct (respectGPC config && globalPrivacyControl n);
      by rewrite !override_lookup. }
  split_and!.
  - intros Hon. destruct (Hdnt Hon) as [Ha Hm]. rewrite Hon.
    split_and!; [exact Ha | exact Hm |].
    intros required. by apply denied_not_allowed_nor_pending.
  - intros ->. by rewrite !override_lookup.
  - intros k Ha Hm Hp.
    assert (Hone : ({[ "analytics" := Some false; "marketing" := Some false ]} : ConsentState)
                   !! k = None).
    { rewrite lookup_insert_ne by done. by rewrite lookup_singleton_ne. }
    assert (Htwo : ({[ "analytics" := Some false; "marketing" := Some false;
                       "personalization" := Some false ]} : ConsentState) !! k = None).
    { rewrite !lookup_insert_ne by done. by rewrite lookup_singleton_ne. }
    destruct (respectDNT config && doNotTrack n),
             (respectGPC config && globalPrivacyControl n);
      by rewrite ?override_lookup, ?Htwo, ?Hone.
  - by intros -> ->.
  - done.
Qed.

Lemma privacy_signals_deny_at_creation_witness :
  isAllowed
    (initialConsentState
       {| defaultState := {[ "analytics" := Some true ]}; queueTimeout := 30000;
          respectDNT := true; respectGPC := false |}
       (Some {| doNotTrack := true; globalPrivacyControl := false |}))
    ["analytics"] = false.
Proof.
  pose proof (privacy_signals_deny_at_creation
                {| defaultState := {[ "analytics" := Some true ]}; queueTimeout := 30000;
                   respectDNT := true; respectGPC := false |}
                {| doNotTrack := true; globalPrivacyControl := false |}) as H.
  cbv zeta in H. destruct H as [H _].
  destruct (H eq_refl) as (_ & _ & Hreq).
  destruct (Hreq ["analytics"]) as [Hallowed _];
    [discriminate | by repeat constructor |].
  exact Hallowed.
Defined.

(** [reset] goes back to the configured default, not to the state the
    manager was created with: a category that Do Not Track denied at
    creation is allowed again after [reset] if the default grants it.
    The queue is emptied without replaying anything. *)
Theorem reset_drops_privacy_overrides
    (config : ConsentConfig) (n : Navigator) (s : CollectorState) (c : ConsentCategory) :
  respectDNT config = true -> doNotTrack n = true ->
  c = "analytics" \/ c = "marketing" ->
  defaultState config !! c = Some (Some true) ->
  let s' := exec (reset config []) s in
  isAllowed (initialConsentState config (Some n)) [c] = false
  /\ isAllowed (c_state s') [c] = true
  /\ c_state s' = defaultState config
  /\ queue s' = []
  /\ trace s' = trace s.
Proof.
  intros Hcfg Hnav Hc Hdefault s'. split_and!; try reflexivity.
  - unfold initialConsentState. rewrite Hcfg, Hnav. cbn [andb].
    apply isAllowed_false; [done| |].
    + intros Hnec. apply Forall_cons in Hnec as [-> _]. by destruct Hc.
    + intros c' Hc'. apply list_elem_of_singleton in Hc' as ->.
      destruct (respectGPC config && globalPrivacyControl n), Hc as [-> | ->];
        by rewrite !override_lookup.
  - apply isAllowed_true_iff. right. right.
    exists c. split; [apply list_elem_of_singleton; reflexivity | exact Hdefault].
Qed.

Lemma reset_drops_privacy_overrides_witness :
  let config := {| defaultState := {[ "analytics" := Some true ]}; queueTimeout := 30000;
                   respectDNT := true; respectGPC := false |} in
  let nav := Some {| doNotTrack := true; globalPrivacyControl := false |} in
  let s := createCollector Fixtures.pendingOptions nav 0 in
  isAllowed (initialConsentState config nav) ["analytics"] = false
  /\ isAllowed (c_state (exec (reset config []) s)) ["analytics"] = true.
Proof.
  cbv zeta.
  pose proof (reset_drops_privacy_overrides
                {| defaultState := {[ "analytics" := Some true ]}; queueTimeout := 30000;
                   respectDNT := true; respectGPC := false |}
                {| doNotTrack := true; globalPrivacyControl := false |}
                (createCollector Fixtures.pendingOptions
                   (Some {| doNotTrack := true; globalPrivacyControl := false |}) 0)
                "analytics" eq_refl eq_refl (or_introl eq_refl) eq_refl) as H.
  cbv zeta in H. destruct H as (H1 & H2 & _). by split.
Defined.

Lemma notify_returns (listeners : list Listener) (previous : ConsentState)
    (s : CollectorState) :
  outcome (notify listeners previous) s = Returns tt.
Proof.
  unfold notify, outcome. revert s.
  induction listeners as [|l ls IH]; intros s; [reflexivity|].
  cbn [for_of]. unfold bind at 1, try_catch at 1, bind at 1, gets at 1.
  destruct (l (c_state s) previous s) as [[[]|e] s1]; [apply IH|].
  unfold observe, modify. apply IH.
Qed.

(** Consent listeners cannot break a consent update. Whatever the
    subscribed listeners do, [setState] returns normally; and a listener
    runs from the state its predecessors left, whether they returned or
    threw: notifying [l1 ++ l2] is notifying [l1], then [l2]. *)
Theorem consent_listeners_isolated
    (l1 l2 : list Listener) (update : ConsentState) (s : CollectorState) :
  outcome (setState (l1 ++ l2) update) s = Returns tt
  /\ exec (setState (l1 ++ l2) update) s
     = exec (notify l2 (c_state s)) (exec (setState l1 update) s)
  /\ c_state (exec (setState [] update) s) = update ∪ c_state s.
Proof.
  split_and!.
  - unfold setState, outcome, bind, gets, modify. cbn [fst snd].
    apply (notify_returns (l1 ++ l2)).
  - unfold setState, exec, bind, gets, modify. cbn [fst snd].
    unfold notify. rewrite for_of_app. unfold bind at 1.
    pose proof (notify_returns l1 (c_state s)
                  (set_c_state (fun st => update ∪ st) s)) as Hret.
    unfold outcome, notify in Hret.
    destruct (for_of l1 _ _) as [[[]|e] s1]; [reflexivity | discriminate Hret].
  - reflexivity.
Qed.

Lemma enqueue_all_run (config : ConsentConfig) (evs : list JctEvent)
    (s : CollectorState) :
  queueTimeout config <> 0 ->
  for_of evs (enqueue config) s =
  (Returns tt,
   set_queue (fun q => q ++ map (fun e => {| event := e; queuedAt := now s |}) evs) s).
Proof.
  intros Hon. apply Z.eqb_neq in Hon. revert s.
  induction evs as [|e evs IH]; intros s.
  - cbn [for_of map]. unfold ret. f_equal. state_eq.
  - cbn [for_of map]. unfold bind at 1. unfold enqueue at 1. rewrite Hon.
    unfold bind at 1, gets, modify. rewrite IH. f_equal. state_eq.
Qed.

(** The consent queue is first in, first out. With queueing enabled,
    enqueueing a list of events and then draining returns what was
    queued before followed by the new events in the order given, each
    stamped with the time of the call; [queueSize] counts them, and a
    drain leaves the queue empty. *)
Theorem queue_fifo_round_trip
    (config : ConsentConfig) (evs : list JctEvent) (s : CollectorState) :
  queueTimeout config <> 0 ->
  let s1 := exec (for_of evs (enqueue config)) s in
  outcome drain s1
  = Returns (queue s ++ map (fun e => {| event := e; queuedAt := now s |}) evs)
  /\ outcome queueSize s1 = Returns (length (queue s) + length evs)%nat
  /\ outcome queueSize (exec drain s1) = Returns 0%nat
  /\ outcome drain (exec drain s1) = Returns [].
Proof.
  intros Hon s1. subst s1. unfold exec. rewrite enqueue_all_run by done.
  cbn [snd]. split_and!; try reflexivity.
  unfold outcome, queueSize, gets. cbn [fst]. red_state.
  by rewrite length_app, length_map.
Qed.

Lemma queue_fifo_round_trip_witness :
  let config := cfg_consent (opt_config Fixtures.pendingOptions) in
  let s := createCollector Fixtures.pendingOptions None 5 in
  let e := built_event Fixtures.pendingOptions s "page" "viewed" None ∅ in
  outcome drain (exec (for_of [e; e] (enqueue config)) s)
  = Returns [{| event := e; queuedAt := 5 |}; {| event := e; queuedAt := 5 |}].
Proof.
  cbv zeta.
  pose proof (queue_fifo_round_trip
                (cfg_consent (opt_config Fixtures.pendingOptions))
                (let s := createCollector Fixtures.pendingOptions None 5 in
                 let e := built_event Fixtures.pendingOptions s "page" "viewed" None ∅ in
                 [e; e])
                (createCollector Fixtures.pendingOptions None 5)) as H.
  cbv zeta in H. destruct H as [H _]; [vm_compute; discriminate|].
  exact H.
Defined.

(** ** Invariants of every run *)

Lemma validation_timestamp reg ev :
  timestamp (v_event (validation reg ev).1) = timestamp ev.
Proof.
  unfold validation.
  destruct (findContract reg (entity ev) (action ev)) as [c|]; [|reflexivity].
  destruct (schema c (properties ev)); [reflexivity| |reflexivity].
  by destruct (mode c).
Qed.

(** What one step can do to the buffer and its timer: nothing, empty the
    buffer and disarm the timer, or append one event stamped with the
    current time, below [maxSize], arming the timer if it was not. *)
Lemma track_buffer_cases options ent act props s :
  let s' := exec (track options ent act props) s in
  now s' = now s
  /\ ((buf s' = buf s /\ flushTimer s' = flushTimer s)
      \/ (buf s' = [] /\ flushTimer s' = None)
      \/ exists ev,
           buf s' = buf s ++ [ev]
           /\ timestamp ev = now s
           /\ Z.of_nat (length (buf s)) + 1 < maxSize (bufferConfig options)
           /\ flushTimer s' =
                match flushTimer s with
                | Some d => Some d
                | None => Some (now s + timerDelay (maxWait (bufferConfig options)))
                end).
Proof.
  cbv zeta. split; [apply track_fields|].
  unfold exec. rewrite track_run.
  destruct (context_at options (now s)) as [ctx|e]; [|by left].
  cbv zeta. set (ev := built_event options s ent act props ctx).
  destruct (valid (validation (registry s) ev).1); [|by left].
  assert (Hlen : Z.of_nat (length (buf (buffered s ev (validation (registry s) ev).1
                                          (validation (registry s) ev).2)))
                 = Z.of_nat (length (buf s)) + 1).
  { unfold buffered. red_state. rewrite length_app. cbn [length]. lia. }
  rewrite Hlen.
  destruct (Z.of_nat (length (buf s)) + 1 >=? maxSize (bufferConfig options)) eqn:Hfull.
  - right; left. rewrite flushBuffer_run. cbn [snd].
    match goal with |- context [add_effects ?o ?t ?q ?s0] =>
      destruct (add_effects_fields o t q s0) as (_ & _ & _ & _ & -> & -> & _) end.
    by red_state.
  - right; right. exists (v_event (validation (registry s) ev).1).
    rewrite scheduleFlush_run. cbn [snd].
    rewrite validation_timestamp.
    assert (Hroom : Z.of_nat (length (buf s)) + 1 < maxSize (bufferConfig options)).
    { rewrite Z.geb_leb in Hfull. apply Z.leb_gt in Hfull. lia. }
    assert (Htimer : flushTimer (buffered s ev (validation (registry s) ev).1
                                   (validation (registry s) ev).2) = flushTimer s)
      by (unfold buffered; red_state; reflexivity).
    rewrite Htimer.
    destruct (flushTimer s) as [d|]; unfold buffered; red_state;
      rewrite ?Htimer; by split_and!.
Qed.

Lemma removeDestination_run nm s :
  removeDestination nm s =
  match map_get nm (destinations s) with
  | None => (Returns tt, s)
  | Some entry =>
      match teardown (destination entry) with
      | None => (Returns tt, set_destinations (map_delete nm) s)
      | Some (Returns _) =>
          (Returns tt,
           set_destinations (map_delete nm)
             (set_trace (fun t => t ++ [OTeardown nm]) s))
      | Some (Throws e) => (Throws e, set_trace (fun t => t ++ [OTeardown nm]) s)
      end
  end.
Proof.
  unfold removeDestination. run_m.
  destruct (map_get nm (destinations s)) as [entry|]; [|reflexivity].
  destruct (teardown (destination entry)) as [[[]|e]|]; reflexivity.
Qed.

Lemma step_buffer_cases options op s :
  let s' := step options op s in
  now s <= now s'
  /\ ((buf s' = buf s /\ flushTimer s' = flushTimer s)
      \/ (buf s' = [] /\ flushTimer s' = None)
      \/ exists ev,
           buf s' = buf s ++ [ev]
           /\ timestamp ev = now s
           /\ Z.of_nat (length (buf s)) + 1 < maxSize (bufferConfig options)
           /\ flushTimer s' =
                match flushTimer s with
                | Some d => Some d
                | None => Some (now s + timerDelay (maxWait (bufferConfig options)))
                end).
Proof.
  assert (Hflush : forall s0,
            buf (flushBuffer options s0).2 = [] /\ flushTimer (flushBuffer options s0).2 = None
            /\ now (flushBuffer options s0).2 = now s0).
  { intros s0. rewrite flushBuffer_run. cbn [snd].
    match goal with |- context [add_effects ?o ?t ?q ?s1] =>
      destruct (add_effects_fields o t q s1) as (-> & _ & _ & _ & -> & -> & _) end.
    by red_state. }
  cbv zeta. destruct op; cbn [step].
  - destruct (track_buffer_cases options ent act props s) as [Hnow Hcases].
    cbv zeta in Hnow, Hcases. split; [lia | exact Hcases].
  - unfold identify, exec, bind, modify. cbn [fst snd].
    match goal with |- context [track _ _ _ ?p ?s1] =>
      destruct (track_buffer_cases options "user" "identified" p s1) as [Hnow Hcases] end.
    cbv zeta in Hnow, Hcases. unfold exec in Hnow, Hcases. unfold_state.
    split; [lia | exact Hcases].
  - destruct (consent_fields options state s) as (_ & Hnow & _ & _ & Hb & Ht & _).
    cbv zeta in Hnow, Hb, Ht. split; [lia | by left].
  - unfold exec. destruct (Hflush s) as (Hb & Ht & Hnow). split; [lia | by right; left].
  - split; [reflexivity | by left].
  - unfold exec. rewrite removeDestination_run.
    destruct (map_get nm (destinations s)) as [entry|]; [|split; [reflexivity | by left]].
    destruct (teardown (destination entry)) as [[[]|e]|]; cbn [snd]; red_state;
      (split; [reflexivity | by left]).
  - unfold exec, elapse, modify. cbn [snd]. red_state. split; [lia | by left].
  - unfold fireFlushTimer. destruct (flushTimerDue s); [|split; [reflexivity | by left]].
    destruct (Hflush s) as (Hb & Ht & Hnow). split; [lia | by right; left].
  - unfold fireCleanupTimer.
    destruct (cleanupTimer s) as [iv|]; [|split; [reflexivity | by left]].
    destruct (due iv <=? now s); [|split; [reflexivity | by left]].
    unfold sweep. run_m. split; [reflexivity | by left].
  - unfold exec. rewrite runMicrotasks_run. cbn [snd]. red_state.
    split; [reflexivity | by left].
Qed.

(** The buffer and its flush timer stay in step over every run of a
    collector, whatever is called and whenever the timers fire: the
    timer is armed exactly when the buffer is non-empty; its deadline is
    the time the oldest buffered event was tracked, which is not in the
    future, plus the delay [setTimeout] gives [maxWait], which is
    [maxWait] itself when that is between 1 and 2^31 - 1 milliseconds;
    and a non-empty buffer holds fewer than [maxSize] events. *)
Theorem buffer_and_timer_in_step
    (options : CreateCollectorOptions) (nav : option Navigator) (t0 : Z)
    (ops : list Op) :
  let s := run options ops (createCollector options nav t0) in
  (buf s = [] <-> flushTimer s = None)
  /\ (forall d, flushTimer s = Some d ->
        exists e rest,
          buf s = e :: rest
          /\ d = timestamp e + timerDelay (maxWait (bufferConfig options))
          /\ timestamp e <= now s)
  /\ (buf s <> [] -> Z.of_nat (length (buf s)) < maxSize (bufferConfig options))
  /\ (1 <= maxWait (bufferConfig options) <= TIMEOUT_MAX ->
      forall d, flushTimer s = Some d ->
        exists e rest,
          buf s = e :: rest /\ d = timestamp e + maxWait (bufferConfig options)).
Proof.
  cbv zeta.
  assert (Hinv : forall s,
            ((flushTimer s = None -> buf s = [])
             /\ (forall d, flushTimer s = Some d ->
                   exists e rest,
                     buf s = e :: rest
                     /\ d = timestamp e + timerDelay (maxWait (bufferConfig options))
                     /\ timestamp e <= now s)
             /\ (buf s <> [] -> Z.of_nat (length (buf s)) < maxSize (bufferConfig options)))
            -> let s' := run options ops s in
               (flushTimer s' = None -> buf s' = [])
               /\ (forall d, flushTimer s' = Some d ->
                     exists e rest,
                       buf s' = e :: rest
                       /\ d = timestamp e + timerDelay (maxWait (bufferConfig options))
                       /\ timestamp e <= now s')
               /\ (buf s' <> [] ->
                   Z.of_nat (length (buf s')) < maxSize (bufferConfig options))).
  { induction ops as [|op ops IH]; intros s Hs; [exact Hs|].
    cbv zeta. change (run options (op :: ops) s)
      with (run options ops (step options op s)).
    apply IH. destruct Hs as (Hnone & Hsome & Hsize).
    destruct (step_buffer_cases options op s) as [Hnow Hcases]. cbv zeta in Hnow, Hcases.
    destruct Hcases as [[Hb Ht] | [[Hb Ht] | (ev & Hb & Hts & Hroom & Ht)]].
    - rewrite Hb, Ht. split_and!; [done| |done].
      intros d Hd. destruct (Hsome d Hd) as (e & rest & He & Hdl & Hle).
      exists e, rest. split_and!; [done | done | lia].
    - rewrite Hb, Ht. split_and!; [done | discriminate | done].
    - rewrite Hb, Ht. split_and!.
      + destruct (flushTimer s); discriminate.
      + intros d Hd. destruct (flushTimer s) as [d0|] eqn:Htimer.
        * injection Hd as <-. destruct (Hsome d0 eq_refl) as (e & rest & He & Hdl & Hle).
          exists e, (rest ++ [ev]). rewrite He. split_and!; [done | done | lia].
        * injection Hd as <-. rewrite (Hnone eq_refl).
          exists ev, []. split_and!; [done | by rewrite Hts | lia].
      + intros _. rewrite length_app. cbn [length]. lia. }
  specialize (Hinv (createCollector options nav t0)).
  cbv zeta in Hinv.
  destruct Hinv as (Hnone & Hsome & Hsize); [by split_and!|].
  split_and!; [|exact Hsome | exact Hsize |].
  - split; [|exact Hnone].
    intros Hb. destruct (flushTimer _) as [d|] eqn:Htimer; [|reflexivity].
    destruct (Hsome d eq_refl) as (e & rest & He & _). congruence.
  - intros Hrange d Hd. destruct (Hsome d Hd) as (e & rest & He & Hdl & _).
    exists e, rest. split; [exact He|].
    by rewrite Hdl, (timerDelay_in_range _ Hrange).
Qed.

(** *** The destination map *)

Lemma map_set_names k v m :
  (map_set k v m).*1 = if bool_decide (k ∈ m.*1) then m.*1 else m.*1 ++ [k].
Proof.
  induction m as [|[k' v'] m IH]; [reflexivity|].
  cbn [map_set]. destruct (bool_decide (k' = k)) eqn:Hk.
  - apply bool_decide_eq_true in Hk as ->. rewrite fmap_cons. cbn [fst].
    rewrite bool_decide_eq_true_2 by apply list_elem_of_here. reflexivity.
  - apply bool_decide_eq_false in Hk. rewrite !fmap_cons, IH. cbn [fst].
    destruct (bool_decide (k ∈ m.*1)) eqn:Hin.
    + apply bool_decide_eq_true in Hin.
      rewrite bool_decide_eq_true_2 by (by apply list_elem_of_further). reflexivity.
    + apply bool_decide_eq_false in Hin.
      rewrite bool_decide_eq_false_2; [reflexivity|].
      intros Hin'. apply elem_of_cons in Hin' as [-> | Hin']; done.
Qed.

Lemma map_set_nodup k v m : NoDup m.*1 -> NoDup (map_set k v m).*1.
Proof.
  intros Hnodup. rewrite map_set_names.
  destruct (bool_decide (k ∈ m.*1)) eqn:Hin; [done|].
  apply bool_decide_eq_false in Hin. apply NoDup_app. split_and!; [done| |].
  - intros x Hx Hk. apply list_elem_of_singleton in Hk as ->. done.
  - apply NoDup_singleton.
Qed.

Lemma map_set_elem k v m ne :
  ne ∈ map_set k v m -> ne = (k, v) \/ ne ∈ m.
Proof.
  induction m as [|[k' v'] m IH]; cbn [map_set]; intros Hin.
  - apply list_elem_of_singleton in Hin. by left.
  - destruct (bool_decide (k' = k)).
    + apply elem_of_cons in Hin as [-> | Hin]; [by left|].
      right. by apply list_elem_of_further.
    + apply elem_of_cons in Hin as [-> | Hin]; [right; apply list_elem_of_here|].
      destruct (IH Hin) as [-> | Hin']; [by left|].
      right. by apply list_elem_of_further.
Qed.

Lemma map_get_set k v m : map_get k (map_set k v m) = Some v.
Proof.
  induction m as [|[k' v'] m IH]; cbn [map_set map_get].
  - by rewrite bool_decide_eq_true_2.
  - destruct (bool_decide (k' = k)) eqn:Hk; cbn [map_get].
    + by rewrite bool_decide_eq_true_2.
    + by rewrite Hk.
Qed.

Lemma map_get_set_ne k k' v m : k' <> k -> map_get k' (map_set k v m) = map_get k' m.
Proof.
  intros Hne. induction m as [|[k0 v0] m IH]; cbn [map_set map_get].
  - by rewrite bool_decide_eq_false_2.
  - destruct (bool_decide (k0 = k)) eqn:Hk; cbn [map_get].
    + apply bool_decide_eq_true in Hk as ->.
      by rewrite !bool_decide_eq_false_2 by done.
    + by rewrite IH.
Qed.

Lemma map_get_Some k v m : map_get k m = Some v -> (k, v) ∈ m.
Proof.
  induction m as [|[k' v'] m IH]; cbn [map_get]; [discriminate|].
  destruct (bool_decide (k' = k)) eqn:Hk.
  - apply bool_decide_eq_true in Hk as ->. intros [= ->]. apply list_elem_of_here.
  - intros Hget. apply list_elem_of_further. by apply IH.
Qed.

Lemma map_get_None k m : map_get k m = None <-> k ∉ m.*1.
Proof.
  induction m as [|[k' v'] m IH]; cbn [map_get].
  - split; [intros _; apply not_elem_of_nil | done].
  - rewrite fmap_cons. cbn [fst]. destruct (bool_decide (k' = k)) eqn:Hk.
    + apply bool_decide_eq_true in Hk as ->. split; [discriminate|].
      intros Hnot. exfalso. apply Hnot. apply list_elem_of_here.
    + apply bool_decide_eq_false in Hk. rewrite IH. rewrite not_elem_of_cons.
      split; [by intros ? | by intros [_ ?]].
Qed.

Lemma map_get_elem k v m : NoDup m.*1 -> (k, v) ∈ m -> map_get k m = Some v.
Proof.
  induction m as [|[k' v'] m IH]; intros Hnodup Hin.
  - by apply elem_of_nil in Hin.
  - rewrite fmap_cons in Hnodup. apply NoDup_cons in Hnodup as [Hfresh Hnodup].
    cbn [map_get]. apply elem_of_cons in Hin as [[= <- <-] | Hin].
    + by rewrite bool_decide_eq_true_2.
    + rewrite bool_decide_eq_false_2; [by apply IH|].
      intros ->. apply Hfresh. cbn [fst].
      change k with ((k, v).1). by apply list_elem_of_fmap_2.
Qed.

Lemma map_delete_elem k m ne : ne ∈ map_delete k m -> ne ∈ m.
Proof.
  induction m as [|[k' v'] m IH]; cbn [map_delete]; [done|].
  destruct (bool_decide (k' = k)).
  - intros Hin. by apply list_elem_of_further.
  - intros Hin. apply elem_of_cons in Hin as [-> | Hin]; [apply list_elem_of_here|].
    apply list_elem_of_further. by apply IH.
Qed.

Lemma map_delete_names k m x : x ∈ (map_delete k m).*1 -> x ∈ m.*1.
Proof.
  intros Hin. apply list_elem_of_fmap in Hin as (ne & -> & Hin).
  apply list_elem_of_fmap_2. by apply (map_delete_elem k).
Qed.

Lemma map_delete_nodup k m : NoDup m.*1 -> NoDup (map_delete k m).*1.
Proof.
  induction m as [|[k' v'] m IH]; cbn [map_delete]; [done|].
  rewrite fmap_cons. intros Hnodup. apply NoDup_cons in Hnodup as [Hfresh Hnodup].
  destruct (bool_decide (k' = k)); [done|].
  rewrite fmap_cons. apply NoDup_cons. split; [|by apply IH].
  intros Hin. apply Hfresh. by apply (map_delete_names k).
Qed.

Lemma map_delete_absent k m : NoDup m.*1 -> k ∉ (map_delete k m).*1.
Proof.
  induction m as [|[k' v'] m IH]; cbn [map_delete]; [intros _; apply not_elem_of_nil|].
  rewrite fmap_cons. intros Hnodup. apply NoDup_cons in Hnodup as [Hfresh Hnodup].
  destruct (bool_decide (k' = k)) eqn:Hk.
  - apply bool_decide_eq_true in Hk as <-. exact Hfresh.
  - apply bool_decide_eq_false in Hk. rewrite fmap_cons. cbn [fst].
    apply not_elem_of_cons. split; [done | by apply IH].
Qed.

Lemma step_destinations options op s :
  destinations (step options op s) =
  match op with
  | OpAddDestination entry =>
      map_set (name (destination entry)) entry (destinations s)
  | OpRemoveDestination nm =>
      match map_get nm (destinations s) with
      | Some entry =>
          match teardown (destination entry) with
          | Some (Throws _) => destinations s
          | _ => map_delete nm (destinations s)
          end
      | None => destinations s
      end
  | _ => destinations s
  end.
Proof.
  destruct op; cbn [step].
  - apply track_fields.
  - unfold identify, exec, bind, modify. cbn [fst snd].
    match goal with |- context [track _ _ _ ?p ?s1] =>
      destruct (track_fields options "user" "identified" p s1)
        as (_ & _ & _ & Hd & _) end.
    cbv zeta in Hd. unfold exec in Hd. by rewrite Hd.
  - apply consent_fields.
  - unfold exec. rewrite flushBuffer_run. cbn [snd].
    match goal with |- context [add_effects ?o ?t ?q ?s1] =>
      destruct (add_effects_fields o t q s1) as (_ & _ & -> & _) end.
    by red_state.
  - reflexivity.
  - unfold exec. rewrite removeDestination_run.
    destruct (map_get nm (destinations s)) as [entry|]; [|reflexivity].
    by destruct (teardown (destination entry)) as [[[]|e]|].
  - reflexivity.
  - unfold fireFlushTimer. destruct (flushTimerDue s); [|reflexivity].
    rewrite flushBuffer_run. cbn [snd].
    match goal with |- context [add_effects ?o ?t ?q ?s1] =>
      destruct (add_effects_fields o t q s1) as (_ & _ & -> & _) end.
    by red_state.
  - unfold fireCleanupTimer.
    destruct (cleanupTimer s) as [iv|]; [|reflexivity].
    destruct (due iv <=? now s); [|reflexivity].
    unfold sweep. run_m. reflexivity.
  - unfold exec. rewrite runMicrotasks_run. reflexivity.
Qed.

Lemma createCollector_destinations options nav t0 :
  NoDup (destinations (createCollector options nav t0)).*1
  /\ Forall (fun ne => ne.1 = name (destination ne.2))
       (destinations (createCollector options nav t0)).
Proof.
  cbn [createCollector destinations].
  assert (Hfold : forall entries m,
            NoDup m.*1 /\ Forall (fun ne => ne.1 = name (destination ne.2)) m ->
            let m' := foldl (fun m entry =>
                        if bool_decide (enabled entry = Some false) then m
                        else map_set (name (destination entry)) entry m) m entries in
            NoDup m'.*1 /\ Forall (fun ne => ne.1 = name (destination ne.2)) m').
  { induction entries as [|entry entries IH]; intros m Hm; [exact Hm|].
    cbn [foldl]. apply IH. destruct (bool_decide (enabled entry = Some false)); [exact Hm|].
    destruct Hm as [Hnodup Hkeyed]. split; [by apply map_set_nodup|].
    apply Forall_forall. intros ne Hin.
    apply map_set_elem in Hin as [-> | Hin]; [reflexivity|].
    rewrite Forall_forall in Hkeyed. by apply Hkeyed. }
  apply Hfold. split; [apply NoDup_nil_2 | constructor].
Qed.

Lemma run_destinations options nav t0 ops :
  let s := run options ops (createCollector options nav t0) in
  NoDup (destinations s).*1
  /\ Forall (fun ne => ne.1 = name (destination ne.2)) (destinations s).
Proof.
  cbv zeta. pose proof (createCollector_destinations options nav t0) as Hinit.
  revert Hinit. generalize (createCollector options nav t0).
  induction ops as [|op ops IH]; intros s Hs; [exact Hs|].
  change (run options (op :: ops) s) with (run options ops (step options op s)).
  apply IH. rewrite step_destinations. destruct Hs as [Hnodup Hkeyed].
  destruct op; try (by split).
  - split; [by apply map_set_nodup|].
    apply Forall_forall. intros ne Hin.
    apply map_set_elem in Hin as [-> | Hin]; [reflexivity|].
    rewrite Forall_forall in Hkeyed. by apply Hkeyed.
  - destruct (map_get nm (destinations s)) as [entry|]; [|by split].
    assert (NoDup (map_delete nm (destinations s)).*1
            /\ Forall (fun ne => ne.1 = name (destination ne.2))
                 (map_delete nm (destinations s))) as Hdel.
    { split; [by apply map_delete_nodup|].
      apply Forall_forall. intros ne Hin. apply map_delete_elem in Hin.
      rewrite Forall_forall in Hkeyed. by apply Hkeyed. }
    by destruct (teardown (destination entry)) as [[[]|e]|].
Qed.

Lemma transformed_by_pass_blocked nm st ev ts dests :
  (forall entry, (nm, entry) ∈ dests -> isAllowed st (requiredConsent entry) = false) ->
  transformed_by nm (pass_obs st ev ts dests) = [].
Proof.
  induction dests as [|ne dests IH]; intros Hblocked; [reflexivity|].
  unfold pass_obs. cbn [flat_map]. fold (pass_obs st ev ts dests).
  rewrite transformed_by_app, IH.
  - rewrite app_nil_r. destruct (allowed_now st ne) eqn:Hal; [|reflexivity].
    rewrite transformed_by_delivery.
    destruct (bool_decide (ne.1 = nm)) eqn:Hnm; [|reflexivity].
    apply bool_decide_eq_true in Hnm. destruct ne as [nm' entry]. cbn [fst] in Hnm.
    subst nm'. unfold allowed_now in Hal. cbn [snd] in Hal.
    rewrite Hblocked in Hal by apply list_elem_of_here. discriminate Hal.
  - intros entry Hin. apply Hblocked. by apply list_elem_of_further.
Qed.

Lemma transformed_by_batch_blocked nm st ts dests events :
  (forall entry, (nm, entry) ∈ dests -> isAllowed st (requiredConsent entry) = false) ->
  transformed_by nm (batch_obs st ts dests events) = [].
Proof.
  intros Hblocked. induction events as [|ev events IH]; [reflexivity|].
  unfold batch_obs. cbn [flat_map]. fold (batch_obs st ts dests events).
  by rewrite transformed_by_app, IH, transformed_by_pass_blocked.
Qed.

(** A flush hands the buffer over in order. In every state a collector
    can reach, [flush] empties the buffer and calls [transform] of each
    registered destination whose consent requirement is met with the
    buffered events, each once and in the order they were tracked; a
    destination whose requirement is not met, and a name that is not
    registered, get no [transform] call. *)
Theorem flush_hands_buffer_in_order
    (options : CreateCollectorOptions) (nav : option Navigator) (t0 : Z)
    (ops : list Op) :
  let s := run options ops (createCollector options nav t0) in
  let s' := step options OpFlush s in
  buf s' = []
  /\ exists added,
       trace s' = trace s ++ added
       /\ forall nm,
            transformed_by nm added =
            match map_get nm (destinations s) with
            | Some entry =>
                if isAllowed (c_state s) (requiredConsent entry) then buf s else []
            | None => []
            end.
Proof.
  cbv zeta. destruct (run_destinations options nav t0 ops) as [Hnodup _].
  cbv zeta in Hnodup. set (s := run options ops (createCollector options nav t0)) in *.
  cbn [step]. unfold exec. rewrite flushBuffer_run. cbn [snd].
  match goal with |- context [add_effects ?o ?t ?q ?s1] =>
    destruct (add_effects_fields o t q s1)
      as (_ & _ & _ & _ & -> & _ & _ & _ & _ & -> & _) end.
  red_state. split; [reflexivity|].
  eexists. split; [reflexivity|]. intros nm.
  destruct (map_get nm (destinations s)) as [entry|] eqn:Hget.
  - destruct (isAllowed (c_state s) (requiredConsent entry)) eqn:Hal.
    + apply (transformed_by_batch nm entry); [done | by apply map_get_Some | done].
    + apply transformed_by_batch_blocked. intros entry' Hin.
      apply map_get_elem in Hin; [|done]. congruence.
  - apply transformed_by_batch_blocked. intros entry' Hin.
    apply map_get_elem in Hin; [|done]. congruence.
Qed.

(** Destinations are registered by name. In every state a collector can
    reach no two registered entries share a name and each entry is
    stored under the name of its destination. [addDestination] under a
    name that is taken replaces the entry and keeps its place in the
    dispatch order; under a new name it appends the entry. The [enabled]
    flag is not looked at: an entry added with [enabled: false] is
    registered like any other. *)
Theorem destinations_registered_by_name
    (options : CreateCollectorOptions) (nav : option Navigator) (t0 : Z)
    (ops : list Op) (entry : DestinationEntry) :
  let s := run options ops (createCollector options nav t0) in
  let s' := step options (OpAddDestination entry) s in
  let nm := name (destination entry) in
  NoDup (destinations s).*1
  /\ Forall (fun ne => ne.1 = name (destination ne.2)) (destinations s)
  /\ map_get nm (destinations s') = Some entry
  /\ (forall other, other <> nm ->
        map_get other (destinations s') = map_get other (destinations s))
  /\ (destinations s').*1
     = if bool_decide (nm ∈ (destinations s).*1)
       then (destinations s).*1 else (destinations s).*1 ++ [nm].
Proof.
  cbv zeta. destruct (run_destinations options nav t0 ops) as [Hnodup Hkeyed].
  cbv zeta in Hnodup, Hkeyed. rewrite step_destinations.
  split_and!; [done | done | apply map_get_set | | apply map_set_names].
  intros other Hne. by apply map_get_set_ne.
Qed.

(** *** Calls into a destination that is not registered *)

Lemma delivery_obs_no_calls nm ev ts ne :
  ne.1 <> nm -> Forall (fun o => is_call_to nm o = false) (delivery_obs ev ts ne).
Proof.
  intros Hne. unfold delivery_obs.
  assert (Hd : bool_decide (ne.1 = nm) = false) by (by apply bool_decide_eq_false).
  constructor; [exact Hd|].
  destruct (transform (destination ne.2) ev) as [[p|]|e].
  - constructor; [exact Hd|].
    destruct (send (destination ne.2) p (config ne.2)); by repeat constructor.
  - constructor.
  - by repeat constructor.
Qed.

Lemma batch_obs_no_calls nm st ts dests events :
  nm ∉ dests.*1 ->
  Forall (fun o => is_call_to nm o = false) (batch_obs st ts dests events).
Proof.
  intros Hfresh. apply Forall_forall. intros o Ho. unfold batch_obs in Ho.
  apply list_elem_of_In, in_flat_map in Ho as (ev & _ & Ho).
  unfold pass_obs in Ho. apply in_flat_map in Ho as (ne & Hne & Ho).
  destruct (allowed_now st ne); [|by destruct Ho].
  assert (Hname : ne.1 <> nm).
  { intros <-. apply Hfresh. apply list_elem_of_fmap_2. by apply list_elem_of_In. }
  pose proof (delivery_obs_no_calls nm ev ts ne Hname) as Hshape.
  rewrite Forall_forall in Hshape. apply Hshape. by apply list_elem_of_In.
Qed.

Lemma onConsent_calls_no_calls nm st dests :
  nm ∉ dests.*1 ->
  Forall (fun o => is_call_to nm o = false) (onConsent_calls st dests).1.
Proof.
  induction dests as [|ne dests IH]; intros Hfresh; [constructor|].
  rewrite fmap_cons in Hfresh. apply not_elem_of_cons in Hfresh as [Hne Hfresh].
  cbn [onConsent_calls].
  destruct (onConsent (destination ne.2)) as [callback|]; [|by apply IH].
  assert (Hd : is_call_to nm (OOnConsent ne.1 st) = false).
  { cbn [is_call_to]. apply bool_decide_eq_false. congruence. }
  destruct (callback st); cbn [fst].
  - constructor; [exact Hd | by apply IH].
  - constructor; [exact Hd | constructor].
Qed.

Lemma validation_logs_no_calls nm reg ev :
  Forall (fun o => is_call_to nm o = false) (validation reg ev).2.
Proof.
  unfold validation.
  destruct (findContract reg (entity ev) (action ev)) as [c|]; [|constructor].
  destruct (schema c (properties ev)) as [data same|err|e].
  - constructor.
  - destruct (mode c); by repeat constructor.
  - by repeat constructor.
Qed.

Lemma flushBuffer_no_calls options nm s :
  nm ∉ (destinations s).*1 ->
  exists added,
    trace (flushBuffer options s).2 = trace s ++ added
    /\ Forall (fun o => is_call_to nm o = false) added.
Proof.
  intros Hfresh. rewrite flushBuffer_run. cbn [snd].
  match goal with |- context [add_effects ?o ?t ?q ?s1] =>
    destruct (add_effects_fields o t q s1)
      as (_ & _ & _ & _ & _ & _ & _ & _ & _ & -> & _) end.
  red_state. eexists. split; [reflexivity|]. by apply batch_obs_no_calls.
Qed.

Lemma track_no_calls options nm ent act props s :
  nm ∉ (destinations s).*1 ->
  exists added,
    trace (exec (track options ent act props) s) = trace s ++ added
    /\ Forall (fun o => is_call_to nm o = false) added.
Proof.
  intros Hfresh. unfold exec. rewrite track_run.
  destruct (context_at options (now s)) as [ctx|e];
    [|exists []; by rewrite app_nil_r].
  cbv zeta. set (ev := built_event options s ent act props ctx).
  pose proof (validation_logs_no_calls nm (registry s) ev) as Hlogs.
  destruct (valid (validation (registry s) ev).1).
  - set (s2 := buffered s ev (validation (registry s) ev).1
                 (validation (registry s) ev).2).
    assert (Htrace2 : trace s2 = trace s ++ (validation (registry s) ev).2
                        ++ [OEmit EvEvent (PEvent ev) (now s);
                            OEmit EvValid (PEvent ev) (now s)])
      by (unfold s2, buffered; red_state; reflexivity).
    assert (Hdests2 : destinations s2 = destinations s)
      by (unfold s2, buffered; red_state; reflexivity).
    assert (Hquiet : Forall (fun o => is_call_to nm o = false)
                       ((validation (registry s) ev).2
                        ++ [OEmit EvEvent (PEvent ev) (now s);
                            OEmit EvValid (PEvent ev) (now s)])).
    { apply Forall_app. split; [exact Hlogs | by repeat constructor]. }
    destruct (_ >=? _).
    + destruct (flushBuffer_no_calls options nm s2) as (added & Ht & Hadded);
        [by rewrite Hdests2|].
      eexists. rewrite Ht, Htrace2, <- app_assoc. split; [reflexivity|].
      apply Forall_app. by split.
    + rewrite scheduleFlush_run. cbn [snd].
      eexists. split; [|exact Hquiet].
      destruct (flushTimer s2); red_state; exact Htrace2.
  - cbn [snd]. red_state. eexists. split; [reflexivity|].
    apply Forall_app. split; [exact Hlogs|].
    unfold rejection_obs. destruct (debug _); by repeat constructor.
Qed.

Lemma consent_no_calls options nm update s :
  nm ∉ (destinations s).*1 ->
  exists added,
    trace (exec (consent options update) s) = trace s ++ added
    /\ Forall (fun o => is_call_to nm o = false) added.
Proof.
  intros Hfresh. unfold exec. rewrite consent_run. cbv zeta.
  pose proof (onConsent_calls_no_calls nm (update ∪ c_state s) (destinations s) Hfresh)
    as Hcalls.
  destruct (onConsent_calls (update ∪ c_state s) (destinations s)).2 as [e|]; cbn [snd].
  - red_state. eexists. split; [reflexivity|].
    constructor; [reflexivity|]. apply Forall_app. split; [exact Hcalls|].
    by repeat constructor.
  - match goal with |- context [add_effects ?o ?t ?q ?s1] =>
      destruct (add_effects_fields o t q s1)
        as (_ & _ & _ & _ & _ & _ & _ & _ & _ & -> & _) end.
    red_state. eexists. split; [reflexivity|].
    constructor; [reflexivity|]. apply Forall_app. split; [exact Hcalls|].
    apply Forall_app. split; [by apply batch_obs_no_calls | by repeat constructor].
Qed.

Lemma step_no_calls options nm op s :
  nm ∉ (destinations s).*1 -> adds_destination nm op = false ->
  (nm ∉ (destinations (step options op s)).*1)
  /\ exists added,
       trace (step options op s) = trace s ++ added
       /\ Forall (fun o => is_call_to nm o = false) added.
Proof.
  intros Hfresh Hop. split.
  - rewrite step_destinations. destruct op; try exact Hfresh.
    + cbn [adds_destination] in Hop. apply bool_decide_eq_false in Hop.
      rewrite map_set_names. destruct (bool_decide _); [exact Hfresh|].
      intros Hin. apply elem_of_app in Hin as [Hin | Hin]; [done|].
      apply list_elem_of_singleton in Hin. by symmetry in Hin.
    + destruct (map_get nm0 (destinations s)) as [entry|]; [|exact Hfresh].
      assert (nm ∉ (map_delete nm0 (destinations s)).*1)
        by (intros Hin; by apply map_delete_names in Hin).
      by destruct (teardown (destination entry)) as [[[]|e]|].
  - destruct op; cbn [step].
    + by apply track_no_calls.
    + unfold identify, exec, bind, modify. cbn [fst snd].
      match goal with |- context [track _ _ _ ?p ?s1] =>
        destruct (track_no_calls options nm "user" "identified" p s1)
          as (added & Ht & Hadded) end; [by red_state|].
      unfold exec in Ht. exists added. by rewrite Ht.
    + by apply consent_no_calls.
    + by apply flushBuffer_no_calls.
    + exists []. by rewrite app_nil_r.
    + unfold exec. rewrite removeDestination_run.
      destruct (map_get nm0 (destinations s)) as [entry|] eqn:Hget;
        [|exists []; by rewrite app_nil_r].
      assert (Hd : is_call_to nm (OTeardown nm0) = false).
      { cbn [is_call_to]. apply bool_decide_eq_false. intros ->.
        apply map_get_Some in Hget. apply Hfresh.
        change nm with ((nm, entry).1). by apply list_elem_of_fmap_2. }
      destruct (teardown (destination entry)) as [[[]|e]|]; cbn [snd]; red_state.
      * exists [OTeardown nm0]. by repeat constructor.
      * exists [OTeardown nm0]. by repeat constructor.
      * exists []. by rewrite app_nil_r.
    + exists []. by rewrite app_nil_r.
    + unfold fireFlushTimer. destruct (flushTimerDue s);
        [by apply flushBuffer_no_calls | exists []; by rewrite app_nil_r].
    + unfold fireCleanupTimer.
      destruct (cleanupTimer s) as [iv|]; [|exists []; by rewrite app_nil_r].
      destruct (due iv <=? now s); [|exists []; by rewrite app_nil_r].
      unfold sweep. run_m. exists []. by rewrite app_nil_r.
    + unfold exec. rewrite runMicrotasks_run. cbn [snd]. red_state.
      eexists. split; [reflexivity|]. apply Forall_forall. intros o Ho.
      apply list_elem_of_In, in_flat_map in Ho as ([d e ev] & _ & Ho).
      unfold task_obs in Ho. destruct (debug (opt_config options)); cbn in Ho;
        intuition (subst; reflexivity).
Qed.

Lemma run_no_calls options nm ops s :
  nm ∉ (destinations s).*1 ->
  forallb (fun op => negb (adds_destination nm op)) ops = true ->
  (nm ∉ (destinations (run options ops s)).*1)
  /\ exists added,
       trace (run options ops s) = trace s ++ added
       /\ Forall (fun o => is_call_to nm o = false) added.
Proof.
  revert s. induction ops as [|op ops IH]; intros s Hfresh Hops.
  - split; [exact Hfresh|]. exists []. by rewrite app_nil_r.
  - cbn [forallb] in Hops. apply andb_true_iff in Hops as [Hop Hops].
    apply negb_true_iff in Hop.
    change (run options (op :: ops) s) with (run options ops (step options op s)).
    destruct (step_no_calls options nm op s Hfresh Hop) as (Hfresh1 & a1 & Ht1 & Ha1).
    destruct (IH _ Hfresh1 Hops) as (Hfresh2 & a2 & Ht2 & Ha2).
    split; [exact Hfresh2|]. exists (a1 ++ a2).
    rewrite Ht2, Ht1, <- app_assoc. split; [reflexivity|].
    apply Forall_app. by split.
Qed.

(** Removing a destination is all or nothing. In every state a
    collector can reach: [removeDestination] throws [e] exactly when the
    name is registered and the destination's [teardown] throws [e]; when
    it throws, the destination is still registered and nothing but the
    trace has changed; in every other case it returns, and then the name
    is no longer registered, and whatever happens next (short of adding
    a destination under that name again) makes no call to [transform],
    [send], [onConsent] or [teardown] under that name. *)
Theorem removeDestination_all_or_nothing
    (options : CreateCollectorOptions) (nav : option Navigator) (t0 : Z)
    (ops later : list Op) (nm : string) :
  let s := run options ops (createCollector options nav t0) in
  let s1 := exec (removeDestination nm) s in
  (forall e,
     outcome (removeDestination nm) s = Throws e
     <-> (exists entry, map_get nm (destinations s) = Some entry
                        /\ teardown (destination entry) = Some (Throws e)))
  /\ (forall e,
       outcome (removeDestination nm) s = Throws e ->
       s1 = set_trace (fun t => t ++ [OTeardown nm]) s
       /\ destinations s1 = destinations s
       /\ nm ∈ (destinations s1).*1)
  /\ ((forall e, outcome (removeDestination nm) s <> Throws e) ->
      outcome (removeDestination nm) s = Returns tt)
  /\ (outcome (removeDestination nm) s = Returns tt ->
      forallb (fun op => negb (adds_destination nm op)) later = true ->
      let s2 := run options later s1 in
      map_get nm (destinations s2) = None
      /\ exists added,
           trace s2 = trace s1 ++ added
           /\ Forall (fun o => is_call_to nm o = false) added).
Proof.
  cbv zeta. destruct (run_destinations options nav t0 ops) as [Hnodup _].
  cbv zeta in Hnodup. set (s := run options ops (createCollector options nav t0)) in *.
  unfold outcome, exec. rewrite removeDestination_run. split_and!.
  - intros e. split.
    + intros Hthrows.
      destruct (map_get nm (destinations s)) as [entry|]; [|discriminate Hthrows].
      destruct (teardown (destination entry)) as [[[]|e']|] eqn:Htd;
        try discriminate Hthrows.
      cbn [fst snd] in *. injection Hthrows as ->.
      exists entry; by split.
    + intros (entry & -> & ->). reflexivity.
  - intros e Hthrows.
    destruct (map_get nm (destinations s)) as [entry|] eqn:Hget;
      [|discriminate Hthrows].
    destruct (teardown (destination entry)) as [[[]|e']|] eqn:Htd;
      try discriminate Hthrows.
    cbn [fst snd] in *. red_state. split_and!; [reflexivity | reflexivity |].
    apply map_get_Some in Hget. change nm with ((nm, entry).1).
    by apply list_elem_of_fmap_2.
  - intros Hno.
    destruct (map_get nm (destinations s)) as [entry|]; [|reflexivity].
    destruct (teardown (destination entry)) as [[[]|e']|]; try reflexivity.
    by destruct (Hno e').
  - intros Hreturns Hlater.
    assert (Hfresh : nm ∉ (destinations
              (match map_get nm (destinations s) with
               | Some entry =>
                   match teardown (destination entry) with
                   | Some (Returns _) =>
                       (Returns tt,
                        set_destinations (map_delete nm)
                          (set_trace (fun t => t ++ [OTeardown nm]) s))
                   | Some (Throws e) =>
                       (Throws e, set_trace (fun t => t ++ [OTeardown nm]) s)
                   | None => (Returns tt, set_destinations (map_delete nm) s)
                   end
               | None => (Returns tt, s)
               end).2).*1).
    { destruct (map_get nm (destinations s)) as [entry|] eqn:Hget.
      - destruct (teardown (destination entry)) as [[[]|e']|];
          try discriminate Hreturns; cbn [snd]; red_state; by apply map_delete_absent.
      - cbn [snd]. by apply map_get_None. }
    destruct (run_no_calls options nm later _ Hfresh Hlater) as (Hgone & added & Ht & Ha).
    split; [by apply map_get_None|]. by exists added.
Qed.

(** ** [identify] *)

Lemma props_union_lookup (a b : Props) (k : string) :
  (a ∪ b) !! k = match a !! k with Some v => Some v | None => b !! k end.
Proof. rewrite lookup_union. by destruct (a !! k), (b !! k). Qed.

Lemma track_user options ent act props s :
  cur_user (exec (track options ent act props) s) = cur_user s.
Proof.
  unfold exec. rewrite track_run.
  destruct (context_at options (now s)) as [ctx|e]; [|reflexivity].
  cbv zeta. destruct (valid _); [|reflexivity].
  destruct (_ >=? _).
  - rewrite flushBuffer_run. cbn [snd].
    match goal with |- context [add_effects ?o ?t ?q ?s1] =>
      destruct (add_effects_fields o t q s1) as (_ & _ & _ & -> & _) end.
    unfold buffered. by red_state.
  - rewrite scheduleFlush_run. cbn [snd]. unfold buffered.
    destruct (flushTimer _); by red_state.
Qed.

(** [identify] updates the identity before it tracks, and independently
    of what tracking does. Whatever happens to the [user:identified]
    event (even when the context resolver throws, or a strict contract
    rejects the event), afterwards the user id is the one given, the
    anonymous id is unchanged, and the traits are the old traits
    overlaid with the new ones. When the context resolves, the event
    built for [user:identified] carries the updated identity, and its
    [userId] property is the user id unless the new traits themselves
    have a [userId] entry, which then takes its place. *)
Theorem identify_updates_identity_first
    (options : CreateCollectorOptions) (uid : string) (new_traits : option Props)
    (s : CollectorState) :
  let s' := exec (identify options uid new_traits) s in
  let u := cur_user s' in
  userId u = Some uid
  /\ anonymousId u = anonymousId (cur_user s)
  /\ (forall k,
        default ∅ (traits u) !! k =
        match default ∅ new_traits !! k with
        | Some v => Some v
        | None => default ∅ (traits (cur_user s)) !! k
        end)
  /\ forall ctx,
       context_at options (now s) = Returns ctx ->
       exists ev,
         (OEmit EvEvent (PEvent ev) (now s) ∈ trace s'
          \/ exists errs, OEmit EvInvalid (PInvalid ev errs) (now s) ∈ trace s')
         /\ entity ev = "user" /\ action ev = "identified"
         /\ user ev = u
         /\ properties ev !! "userId" =
              match default ∅ new_traits !! "userId" with
              | Some v => Some v
              | None => Some (JStr uid)
              end.
Proof.
  cbv zeta. unfold identify, exec, bind, modify. cbn [fst snd].
  set (s1 := set_user _ s).
  pose proof (track_user options "user" "identified"
                (Some (default ∅ new_traits ∪ {[ "userId" := JStr uid ]})) s1) as Huser.
  unfold exec in Huser. rewrite Huser. unfold s1 at 1 2 3. red_state.
  split_and!; [reflexivity | reflexivity | |].
  - intros k. cbn [traits]. exact (props_union_lookup _ _ k).
  - intros ctx Hctx. rewrite track_run.
    assert (Hnow : now s1 = now s) by (unfold s1; red_state; reflexivity).
    rewrite Hnow, Hctx. cbv zeta.
    set (ev := built_event options s1 "user" "identified"
                 (Some (default ∅ new_traits ∪ {[ "userId" := JStr uid ]})) ctx).
    exists ev. split_and!; try reflexivity.
    + destruct (valid (validation (registry s1) ev).1).
      * left.
        assert (Hin : OEmit EvEvent (PEvent ev) (now s)
                      ∈ trace (buffered s1 ev (validation (registry s1) ev).1
                                 (validation (registry s1) ev).2)).
        { unfold buffered. red_state. rewrite ?Hnow.
          apply elem_of_app. right. apply elem_of_app. right.
          apply list_elem_of_here. }
        destruct (_ >=? _).
        -- rewrite flushBuffer_run. cbn [snd].
           match goal with |- context [add_effects ?o ?t ?q ?s2] =>
             destruct (add_effects_fields o t q s2)
               as (_ & _ & _ & _ & _ & _ & _ & _ & _ & -> & _) end.
           red_state. apply elem_of_app. by left.
        -- rewrite scheduleFlush_run. cbn [snd].
           destruct (flushTimer _); red_state; exact Hin.
      * right. exists (errors (validation (registry s1) ev).1). cbn [snd]. red_state.
        rewrite ?Hnow. apply elem_of_app. right. apply elem_of_app. right.
        apply list_elem_of_here.
    + unfold ev, built_event. cbn [properties].
      etrans; [exact (props_union_lookup _ _ "userId")|].
      by rewrite lookup_singleton_eq.
Qed.

(** ** A [send] promise that rejects *)

(** For a destination whose consent requirement is met, whose
    [transform] returns a payload and whose [send] returns a promise
    that later rejects: the dispatch itself reports success
    ([destination:send] is emitted right after the [send] call), and the
    rejection is reported as [destination:error] for the same event only
    when the pending promise callbacks run, followed in debug mode by a
    [console.error] line naming the destination. Listeners therefore see
    both emissions for that one delivery. *)
Theorem rejected_send_reports_send_then_error
    (options : CreateCollectorOptions) (ev : JctEvent) (nm : string)
    (entry : DestinationEntry) (s : CollectorState) (p e : JsVal) :
  isAllowed (c_state s) (requiredConsent entry) = true ->
  transform (destination entry) ev = Returns (Some p) ->
  send (destination entry) p (config entry) = SendPromise (Some e) ->
  let s1 := exec (dispatchToDestination options ev (nm, entry)) s in
  let s2 := exec (runMicrotasks options) s1 in
  outcome (dispatchToDestination options ev (nm, entry)) s = Returns tt
  /\ trace s1 = trace s
       ++ [OTransform nm ev; OSend nm p (config entry);
           OEmit EvDestinationSend (PDestination nm None (Some ev)) (now s)]
  /\ trace s2 = trace s1
       ++ flat_map (task_obs options (now s)) (microtasks s)
       ++ OEmit EvDestinationError (PDestination nm (Some e) (Some ev)) (now s)
          :: (if debug (opt_config options)
              then [OConsoleError ("[Junction] Send failed for " ++ nm ++ ":") e]
              else [])
  /\ microtasks s2 = []
  /\ queue s2 = queue s.
Proof.
  intros Hal Htransform Hsend. cbv zeta. unfold exec, outcome.
  rewrite runMicrotasks_run, dispatchToDestination_run. cbn [fst snd].
  unfold allowed_now, blocked_pending, delivery_obs, delivery_tasks. cbn [fst snd].
  rewrite Hal, Htransform, Hsend. cbn [negb andb].
  red_state. rewrite flat_map_app. cbn [flat_map task_obs]. rewrite !app_nil_r.
  by split_and!.
Qed.

Lemma rejected_send_reports_send_then_error_witness :
  let options := Fixtures.debugStrictOptions in
  let s := createCollector options None 0 in
  let ev := built_event options s "page" "viewed" None ∅ in
  let entry := Fixtures.entryOf (Fixtures.failSend "late" ["necessary"]) in
  trace (exec (runMicrotasks options) (exec (dispatchToDestination options ev ("late", entry)) s))
  = [OTransform "late" ev;
     OSend "late" (JObj [("transformed", JBool true)]) (JObj []);
     OEmit EvDestinationSend (PDestination "late" None (Some ev)) 0;
     OEmit EvDestinationError
       (PDestination "late" (Some (JStr "Network error")) (Some ev)) 0;
     OConsoleError "[Junction] Send failed for late:" (JStr "Network error")].
Proof.
  cbv zeta.
  pose proof (rejected_send_reports_send_then_error Fixtures.debugStrictOptions
                (built_event Fixtures.debugStrictOptions
                   (createCollector Fixtures.debugStrictOptions None 0)
                   "page" "viewed" None ∅)
                "late" (Fixtures.entryOf (Fixtures.failSend "late" ["necessary"]))
                (createCollector Fixtures.debugStrictOptions None 0)
                (JObj [("transformed", JBool true)]) (JStr "Network error")) as H.
  cbv zeta in H.
  destruct H as (_ & H1 & H2 & _);
    [vm_compute; reflexivity | vm_compute; reflexivity | vm_compute; reflexivity |].
  rewrite H2, H1. reflexivity.
Defined.

(** ** The queue across a consent change *)

(** A consent change re-queues for the destinations that are still
    waiting. With queueing enabled and no [onConsent] callback throwing,
    after [consent(update)] the queue holds, for every entry it held
    before and in the same order, [k] copies of that entry's event, where
    [k] is the number of registered destinations that are still blocked
    with an undecided category under the new state. Each copy carries
    the current user and is stamped with the time of the consent change,
    so the queue timeout starts over; with [k = 0] the queue is empty,
    with [k >= 2] it grows. *)
Theorem consent_change_requeues_for_waiting
    (options : CreateCollectorOptions) (update : ConsentState) (s : CollectorState) :
  queueTimeout (cfg_consent (opt_config options)) <> 0 ->
  (onConsent_calls (update ∪ c_state s) (destinations s)).2 = None ->
  let k := length (filter (fun ne => blocked_pending (update ∪ c_state s) ne)
                     (destinations s)) in
  let s' := exec (consent options update) s in
  queue s'
  = flat_map (fun q => replicate k {| event := with_user (event q) (cur_user s);
                                      queuedAt := now s |}) (queue s)
  /\ length (queue s') = (length (queue s) * k)%nat.
Proof.
  intros Hon Hcalls k s'.
  assert (Hq : queue s'
    = flat_map (fun q => replicate k {| event := with_user (event q) (cur_user s);
                                        queuedAt := now s |}) (queue s)).
  { subst s'. unfold exec. rewrite consent_run. cbv zeta. rewrite Hcalls. cbn [snd].
    match goal with |- context [add_effects ?o ?t ?q ?sx] =>
      destruct (add_effects_fields o t q sx)
        as (_ & _ & _ & _ & _ & _ & _ & _ & _ & _ & _ & ->) end.
    red_state. cbn [app]. unfold batch_queue, replayed. fold k.
    generalize (queue s) as qs.
    induction qs as [|q qs IH]; [reflexivity|].
    cbn [map flat_map]. rewrite IH. f_equal. by apply pass_queue_count. }
  split; [exact Hq|]. rewrite Hq. clear Hq Hcalls. generalize (queue s) as qs.
  induction qs as [|q qs IH]; [reflexivity|].
  cbn [flat_map length]. rewrite length_app, length_replicate, IH. lia.
Qed.

Lemma consent_change_requeues_for_waiting_witness :
  let options := Fixtures.twoPendingOptions in
  let s := run options [OpTrack "page" "viewed" None; OpFlush]
             (createCollector options None 0) in
  length (queue s) = 2%nat
  /\ length (queue (exec (consent options {[ "marketing" := Some true ]}) s)) = 4%nat.
Proof.
  cbv zeta. split; [vm_compute; reflexivity|].
  pose proof (consent_change_requeues_for_waiting Fixtures.twoPendingOptions
                {[ "marketing" := Some true ]}
                (run Fixtures.twoPendingOptions [OpTrack "page" "viewed" None; OpFlush]
                   (createCollector Fixtures.twoPendingOptions None 0))) as H.
  cbv zeta in H.
  destruct H as [_ H]; [vm_compute; discriminate | vm_compute; reflexivity |].
  rewrite H. vm_compute. reflexivity.
Defined.

(** * The OneTrust adapter and Google consent mode *)

Lemma prefix_app (needle post : string) : String.prefix needle (needle ++ post) = true.
Proof.
  induction needle as [|a needle IH]; [by destruct post|].
  change (String a needle ++ post)%string with (String a (needle ++ post)).
  cbn [String.prefix]. by destruct (Ascii.ascii_dec a a).
Qed.

Lemma includes_app (pre needle post : string) :
  OneTrust.includes (pre ++ needle ++ post) needle = true.
Proof.
  induction pre as [|a pre IH].
  - change ("" ++ needle ++ post)%string with (needle ++ post)%string.
    destruct (needle ++ post)%string eqn:Heq; cbn [OneTrust.includes];
      rewrite <- Heq, prefix_app; reflexivity.
  - change (String a pre ++ needle ++ post)%string
      with (String a (pre ++ needle ++ post)).
    cbn [OneTrust.includes]. rewrite IH. apply orb_true_r.
Qed.

Lemma mapOneTrustGroups_lookup groups categoryMap cat :
  OneTrust.mapOneTrustGroups groups categoryMap !! cat =
  match (if bool_decide (cat = "__proto__") then None
         else OneTrust.resolvedMap categoryMap !! cat) with
  | Some (Some group) =>
      if bool_decide (group = "")
      then (if bool_decide (cat = "necessary") then Some (Some true) else None)
      else Some (Some (OneTrust.includes groups group))
  | _ => if bool_decide (cat = "necessary") then Some (Some true) else None
  end.
Proof.
  unfold OneTrust.mapOneTrustGroups. rewrite override_lookup, lookup_omap.
  assert (Hnec : ({[ "necessary" := Some true ]} : ConsentState) !! cat
                 = if bool_decide (cat = "necessary") then Some (Some true) else None).
  { destruct (bool_decide (cat = "necessary")) eqn:Hc.
    - apply bool_decide_eq_true in Hc as ->. apply lookup_singleton_eq.
    - apply bool_decide_eq_false in Hc. by apply lookup_singleton_ne. }
  rewrite Hnec.
  destruct (bool_decide (cat = "__proto__")) eqn:Hproto.
  - apply bool_decide_eq_true in Hproto as ->. by rewrite lookup_delete_eq.
  - apply bool_decide_eq_false in Hproto. rewrite lookup_delete_ne by done.
    destruct (OneTrust.resolvedMap categoryMap !! cat) as [[group|]|]; cbn; [|done|done].
    by destruct (bool_decide (group = "")).
Qed.

(** What a OneTrust sync decides. When [OnetrustActiveGroups] is a
    non-empty string, the adapter's sync leaves every category that the
    resolved map sends to a non-empty group explicitly granted or denied
    (granted when the group id occurs in the string) and therefore no
    longer pending; a category that is not mapped keeps the value it had,
    except [necessary], which becomes true; the four default categories
    use their default group unless the caller's map names them. The one
    key the loop cannot assign is ["__proto__"]: it counts as not mapped
    and keeps the value it had. When [OnetrustActiveGroups] is missing
    or empty, nothing is pushed and the collector is left exactly as it
    was. *)
Theorem onetrust_sync_decides_mapped_categories
    (options : CreateCollectorOptions) (categoryMap : OneTrust.OneTrustCategoryMap)
    (groups : string) (s : CollectorState) :
  groups <> "" ->
  let s' := exec (OneTrust.readAndSync options categoryMap (Some groups)) s in
  (forall cat group,
     OneTrust.resolvedMap categoryMap !! cat = Some (Some group) -> group <> "" ->
     cat <> "__proto__" ->
     c_state s' !! cat = Some (Some (OneTrust.includes groups group))
     /\ isPending (c_state s') [cat] = false)
  /\ (forall cat,
        (cat = "__proto__"
         \/ forall group, OneTrust.resolvedMap categoryMap !! cat = Some (Some group) ->
                          group = "") ->
        c_state s' !! cat
        = if bool_decide (cat = "necessary") then Some (Some true) else c_state s !! cat)
  /\ (forall cat group,
        categoryMap !! cat = None ->
        OneTrust.DEFAULT_CATEGORY_MAP !! cat = Some group ->
        c_state s' !! cat = Some (Some (OneTrust.includes groups group)))
  /\ exec (OneTrust.readAndSync options categoryMap None) s = s
  /\ exec (OneTrust.readAndSync options categoryMap (Some "")) s = s.
Proof.
  intros Hloaded s'.
  assert (Hstate : forall cat,
            c_state s' !! cat =
            match OneTrust.mapOneTrustGroups groups categoryMap !! cat with
            | Some b => Some b
            | None => c_state s !! cat
            end).
  { intros cat. subst s'. unfold OneTrust.readAndSync.
    rewrite bool_decide_eq_false_2 by done. apply consent_lookup. }
  assert (Hmapped : forall cat group,
            OneTrust.resolvedMap categoryMap !! cat = Some (Some group) -> group <> "" ->
            cat <> "__proto__" ->
            c_state s' !! cat = Some (Some (OneTrust.includes groups group))).
  { intros cat group Hres Hgroup Hcat.
    rewrite Hstate, mapOneTrustGroups_lookup.
    rewrite (bool_decide_eq_false_2 (cat = "__proto__")) by done.
    rewrite Hres. by rewrite bool_decide_eq_false_2. }
  split_and!.
  - intros cat group Hres Hgroup Hcat. split; [by apply Hmapped|].
    apply isPending_false_iff. intros c Hc.
    apply list_elem_of_singleton in Hc as ->.
    unfold reads_undefined. rewrite (Hmapped cat group) by done.
    by apply bool_decide_eq_false_2.
  - intros cat Hunmapped. rewrite Hstate, mapOneTrustGroups_lookup.
    destruct (bool_decide (cat = "__proto__")) eqn:Hproto.
    { apply bool_decide_eq_true in Hproto as ->. reflexivity. }
    apply bool_decide_eq_false in Hproto.
    destruct Hunmapped as [Hcat | Hunmapped]; [done|].
    destruct (OneTrust.resolvedMap categoryMap !! cat) as [[group|]|] eqn:Hres.
    + rewrite (Hunmapped group eq_refl). rewrite bool_decide_eq_true_2 by done.
      by destruct (bool_decide (cat = "necessary")).
    + by destruct (bool_decide (cat = "necessary")).
    + by destruct (bool_decide (cat = "necessary")).
  - intros cat group Hnone Hdefault.
    assert (Hok : group <> "" /\ cat <> "__proto__").
    { unfold OneTrust.DEFAULT_CATEGORY_MAP in Hdefault.
      repeat (apply lookup_insert_Some in Hdefault as [[<- <-] | [_ Hdefault]];
              [by split|]).
      apply lookup_singleton_Some in Hdefault as [<- <-]. by split. }
    destruct Hok as [Hgroup Hcat]. apply Hmapped; [|done|done].
    unfold OneTrust.resolvedMap. rewrite lookup_union, Hnone, lookup_fmap, Hdefault.
    reflexivity.
  - reflexivity.
  - reflexivity.
Qed.

Lemma onetrust_sync_decides_mapped_categories_witness :
  let s := createCollector Fixtures.pendingOptions None 0 in
  let s' := exec (OneTrust.readAndSync Fixtures.pendingOptions ∅
                    (Some ",C0001,C0002,")) s in
  c_state s' !! "analytics" = Some (Some true)
  /\ c_state s' !! "marketing" = Some (Some false).
Proof.
  cbv zeta.
  pose proof (onetrust_sync_decides_mapped_categories Fixtures.pendingOptions ∅
                ",C0001,C0002," (createCollector Fixtures.pendingOptions None 0)) as H.
  cbv zeta in H. destruct H as (_ & _ & H & _); [discriminate|].
  split.
  - by rewrite (H "analytics" "C0002").
  - by rewrite (H "marketing" "C0004").
Defined.

(** A OneTrust group counts as active when its id occurs anywhere in the
    active-groups string: the test is a substring test, not a test on
    the comma-separated items, so an id that is part of a longer active
    id is taken as active too. This holds for every category key the
    loop can assign; the key ["__proto__"] is never assigned, whatever
    the map says. *)
Theorem onetrust_group_match_is_substring
    (categoryMap : OneTrust.OneTrustCategoryMap) (cat group pre post : string) :
  OneTrust.resolvedMap categoryMap !! cat = Some (Some group) -> group <> "" ->
  (cat <> "__proto__" ->
   OneTrust.mapOneTrustGroups (pre ++ group ++ post) categoryMap !! cat
   = Some (Some true))
  /\ OneTrust.mapOneTrustGroups (pre ++ group ++ post) categoryMap !! "__proto__" = None.
Proof.
  intros Hres Hgroup. split.
  - intros Hcat. rewrite mapOneTrustGroups_lookup.
    rewrite (bool_decide_eq_false_2 (cat = "__proto__")) by done.
    rewrite Hres. rewrite bool_decide_eq_false_2 by done. by rewrite includes_app.
  - by rewrite mapOneTrustGroups_lookup.
Qed.

Lemma onetrust_group_match_is_substring_witness :
  OneTrust.mapOneTrustGroups ",C0001,C00021," ∅ !! "analytics" = Some (Some true).
Proof.
  apply (onetrust_group_match_is_substring ∅ "analytics" "C0002" ",C0001," "1,");
    [reflexivity | discriminate | discriminate].
Defined.

Lemma isAllowed_single (st : ConsentState) (c : ConsentCategory) :
  c <> "necessary" -> (isAllowed st [c] = true <-> st !! c = Some (Some true)).
Proof.
  intros Hc. rewrite isAllowed_true_iff. split.
  - intros [Hnil | [Hnec | (c' & Hin & Htrue)]]; [discriminate Hnil | |].
    + apply Forall_cons in Hnec as [-> _]. done.
    + by apply list_elem_of_singleton in Hin as ->.
  - intros Htrue. right. right. exists c.
    split; [by apply list_elem_of_singleton | exact Htrue].
Qed.

Lemma truthy_true (v : option (option bool)) :
  GA4.truthy v = true <-> v = Some (Some true).
Proof. destruct v as [[[]|]|]; cbn; split; congruence. Qed.

(** Google consent mode follows the collector's own consent gate. For
    every consent state, a Google storage signal is ["granted"] exactly
    when a destination requiring the corresponding Junction category
    would be allowed: [analytics_storage] with analytics, [ad_storage]
    and [ad_user_data] with marketing, [ad_personalization] and
    [personalization_storage] with personalization; an undecided
    category is reported as denied. [security_storage] is always granted.
    The one place where the two disagree is [necessary]: a requirement of
    ["necessary"] is always allowed, while [functionality_storage] is
    denied exactly when [necessary] is explicitly false. *)
Theorem google_consent_follows_gate (st : ConsentState) :
  let g := GA4.mapConsentToGoogle st in
  (g !! "analytics_storage" = Some GA4.granted <-> isAllowed st ["analytics"] = true)
  /\ (g !! "ad_storage" = Some GA4.granted <-> isAllowed st ["marketing"] = true)
  /\ (g !! "ad_user_data" = Some GA4.granted <-> isAllowed st ["marketing"] = true)
  /\ (g !! "ad_personalization" = Some GA4.granted
      <-> isAllowed st ["personalization"] = true)
  /\ (g !! "personalization_storage" = Some GA4.granted
      <-> isAllowed st ["personalization"] = true)
  /\ g !! "security_storage" = Some GA4.granted
  /\ (g !! "functionality_storage" = Some GA4.denied
      <-> st !! "necessary" = Some (Some false))
  /\ isAllowed st ["necessary"] = true.
Proof.
  cbv zeta.
  assert (Hsignal : forall c, c <> "necessary" ->
            (Some (GA4.signal (GA4.truthy (st !! c))) = Some GA4.granted
             <-> isAllowed st [c] = true)).
  { intros c Hc. rewrite isAllowed_single by done. rewrite <- truthy_true.
    destruct (GA4.truthy (st !! c)); cbn; split; congruence. }
  split_and!.
  - by apply (Hsignal "analytics").
  - by apply (Hsignal "marketing").
  - by apply (Hsignal "marketing").
  - by apply (Hsignal "personalization").
  - by apply (Hsignal "personalization").
  - reflexivity.
  - change (Some (GA4.signal (negb (bool_decide (st !! "necessary" = Some (Some false)))))
            = Some GA4.denied <-> st !! "necessary" = Some (Some false)).
    destruct (bool_decide (st !! "necessary" = Some (Some false))) eqn:Hn; cbn.
    + apply bool_decide_eq_true in Hn. by split.
    + apply bool_decide_eq_false in Hn. split; [discriminate | done].
  - reflexivity.
Qed.

(** * The context resolver *)

(** The context resolver decides whether [track] goes through. When
    [resolveContext] throws, [track] throws the same error and leaves the
    collector exactly as it was: no identifier is drawn, nothing is
    emitted, buffered or logged. When it returns, the event is built with
    the current user, time and the next identifier, and its context is
    the configured globals overlaid with the resolved context, whose
    entries win. *)
Theorem context_resolver_governs_track
    (options : CreateCollectorOptions) (resolve : Z -> Outcome Props)
    (ent act : string) (props : option Props) (s : CollectorState) :
  resolveContext options = Some resolve ->
  (forall e, resolve (now s) = Throws e ->
     outcome (track options ent act props) s = Throws e
     /\ exec (track options ent act props) s = s)
  /\ (forall resolved, resolve (now s) = Returns resolved ->
        exists ev,
          buildEvent options ent act props s = (Returns ev, set_idSupply S s)
          /\ (forall k,
                context ev !! k =
                match resolved !! k with
                | Some v => Some v
                | None => default ∅ (globals (opt_config options)) !! k
                end)
          /\ user ev = cur_user s /\ timestamp ev = now s /\ id ev = idSupply s
          /\ properties ev = default ∅ props).
Proof.
  intros Hresolver. split.
  - intros e Hthrows. unfold outcome, exec. rewrite track_run.
    unfold context_at. by rewrite Hresolver, Hthrows.
  - intros resolved Hreturns. rewrite buildEvent_run.
    unfold context_at. rewrite Hresolver, Hreturns.
    eexists. split; [reflexivity|]. cbn [context user timestamp id properties built_event].
    split_and!; try reflexivity. intros k. apply props_union_lookup.
Qed.

Lemma context_resolver_governs_track_witness :
  let options :=
    {| opt_config := opt_config Fixtures.strictOptions;
       opt_source := opt_source Fixtures.strictOptions;
       resolveContext := Some (fun _ => Throws (JStr "no window")) |} in
  let s := createCollector options None 0 in
  outcome (track options "page" "viewed" None) s = Throws (JStr "no window")
  /\ exec (track options "page" "viewed" None) s = s.
Proof.
  cbv zeta.
  pose proof (context_resolver_governs_track
                {| opt_config := opt_config Fixtures.strictOptions;
                   opt_source := opt_source Fixtures.strictOptions;
                   resolveContext := Some (fun _ => Throws (JStr "no window")) |}
                (fun _ => Throws (JStr "no window")) "page" "viewed" None
                (createCollector
                   {| opt_config := opt_config Fixtures.strictOptions;
                      opt_source := opt_source Fixtures.strictOptions;
                      resolveContext := Some (fun _ => Throws (JStr "no window")) |}
                   None 0) eq_refl) as [H _].
  exact (H (JStr "no window") eq_refl).
Defined.
